(** * Glow host runtime, CPU operator table and IR instruction checks

    A shallow embedding of three translation units of the Glow sources:
    - [lib/IR/Instrs.cpp]  (instruction verification),
    - [lib/Backends/CPU/CPUBackend.cpp]  (the CPU operator-support table),
    - [lib/Runtime/HostManager/HostManager.cpp]  (the host manager).

    Declarations that live in headers or in generated files (element kinds,
    node kinds, slot indices, the request comparator, the executor and the
    provisioner) are not part of these units; each place where one of them
    is needed says how it is taken. *)

From Stdlib Require Import ZArith Lia.
From stdpp Require Import gmap listset strings list pretty sorting.

Local Open Scope Z_scope.

(* ===================================================================== *)
(** ** Element kinds and tensor types ([glow/Base/Type.h]) *)
(* ===================================================================== *)

Module Base.

(** The element kinds the three translation units name.  The enumeration
    itself is declared in a header. *)
Inductive ElemKind : Set :=
  | FloatTy
  | Int8QTy
  | UInt8QTy
  | Int16QTy
  | Int32QTy
  | Int32ITy
  | Int64ITy
  | UInt8FusedQTy
  | BoolTy.

#[export] Instance ElemKind_eq_dec : EqDecision ElemKind.
Proof. solve_decision. Defined.

(** A tensor type: element kind and shape. *)
Record Ty : Set := mkTy {
  getElementType : ElemKind;
  dims : list N
}.

#[export] Instance Ty_eq_dec : EqDecision Ty.
Proof. solve_decision. Defined.

End Base.

Import Base.

(* ===================================================================== *)
(** ** Instruction verification ([lib/IR/Instrs.cpp]) *)
(* ===================================================================== *)

Module Instrs.

(** [Instruction::Operand] is a pair of a value and an operand kind; the
    checks only look at [first]. *)
Inductive OperandKind : Set := OpIn | OpInOut | OpOut.

Record Value : Set := mkValue { getType : Ty }.

Definition Operand : Set := (Value * OperandKind)%type.

Record Instruction : Set := mkInstruction { operands : list Operand }.

(** [getOperand(idx)]; the accessor asserts that the index is in range. *)
Definition getOperand (I : Instruction) (idx : nat) : option Operand :=
  operands I !! idx.

(** The checks are [assert]s: a check either holds or aborts verification.
    [true] stands for "the assertion holds". *)
Definition checkType (A : Operand) (expectedType : ElemKind) : bool :=
  bool_decide (getElementType (getType A.1) = expectedType).

Definition checkSameDims (A B : Operand) : bool :=
  bool_decide (dims (getType A.1) = dims (getType B.1)).

(** Runs the assertions of a [verify] body in order over two operands. *)
Definition verify2 (I : Instruction)
    (body : Operand -> Operand -> bool) : bool :=
  match getOperand I 0, getOperand I 1 with
  | Some op0, Some op1 => body op0 op1
  | _, _ => false
  end.

(** [QuantizeInst::verify]: operand 0 is the destination, operand 1 the
    source. *)
Definition QuantizeInst_verify (I : Instruction) : bool :=
  verify2 I (fun op0 op1 =>
    (* Dest must be quantized. *)
    checkType op0 Int8QTy &&
    (* Src must be float. *)
    checkType op1 FloatTy &&
    checkSameDims op0 op1).

(** [DequantizeInst::verify]. *)
Definition DequantizeInst_verify (I : Instruction) : bool :=
  verify2 I (fun op0 op1 =>
    (* Dest must be float. *)
    checkType op0 FloatTy &&
    (* Src must be quantized. *)
    checkType op1 Int8QTy &&
    checkSameDims op0 op1).

(** [RescaleQuantizedInst::verify]. *)
Definition RescaleQuantizedInst_verify (I : Instruction) : bool :=
  verify2 I (fun op0 op1 =>
    checkType op0 Int8QTy &&
    checkType op1 Int8QTy &&
    checkSameDims op0 op1).

(** The remaining checks of this section compare shapes.  Sizes, offsets
    and indices are [size_t]; a rank held in an [unsigned] is reduced
    modulo [2 ^ 32]. *)

(** The loop of [InsertTensorInst::verify] and [ExtractTensorInst::verify]:
    for every [i] below [numDims], [inner[i] + offsets[i] <= outer[i]], the
    sum being taken in [size_t]. *)
Definition withinBounds (inner offsets outer : list N) (numDims : nat)
    : bool :=
  forallb (fun i =>
             match inner !! i, offsets !! i, outer !! i with
             | Some n, Some o, Some m => bool_decide ((n + o) mod 2 ^ 64 ≤ m)%N
             | _, _, _ => false
             end)
          (seq 0 numDims).

(** [InsertTensorInst::verify]; [dest], [src] and [offsets] are what the
    generated accessors [getDest()], [getSrc()] and [getOffsets()] return. *)
Definition InsertTensorInst_verify (dest src : Value) (offsets : list N)
    : bool :=
  let numDims := (N.of_nat (length (dims (getType dest))) mod 2 ^ 32)%N in
  bool_decide (numDims = N.of_nat (length (dims (getType src)))) &&
  bool_decide (numDims = N.of_nat (length offsets)) &&
  withinBounds (dims (getType src)) offsets (dims (getType dest))
    (N.to_nat numDims).

(** [ExtractTensorInst::verify]. *)
Definition ExtractTensorInst_verify (dest src : Value) (offsets : list N)
    : bool :=
  let numDims := (N.of_nat (length (dims (getType dest))) mod 2 ^ 32)%N in
  bool_decide (numDims = N.of_nat (length (dims (getType src)))) &&
  bool_decide (numDims = N.of_nat (length offsets)) &&
  withinBounds (dims (getType dest)) offsets (dims (getType src))
    (N.to_nat numDims).

(** [TransposeInst::verify]: the shape of the source is shuffled by
    [Shuffle_] and compared with the shape of the destination.  There is no
    value ([None]) when an operand is missing or when [Shuffle_[i]] or
    [dims[Shuffle_[i]]] reads out of range. *)
Definition TransposeInst_verify (I : Instruction) (Shuffle_ : list nat)
    : option bool :=
  dest ← getOperand I 0;
  src ← getOperand I 1;
  let srcDims := dims (getType src.1) in
  shape ← mapM (fun i => k ← Shuffle_ !! i; srcDims !! k)
               (seq 0 (length srcDims));
  Some (bool_decide (dims (getType dest.1) = shape)).

End Instrs.

(* ===================================================================== *)
(** ** The CPU backend's operator table ([lib/Backends/CPU/CPUBackend.cpp]) *)
(* ===================================================================== *)

Module CPUBackend.

(** Node kinds.  [Kinded::Kind] is generated; listed here are the kinds the
    translation unit names, and [OtherNodeKind] stands for the remaining
    members of the enumeration. *)
Inductive Kind : Set :=
  | BatchedReduceMinNodeKind
  | AddNodeKind
  | MulNodeKind
  | SubNodeKind
  | MaxNodeKind
  | MinNodeKind
  | CPUMaxSplatNodeKind
  | BatchedReduceAddNodeKind
  | MatMulNodeKind
  | AvgPoolNodeKind
  | AdaptiveAvgPoolNodeKind
  | MaxPoolNodeKind
  | ArgMaxNodeKind
  | ArgMinNodeKind
  | ResizeNearestNodeKind
  | ResizeBilinearNodeKind
  | SaveNodeKind
  | ReshapeNodeKind
  | InsertTensorNodeKind
  | ConcatNodeKind
  | SplatNodeKind
  | TouchNodeKind
  | SliceNodeKind
  | SpaceToDepthNodeKind
  | DivNodeKind
  | TransposeNodeKind
  | FlipNodeKind
  | SparseLengthsSumNodeKind
  | SparseLengthsWeightedSumNodeKind
  | EmbeddingBagNodeKind
  | SparseLengthsWeightedSumGradNodeKind
  | RowwiseQuantizedSparseLengthsWeightedSumNodeKind
  | LengthsRangeFillNodeKind
  | LengthsToRangesNodeKind
  | IntLookupTableNodeKind
  | RescaleQuantizedNodeKind
  | PowNodeKind
  | AvgPoolGradNodeKind
  | QuantizationProfileNodeKind
  | CPUConvDKKC8NodeKind
  | LocalResponseNormalizationNodeKind
  | LocalResponseNormalizationGradNodeKind
  | LogNodeKind
  | TanhNodeKind
  | SigmoidNodeKind
  | ExpNodeKind
  | ModuloNodeKind
  | MaxPoolGradNodeKind
  | ConvolutionNodeKind
  | ChannelwiseQuantizedConvolutionNodeKind
  | ConvTransposeNodeKind
  | BatchedAddNodeKind
  | GatherNodeKind
  | GatherRangesNodeKind
  | ScatterDataNodeKind
  | SelectNodeKind
  | NotNodeKind
  | AndNodeKind
  | OrNodeKind
  | XorNodeKind
  | AbsNodeKind
  | NegNodeKind
  | FloorNodeKind
  | CeilNodeKind
  | RoundNodeKind
  | SqrtNodeKind
  | RsqrtNodeKind
  | ReciprocalNodeKind
  | SinNodeKind
  | CosNodeKind
  | CmpEQNodeKind
  | CmpNEQNodeKind
  | CmpLTNodeKind
  | CmpLTENodeKind
  | IsNaNNodeKind
  | TopKNodeKind
  | QuantizeNodeKind
  | DequantizeNodeKind
  | SoftMaxNodeKind
  | CrossEntropyLossNodeKind
  | LengthsSumNodeKind
  | EmbeddingBagByteRowwiseOffsetsNodeKind
  | FusedRowwiseQuantizedSparseLengthsWeightedSumNodeKind
  | RowwiseQuantizedFullyConnectedNodeKind
  | SparseToDenseNodeKind
  | SoftMaxGradNodeKind
  | ConvolutionGradNodeKind
  | CrossEntropyLossGradNodeKind
  | TraceEventNodeKind
  | NonMaxSuppressionNodeKind
  | AudioSpectrogramNodeKind
  | MFCCNodeKind
  | ConvertToNodeKind
  | FusedRowwiseQuantizedSparseLengthsSumNodeKind
  | SparseToDenseMaskNodeKind
  | OtherNodeKind (tag : nat).

#[export] Instance Kind_eq_dec : EqDecision Kind.
Proof. solve_decision. Defined.

(** Slot names.  Each [XNode::YIdx] is a generated constant; the table is
    parametric in their values (see [idx] below). *)
Inductive Slot : Set :=
  | MaxPoolNode_ArgmaxIdx
  | ArgMaxNode_ResultIdx
  | SparseLengthsSumNode_IndicesIdx
  | SparseLengthsSumNode_LengthsIdx
  | SparseLengthsWeightedSumNode_IndicesIdx
  | SparseLengthsWeightedSumNode_LengthsIdx
  | EmbeddingBagNode_IndicesIdx
  | EmbeddingBagNode_OffsetsIdx
  | SparseLengthsWeightedSumGradNode_IndicesIdx
  | SparseLengthsWeightedSumGradNode_LengthsIdx
  | SparseLengthsWeightedSumGradNode_GradOfInputNamedIndicesIdx
  | SparseLengthsWeightedSumGradNode_GradOfInputNamedLengthsIdx
  | RowwiseQuantizedSparseLengthsWeightedSumNode_DataIdx
  | RowwiseQuantizedSparseLengthsWeightedSumNode_ScalesIdx
  | RowwiseQuantizedSparseLengthsWeightedSumNode_OffsetsIdx
  | RowwiseQuantizedSparseLengthsWeightedSumNode_WeightsIdx
  | RowwiseQuantizedSparseLengthsWeightedSumNode_IndicesIdx
  | RowwiseQuantizedSparseLengthsWeightedSumNode_LengthsIdx
  | RowwiseQuantizedSparseLengthsWeightedSumNode_ResultIdx
  | MaxPoolGradNode_OriginalOutputForArgmaxIdx
  | MaxPoolGradNode_GradOfOriginalOutputNamedArgmaxIdx
  | ConvolutionNode_InputIdx
  | ConvolutionNode_BiasIdx
  | ChannelwiseQuantizedConvolutionNode_InputIdx
  | ChannelwiseQuantizedConvolutionNode_FilterIdx
  | ChannelwiseQuantizedConvolutionNode_BiasIdx
  | ChannelwiseQuantizedConvolutionNode_FilterScalesIdx
  | ChannelwiseQuantizedConvolutionNode_FilterOffsetsIdx
  | ChannelwiseQuantizedConvolutionNode_BiasScalesIdx
  | ChannelwiseQuantizedConvolutionNode_BiasOffsetsIdx
  | ChannelwiseQuantizedConvolutionNode_ResultIdx
  | BatchedAddNode_BatchIdx
  | BatchedAddNode_SliceIdx
  | GatherNode_IndicesIdx
  | GatherRangesNode_RangesIdx
  | GatherRangesNode_LengthsIdx
  | ScatterDataNode_IndicesIdx
  | SelectNode_CondIdx
  | CmpEQNode_ResultIdx
  | IsNaNNode_ResultIdx
  | TopKNode_IndicesIdx
  | QuantizeNode_InputIdx
  | QuantizeNode_ResultIdx
  | DequantizeNode_InputIdx
  | DequantizeNode_ResultIdx
  | SoftMaxNode_SelectedIdx
  | CrossEntropyLossNode_LabelsIdx
  | LengthsSumNode_LengthsIdx
  | EmbeddingBagByteRowwiseOffsetsNode_DataIdx
  | EmbeddingBagByteRowwiseOffsetsNode_WeightsIdx
  | EmbeddingBagByteRowwiseOffsetsNode_IndicesIdx
  | EmbeddingBagByteRowwiseOffsetsNode_OffsetsIdx
  | EmbeddingBagByteRowwiseOffsetsNode_ResultIdx
  | FusedRowwiseQuantizedSparseLengthsWeightedSumNode_DataIdx
  | FusedRowwiseQuantizedSparseLengthsWeightedSumNode_WeightsIdx
  | FusedRowwiseQuantizedSparseLengthsWeightedSumNode_IndicesIdx
  | FusedRowwiseQuantizedSparseLengthsWeightedSumNode_LengthsIdx
  | FusedRowwiseQuantizedSparseLengthsWeightedSumNode_ResultIdx
  | RowwiseQuantizedFullyConnectedNode_InputIdx
  | RowwiseQuantizedFullyConnectedNode_WeightsIdx
  | RowwiseQuantizedFullyConnectedNode_ScalesIdx
  | RowwiseQuantizedFullyConnectedNode_OffsetsIdx
  | RowwiseQuantizedFullyConnectedNode_BiasIdx
  | RowwiseQuantizedFullyConnectedNode_ResultIdx
  | SparseToDenseNode_IndicesIdx
  | SoftMaxGradNode_SelectedIdx
  | SoftMaxGradNode_GradOfInputNamedSelectedIdx
  | ConvolutionGradNode_GradOfInputNamedInputIdx
  | CrossEntropyLossGradNode_LabelsIdx
  | CrossEntropyLossGradNode_GradOfInputNamedLabelsIdx
  | TraceEventNode_DataIdx
  | NonMaxSuppressionNode_BoxesIdx
  | NonMaxSuppressionNode_ScoresIdx
  | NonMaxSuppressionNode_IndicesIdx
  | NonMaxSuppressionNode_NumberOfSelectedIndicesIdx
  | AudioSpectrogramNode_InputIdx
  | AudioSpectrogramNode_SpectrogramIdx
  | MFCCNode_SpectrogramIdx
  | MFCCNode_CoefficientsIdx
  | ConvertToNode_InputIdx
  | ConvertToNode_ResultIdx.

(** [NodeInfo]: a node kind with the types of its input and output slots. *)
Record NodeInfo : Set := mkNodeInfo {
  getKind : Kind;
  inTys : list Ty;
  outTys : list Ty
}.

(** A slot lookup that is out of range has no value ([None]); in the source
    it is an out-of-bounds access.  Conditions are therefore [option bool],
    joined by the short-circuit connectives below. *)
Definition andM (a b : option bool) : option bool :=
  match a with
  | Some true => b
  | Some false => Some false
  | None => None
  end.

Definition orM (a b : option bool) : option bool :=
  match a with
  | Some true => Some true
  | Some false => b
  | None => None
  end.

Definition isKind (a : option ElemKind) (k : ElemKind) : option bool :=
  (fun x => bool_decide (x = k)) <$> a.

Infix "&&&" := andM (at level 40, left associativity).
Infix "|||" := orM (at level 50, left associativity).
Infix "==?" := isKind (at level 30, no associativity).

(** The wording of the operator table: every input and output slot has
    element kind [k]; all of them share one kind out of [allowed]. *)
Definition allHave (NI : NodeInfo) (k : ElemKind) : Prop :=
  (∀ t, t ∈ inTys NI → getElementType t = k) ∧
  (∀ t, t ∈ outTys NI → getElementType t = k).

Definition allShareOneOf (NI : NodeInfo) (allowed : list ElemKind) : Prop :=
  ∃ k, k ∈ allowed ∧ allHave NI k.

(** A condition that evaluates to a boolean, which is [true] exactly when
    [P] holds. *)
Definition decides (cond : option bool) (P : Prop) : Prop :=
  ∃ b, cond = Some b ∧ (b = true ↔ P).

Section Table.

(** Values of the generated slot-index constants. *)
Variable idx : Slot -> nat.

(** [Type::isQuantizedType], declared in a header. *)
Variable isQuantizedType : Ty -> bool.

Definition getInTy (NI : NodeInfo) (s : Slot) : option Ty :=
  inTys NI !! idx s.

Definition getInElemTy (NI : NodeInfo) (s : Slot) : option ElemKind :=
  getElementType <$> inTys NI !! idx s.

Definition getOutElemTy (NI : NodeInfo) (s : Slot) : option ElemKind :=
  getElementType <$> outTys NI !! idx s.

(** The slots of [tys] whose position is not in [ignore]. *)
Fixpoint checked (ignore : list nat) (pos : nat) (tys : list Ty) : list Ty :=
  match tys with
  | [] => []
  | t :: rest =>
      if bool_decide (pos ∈ ignore)
      then checked ignore (S pos) rest
      else t :: checked ignore (S pos) rest
  end.

(** Modelled from the spec: [NodeInfo::allInputsAndOutputsHaveSameElemKind]
    is defined outside these translation units.  Following the operator
    table's wording ("when all inputs and outputs share that kind"), it
    holds when one of the allowed element kinds is the element kind of
    every input and output slot, the slots listed in [ignoreIn] and
    [ignoreOut] excepted. *)
Definition allInputsAndOutputsHaveSameElemKind (NI : NodeInfo)
    (allowedElemKinds : list ElemKind)
    (ignoreIn ignoreOut : list Slot) : option bool :=
  let tys := checked (idx <$> ignoreIn) 0 (inTys NI) ++
             checked (idx <$> ignoreOut) 0 (outTys NI) in
  Some (existsb
          (fun k => forallb (fun t => bool_decide (getElementType t = k)) tys)
          allowedElemKinds).

Local Notation "'allSame'" := allInputsAndOutputsHaveSameElemKind.

(** [CPUBackend::isOpSupported]. *)
Definition isOpSupported (NI : NodeInfo) : option bool :=
  match getKind NI with
  | BatchedReduceMinNodeKind =>
      allSame NI [FloatTy; Int32ITy; Int64ITy] [] []

  | AddNodeKind
  | MulNodeKind =>
      allSame NI [FloatTy; Int8QTy; Int32ITy; Int64ITy] [] []

  | SubNodeKind
  | MaxNodeKind
  | MinNodeKind
  | CPUMaxSplatNodeKind
  | BatchedReduceAddNodeKind
  | MatMulNodeKind
  | AvgPoolNodeKind =>
      allSame NI [FloatTy; Int8QTy] [] []

  | AdaptiveAvgPoolNodeKind =>
      allSame NI [FloatTy] [] []

  | MaxPoolNodeKind =>
      allSame NI [FloatTy; Int8QTy] [] [MaxPoolNode_ArgmaxIdx] &&&
      (getOutElemTy NI MaxPoolNode_ArgmaxIdx ==? Int64ITy |||
       getOutElemTy NI MaxPoolNode_ArgmaxIdx ==? Int32ITy)

  | ArgMaxNodeKind
  | ArgMinNodeKind =>
      allSame NI [FloatTy; Int8QTy] [] [ArgMaxNode_ResultIdx] &&&
      (getOutElemTy NI ArgMaxNode_ResultIdx ==? Int64ITy |||
       getOutElemTy NI ArgMaxNode_ResultIdx ==? Int32ITy)

  | ResizeNearestNodeKind
  | ResizeBilinearNodeKind =>
      allSame NI [FloatTy; Int8QTy; Int32QTy; Int32ITy; Int64ITy] [] []

  | SaveNodeKind
  | ReshapeNodeKind =>
      (* These are implemented via a Copy Instruction. *)
      allSame NI [FloatTy; Int8QTy; Int32QTy; Int32ITy; Int64ITy; BoolTy] [] []

  | InsertTensorNodeKind
  | ConcatNodeKind
  | SplatNodeKind
  | TouchNodeKind =>
      allSame NI [FloatTy; Int8QTy; Int64ITy; Int32ITy; BoolTy] [] []

  | SliceNodeKind =>
      allSame NI [FloatTy; Int8QTy; Int32QTy; Int32ITy; Int64ITy] [] []

  | SpaceToDepthNodeKind
  | DivNodeKind =>
      allSame NI [FloatTy; Int8QTy; Int64ITy; Int32ITy] [] []

  | TransposeNodeKind =>
      allSame NI [FloatTy; Int8QTy; Int64ITy; BoolTy] [] []

  | FlipNodeKind =>
      allSame NI [FloatTy; Int8QTy; Int16QTy; Int32QTy; Int32ITy; Int64ITy;
                  BoolTy] [] []

  | SparseLengthsSumNodeKind =>
      allSame NI [FloatTy]
        [SparseLengthsSumNode_IndicesIdx; SparseLengthsSumNode_LengthsIdx] [] &&&
      (getInElemTy NI SparseLengthsSumNode_IndicesIdx ==? Int64ITy |||
       getInElemTy NI SparseLengthsSumNode_IndicesIdx ==? Int32ITy) &&&
      (getInElemTy NI SparseLengthsSumNode_LengthsIdx ==? Int32ITy)

  | SparseLengthsWeightedSumNodeKind =>
      allSame NI [FloatTy]
        [SparseLengthsWeightedSumNode_IndicesIdx;
         SparseLengthsWeightedSumNode_LengthsIdx] [] &&&
      (getInElemTy NI SparseLengthsWeightedSumNode_IndicesIdx ==? Int64ITy |||
       getInElemTy NI SparseLengthsWeightedSumNode_IndicesIdx ==? Int32ITy) &&&
      (getInElemTy NI SparseLengthsWeightedSumNode_LengthsIdx ==? Int32ITy)

  | EmbeddingBagNodeKind =>
      allSame NI [FloatTy]
        [EmbeddingBagNode_IndicesIdx; EmbeddingBagNode_OffsetsIdx] [] &&&
      (getInElemTy NI EmbeddingBagNode_IndicesIdx ==? Int64ITy) &&&
      (getInElemTy NI EmbeddingBagNode_OffsetsIdx ==? Int64ITy)

  | SparseLengthsWeightedSumGradNodeKind =>
      (* GradOfInputNamedIndicesIdx and GradOfInputNamedLengthsIdx do not
         need to be checked because they are not used. *)
      allSame NI [FloatTy]
        [SparseLengthsWeightedSumGradNode_IndicesIdx;
         SparseLengthsWeightedSumGradNode_LengthsIdx]
        [SparseLengthsWeightedSumGradNode_GradOfInputNamedIndicesIdx;
         SparseLengthsWeightedSumGradNode_GradOfInputNamedLengthsIdx] &&&
      (getInElemTy NI SparseLengthsWeightedSumGradNode_IndicesIdx ==? Int64ITy |||
       getInElemTy NI SparseLengthsWeightedSumGradNode_IndicesIdx ==? Int32ITy) &&&
      (getInElemTy NI SparseLengthsWeightedSumGradNode_LengthsIdx ==? Int32ITy)

  | RowwiseQuantizedSparseLengthsWeightedSumNodeKind =>
      (getInElemTy NI RowwiseQuantizedSparseLengthsWeightedSumNode_DataIdx
         ==? UInt8QTy) &&&
      (getInElemTy NI RowwiseQuantizedSparseLengthsWeightedSumNode_ScalesIdx
         ==? FloatTy) &&&
      (getInElemTy NI RowwiseQuantizedSparseLengthsWeightedSumNode_OffsetsIdx
         ==? FloatTy) &&&
      (getInElemTy NI RowwiseQuantizedSparseLengthsWeightedSumNode_WeightsIdx
         ==? FloatTy) &&&
      (getInElemTy NI RowwiseQuantizedSparseLengthsWeightedSumNode_IndicesIdx
         ==? Int64ITy |||
       getInElemTy NI RowwiseQuantizedSparseLengthsWeightedSumNode_IndicesIdx
         ==? Int32ITy) &&&
      (getInElemTy NI RowwiseQuantizedSparseLengthsWeightedSumNode_LengthsIdx
         ==? Int32ITy) &&&
      (getOutElemTy NI RowwiseQuantizedSparseLengthsWeightedSumNode_ResultIdx
         ==? FloatTy)

  | LengthsRangeFillNodeKind
  | LengthsToRangesNodeKind =>
      allSame NI [Int32ITy] [] []

  | IntLookupTableNodeKind
  | RescaleQuantizedNodeKind =>
      allSame NI [Int8QTy] [] []

  | PowNodeKind
  | AvgPoolGradNodeKind
  | QuantizationProfileNodeKind
  | CPUConvDKKC8NodeKind
  | LocalResponseNormalizationNodeKind
  | LocalResponseNormalizationGradNodeKind
  | LogNodeKind
  | TanhNodeKind
  | SigmoidNodeKind
  | ExpNodeKind =>
      allSame NI [FloatTy] [] []

  | ModuloNodeKind =>
      allSame NI [Int32ITy; Int64ITy] [] []

  | MaxPoolGradNodeKind =>
      allSame NI [FloatTy]
        [MaxPoolGradNode_OriginalOutputForArgmaxIdx;
         MaxPoolGradNode_GradOfOriginalOutputNamedArgmaxIdx] [] &&&
      (getInElemTy NI MaxPoolGradNode_OriginalOutputForArgmaxIdx ==? Int64ITy |||
       getInElemTy NI MaxPoolGradNode_OriginalOutputForArgmaxIdx ==? Int32ITy) &&&
      (getInElemTy NI MaxPoolGradNode_GradOfOriginalOutputNamedArgmaxIdx
         ==? Int64ITy |||
       getInElemTy NI MaxPoolGradNode_GradOfOriginalOutputNamedArgmaxIdx
         ==? Int32ITy)

  | ConvolutionNodeKind =>
      match getInTy NI ConvolutionNode_InputIdx with
      | None => None
      | Some inputTy =>
          if negb (isQuantizedType inputTy)
          then allSame NI [FloatTy] [] []
          else
            allSame NI [Int8QTy] [ConvolutionNode_BiasIdx] [] &&&
            (getInElemTy NI ConvolutionNode_BiasIdx ==? Int8QTy |||
             getInElemTy NI ConvolutionNode_BiasIdx ==? Int32QTy)
      end

  | ChannelwiseQuantizedConvolutionNodeKind =>
      (getInElemTy NI ChannelwiseQuantizedConvolutionNode_InputIdx
         ==? Int8QTy) &&&
      (getInElemTy NI ChannelwiseQuantizedConvolutionNode_FilterIdx
         ==? Int8QTy) &&&
      ((getInElemTy NI ChannelwiseQuantizedConvolutionNode_BiasIdx
          ==? Int8QTy) |||
       (getInElemTy NI ChannelwiseQuantizedConvolutionNode_BiasIdx
          ==? Int32QTy)) &&&
      (getInElemTy NI ChannelwiseQuantizedConvolutionNode_FilterScalesIdx
         ==? FloatTy) &&&
      (getInElemTy NI ChannelwiseQuantizedConvolutionNode_FilterOffsetsIdx
         ==? Int32ITy) &&&
      (getInElemTy NI ChannelwiseQuantizedConvolutionNode_BiasScalesIdx
         ==? FloatTy) &&&
      (getInElemTy NI ChannelwiseQuantizedConvolutionNode_BiasOffsetsIdx
         ==? Int32ITy) &&&
      (getOutElemTy NI ChannelwiseQuantizedConvolutionNode_ResultIdx
         ==? Int8QTy)

  | ConvTransposeNodeKind =>
      (* TODO - not quantized support yet in libjit. *)
      allSame NI [FloatTy] [] []

  | BatchedAddNodeKind =>
      match getInTy NI BatchedAddNode_BatchIdx with
      | None => None
      | Some batchTy =>
          if negb (isQuantizedType batchTy)
          then allSame NI [FloatTy] [] []
          else
            (* Allow for Int8QTy or Int32QTy for the Slice input. *)
            allSame NI [Int8QTy] [BatchedAddNode_SliceIdx] [] &&&
            ((getInElemTy NI BatchedAddNode_SliceIdx ==? Int8QTy) |||
             (getInElemTy NI BatchedAddNode_SliceIdx ==? Int32QTy))
      end

  | GatherNodeKind =>
      allSame NI [FloatTy; Int8QTy; Int64ITy; Int32ITy]
        [GatherNode_IndicesIdx] [] &&&
      ((getInElemTy NI GatherNode_IndicesIdx ==? Int32ITy) |||
       (getInElemTy NI GatherNode_IndicesIdx ==? Int64ITy))

  | GatherRangesNodeKind =>
      allSame NI [FloatTy; Int8QTy; Int64ITy; Int32ITy]
        [GatherRangesNode_RangesIdx] [GatherRangesNode_LengthsIdx] &&&
      (match getInElemTy NI GatherRangesNode_RangesIdx with
       | None => None
       | Some ranges => getOutElemTy NI GatherRangesNode_LengthsIdx ==? ranges
       end &&&
       ((getOutElemTy NI GatherRangesNode_LengthsIdx ==? Int32ITy) |||
        (getOutElemTy NI GatherRangesNode_LengthsIdx ==? Int64ITy)))

  | ScatterDataNodeKind =>
      allSame NI [FloatTy; Int8QTy] [ScatterDataNode_IndicesIdx] [] &&&
      (getInElemTy NI ScatterDataNode_IndicesIdx ==? Int64ITy |||
       getInElemTy NI ScatterDataNode_IndicesIdx ==? Int32ITy)

  | SelectNodeKind =>
      allSame NI [FloatTy; Int8QTy; Int32ITy] [SelectNode_CondIdx] [] &&&
      (getInElemTy NI SelectNode_CondIdx ==? BoolTy)

  | NotNodeKind
  | AndNodeKind
  | OrNodeKind
  | XorNodeKind =>
      allSame NI [BoolTy] [] []

  | AbsNodeKind
  | NegNodeKind
  | FloorNodeKind
  | CeilNodeKind
  | RoundNodeKind
  | SqrtNodeKind
  | RsqrtNodeKind
  | ReciprocalNodeKind
  | SinNodeKind
  | CosNodeKind =>
      allSame NI [FloatTy] [] []

  | CmpEQNodeKind
  | CmpNEQNodeKind
  | CmpLTNodeKind
  | CmpLTENodeKind =>
      allSame NI [FloatTy; Int8QTy; Int32ITy; Int64ITy]
        [] [CmpEQNode_ResultIdx] &&&
      (getOutElemTy NI CmpEQNode_ResultIdx ==? BoolTy)

  | IsNaNNodeKind =>
      allSame NI [FloatTy] [] [IsNaNNode_ResultIdx] &&&
      (getOutElemTy NI IsNaNNode_ResultIdx ==? BoolTy)

  | TopKNodeKind =>
      allSame NI [FloatTy; Int8QTy] [] [TopKNode_IndicesIdx] &&&
      (getOutElemTy NI TopKNode_IndicesIdx ==? Int64ITy |||
       getOutElemTy NI TopKNode_IndicesIdx ==? Int32ITy)

  | QuantizeNodeKind =>
      (getInElemTy NI QuantizeNode_InputIdx ==? FloatTy) &&&
      ((getOutElemTy NI QuantizeNode_ResultIdx ==? Int8QTy) |||
       (getOutElemTy NI QuantizeNode_ResultIdx ==? Int32QTy))

  | DequantizeNodeKind =>
      (getInElemTy NI DequantizeNode_InputIdx ==? Int8QTy) &&&
      (getOutElemTy NI DequantizeNode_ResultIdx ==? FloatTy)

  | SoftMaxNodeKind =>
      allSame NI [FloatTy] [SoftMaxNode_SelectedIdx] [] &&&
      (getInElemTy NI SoftMaxNode_SelectedIdx ==? Int64ITy |||
       getInElemTy NI SoftMaxNode_SelectedIdx ==? Int32ITy)

  | CrossEntropyLossNodeKind =>
      allSame NI [FloatTy] [CrossEntropyLossNode_LabelsIdx] [] &&&
      (getInElemTy NI CrossEntropyLossNode_LabelsIdx ==? Int64ITy |||
       getInElemTy NI CrossEntropyLossNode_LabelsIdx ==? Int32ITy)

  | LengthsSumNodeKind =>
      allSame NI [FloatTy] [LengthsSumNode_LengthsIdx] [] &&&
      (getInElemTy NI LengthsSumNode_LengthsIdx ==? Int32ITy)

  | EmbeddingBagByteRowwiseOffsetsNodeKind =>
      (getInElemTy NI EmbeddingBagByteRowwiseOffsetsNode_DataIdx
         ==? UInt8FusedQTy) &&&
      (getInElemTy NI EmbeddingBagByteRowwiseOffsetsNode_WeightsIdx
         ==? FloatTy) &&&
      (getInElemTy NI EmbeddingBagByteRowwiseOffsetsNode_IndicesIdx
         ==? Int64ITy) &&&
      (getInElemTy NI EmbeddingBagByteRowwiseOffsetsNode_OffsetsIdx
         ==? Int64ITy) &&&
      (getOutElemTy NI EmbeddingBagByteRowwiseOffsetsNode_ResultIdx
         ==? FloatTy)

  | FusedRowwiseQuantizedSparseLengthsWeightedSumNodeKind =>
      (getInElemTy NI FusedRowwiseQuantizedSparseLengthsWeightedSumNode_DataIdx
         ==? UInt8FusedQTy) &&&
      (getInElemTy NI FusedRowwiseQuantizedSparseLengthsWeightedSumNode_WeightsIdx
         ==? FloatTy) &&&
      ((getInElemTy NI
          FusedRowwiseQuantizedSparseLengthsWeightedSumNode_IndicesIdx
          ==? Int64ITy |||
        getInElemTy NI
          FusedRowwiseQuantizedSparseLengthsWeightedSumNode_IndicesIdx
          ==? Int32ITy)) &&&
      (getInElemTy NI FusedRowwiseQuantizedSparseLengthsWeightedSumNode_LengthsIdx
         ==? Int32ITy) &&&
      (getOutElemTy NI FusedRowwiseQuantizedSparseLengthsWeightedSumNode_ResultIdx
         ==? FloatTy)

  | RowwiseQuantizedFullyConnectedNodeKind =>
      (getInElemTy NI RowwiseQuantizedFullyConnectedNode_InputIdx
         ==? Int8QTy) &&&
      (getInElemTy NI RowwiseQuantizedFullyConnectedNode_WeightsIdx
         ==? Int8QTy) &&&
      (getInElemTy NI RowwiseQuantizedFullyConnectedNode_ScalesIdx
         ==? FloatTy) &&&
      (getInElemTy NI RowwiseQuantizedFullyConnectedNode_OffsetsIdx
         ==? Int32ITy) &&&
      (getInElemTy NI RowwiseQuantizedFullyConnectedNode_BiasIdx
         ==? Int8QTy |||
       getInElemTy NI RowwiseQuantizedFullyConnectedNode_BiasIdx
         ==? Int32QTy) &&&
      (getOutElemTy NI RowwiseQuantizedFullyConnectedNode_ResultIdx
         ==? Int8QTy)

  | SparseToDenseNodeKind =>
      allSame NI [FloatTy] [SparseToDenseNode_IndicesIdx] [] &&&
      (getInElemTy NI SparseToDenseNode_IndicesIdx ==? Int64ITy |||
       getInElemTy NI SparseToDenseNode_IndicesIdx ==? Int32ITy)

  | SoftMaxGradNodeKind =>
      allSame NI [FloatTy] [SoftMaxGradNode_SelectedIdx]
        [SoftMaxGradNode_GradOfInputNamedSelectedIdx] &&&
      (getInElemTy NI SoftMaxGradNode_SelectedIdx ==? Int64ITy |||
       getInElemTy NI SoftMaxGradNode_SelectedIdx ==? Int32ITy)

  | ConvolutionGradNodeKind =>
      allSame NI [FloatTy] [] [ConvolutionGradNode_GradOfInputNamedInputIdx]

  | CrossEntropyLossGradNodeKind =>
      allSame NI [FloatTy] [CrossEntropyLossGradNode_LabelsIdx]
        [CrossEntropyLossGradNode_GradOfInputNamedLabelsIdx] &&&
      (getInElemTy NI CrossEntropyLossGradNode_LabelsIdx ==? Int64ITy) &&&
      (getOutElemTy NI CrossEntropyLossGradNode_GradOfInputNamedLabelsIdx
         ==? Int64ITy)

  | TraceEventNodeKind =>
      getInElemTy NI TraceEventNode_DataIdx ==? Int64ITy

  | NonMaxSuppressionNodeKind =>
      getInElemTy NI NonMaxSuppressionNode_BoxesIdx ==? FloatTy &&&
      getInElemTy NI NonMaxSuppressionNode_ScoresIdx ==? FloatTy &&&
      (getOutElemTy NI NonMaxSuppressionNode_IndicesIdx ==? Int32ITy |||
       getOutElemTy NI NonMaxSuppressionNode_IndicesIdx ==? Int64ITy) &&&
      (getOutElemTy NI NonMaxSuppressionNode_NumberOfSelectedIndicesIdx
         ==? Int32ITy |||
       getOutElemTy NI NonMaxSuppressionNode_NumberOfSelectedIndicesIdx
         ==? Int64ITy)

  | AudioSpectrogramNodeKind =>
      getInElemTy NI AudioSpectrogramNode_InputIdx ==? FloatTy &&&
      getOutElemTy NI AudioSpectrogramNode_SpectrogramIdx ==? FloatTy

  | MFCCNodeKind =>
      getInElemTy NI MFCCNode_SpectrogramIdx ==? FloatTy &&&
      getOutElemTy NI MFCCNode_CoefficientsIdx ==? FloatTy

  | ConvertToNodeKind =>
      ((getInElemTy NI ConvertToNode_InputIdx ==? Int32ITy) &&&
       (getOutElemTy NI ConvertToNode_ResultIdx ==? FloatTy)) |||
      ((getInElemTy NI ConvertToNode_InputIdx ==? BoolTy) &&&
       (getOutElemTy NI ConvertToNode_ResultIdx ==? FloatTy)) |||
      ((getInElemTy NI ConvertToNode_InputIdx ==? Int64ITy) &&&
       (getOutElemTy NI ConvertToNode_ResultIdx ==? Int32ITy)) |||
      ((getInElemTy NI ConvertToNode_InputIdx ==? Int32ITy) &&&
       (getOutElemTy NI ConvertToNode_ResultIdx ==? Int64ITy))

  | _ => Some false
  end.

(** The case labels of the switch in [isOpSupported]. *)
Definition switchKinds : list Kind :=
  [ BatchedReduceMinNodeKind; AddNodeKind; MulNodeKind; SubNodeKind;
    MaxNodeKind; MinNodeKind; CPUMaxSplatNodeKind; BatchedReduceAddNodeKind;
    MatMulNodeKind; AvgPoolNodeKind; AdaptiveAvgPoolNodeKind; MaxPoolNodeKind;
    ArgMaxNodeKind; ArgMinNodeKind; ResizeNearestNodeKind;
    ResizeBilinearNodeKind; SaveNodeKind; ReshapeNodeKind;
    InsertTensorNodeKind; ConcatNodeKind; SplatNodeKind; TouchNodeKind;
    SliceNodeKind; SpaceToDepthNodeKind; DivNodeKind; TransposeNodeKind;
    FlipNodeKind; SparseLengthsSumNodeKind; SparseLengthsWeightedSumNodeKind;
    EmbeddingBagNodeKind; SparseLengthsWeightedSumGradNodeKind;
    RowwiseQuantizedSparseLengthsWeightedSumNodeKind;
    LengthsRangeFillNodeKind; LengthsToRangesNodeKind; IntLookupTableNodeKind;
    RescaleQuantizedNodeKind; PowNodeKind; AvgPoolGradNodeKind;
    QuantizationProfileNodeKind; CPUConvDKKC8NodeKind;
    LocalResponseNormalizationNodeKind;
    LocalResponseNormalizationGradNodeKind; LogNodeKind; TanhNodeKind;
    SigmoidNodeKind; ExpNodeKind; ModuloNodeKind; MaxPoolGradNodeKind;
    ConvolutionNodeKind; ChannelwiseQuantizedConvolutionNodeKind;
    ConvTransposeNodeKind; BatchedAddNodeKind; GatherNodeKind;
    GatherRangesNodeKind; ScatterDataNodeKind; SelectNodeKind; NotNodeKind;
    AndNodeKind; OrNodeKind; XorNodeKind; AbsNodeKind; NegNodeKind;
    FloorNodeKind; CeilNodeKind; RoundNodeKind; SqrtNodeKind; RsqrtNodeKind;
    ReciprocalNodeKind; SinNodeKind; CosNodeKind; CmpEQNodeKind;
    CmpNEQNodeKind; CmpLTNodeKind; CmpLTENodeKind; IsNaNNodeKind;
    TopKNodeKind; QuantizeNodeKind; DequantizeNodeKind; SoftMaxNodeKind;
    CrossEntropyLossNodeKind; LengthsSumNodeKind;
    EmbeddingBagByteRowwiseOffsetsNodeKind;
    FusedRowwiseQuantizedSparseLengthsWeightedSumNodeKind;
    RowwiseQuantizedFullyConnectedNodeKind; SparseToDenseNodeKind;
    SoftMaxGradNodeKind; ConvolutionGradNodeKind;
    CrossEntropyLossGradNodeKind; TraceEventNodeKind;
    NonMaxSuppressionNodeKind; AudioSpectrogramNodeKind; MFCCNodeKind;
    ConvertToNodeKind ].

(** [CPUBackend::shouldLower], on the node's kind. *)
Definition shouldLower (k : Kind) : bool :=
  match k with
  | ConvolutionNodeKind
  | SparseLengthsSumNodeKind => false
  | _ => true
  end.

End Table.


(** [CPUBackend::canDoIndexTypeDemotion]: the answer, and the field
    [precisionModeKindSet] of the [PrecisionConfiguration] it is given
    after the call. *)
Definition canDoIndexTypeDemotion (fromTy toTy : ElemKind)
    (precisionModeKindSet : listset Kind) : bool * listset Kind :=
  let set := {[EmbeddingBagNodeKind]} ∪ precisionModeKindSet in
  let set := {[EmbeddingBagByteRowwiseOffsetsNodeKind]} ∪ set in
  let set := {[FusedRowwiseQuantizedSparseLengthsSumNodeKind]} ∪ set in
  let set :=
    {[FusedRowwiseQuantizedSparseLengthsWeightedSumNodeKind]} ∪ set in
  let set := {[SparseToDenseMaskNodeKind]} ∪ set in
  (bool_decide (fromTy = Int64ITy) && bool_decide (toTy = Int32ITy), set).

End CPUBackend.

(* ===================================================================== *)
(** ** The host manager ([lib/Runtime/HostManager/HostManager.cpp]) *)
(* ===================================================================== *)

Module Runtime.

(** *** Errors *)

(** The error codes the host manager raises itself; [UNKNOWN] is the code of
    an error made from a message alone ([RETURN_ERR_IF_NOT]) and
    [OTHER_CODE] stands for the codes of errors coming from elsewhere. *)
Inductive ErrorCode : Set :=
  | UNKNOWN
  | RUNTIME_ERROR
  | RUNTIME_NET_NOT_FOUND
  | RUNTIME_NET_BUSY
  | RUNTIME_REQUEST_REFUSED
  | OTHER_CODE (tag : nat).

Inductive Error : Set :=
  | success
  | MAKE_ERR (code : ErrorCode) (msg : string).

#[export] Instance ErrorCode_eq_dec : EqDecision ErrorCode.
Proof. solve_decision. Defined.

#[export] Instance Error_eq_dec : EqDecision Error.
Proof. solve_decision. Defined.

(** [if (err)]: an [Error] converts to [true] when it holds an error. *)
Definition isErr (e : Error) : bool :=
  match e with
  | success => false
  | MAKE_ERR _ _ => true
  end.

(** Modelled from the spec: [OneErrOnly] is a helper of the error library;
    "first error wins, remaining are logged and suppressed". *)
Definition OneErrOnly_set (held new : Error) : Error :=
  if isErr held then held else new.

(** [Expected<T>]: a value, or an error (which is never [success]). *)
Inductive Expected (T : Type) : Type :=
  | Value (v : T)
  | Failure (code : ErrorCode) (msg : string).
Arguments Value {T} v.
Arguments Failure {T} code msg.

(** *** Data model *)

Definition DeviceIDTy : Set := N.
Definition RunIdentifierTy : Set := N.

Record HostConfig : Set := mkHostConfig {
  executorThreads : N;
  maxActiveRequests : Z;
  maxQueueSize : Z
}.

Record DeviceConfig : Set := mkDeviceConfig {
  cfgBackendName : string;
  cfgName : option string            (* [hasName()] *)
}.

(** What the host manager observes of a [DeviceManager]. *)
Record DeviceManager : Set := mkDeviceManager {
  getDeviceConfig : DeviceConfig;
  getBackendName : string;
  getMaximumMemory : Z;              (* uint64_t *)
  getAvailableMemory : Z;            (* uint64_t *)
  dmInit : Error;                    (* result of [init()] *)
  dmStop : Error                     (* result of [stop()] *)
}.

Record DAGNode : Set := mkDAGNode {
  name : string;
  backendName : string;
  deviceRuntimeInfos : list DeviceIDTy   (* keys, in iteration order *)
}.

#[export] Instance DAGNode_eq_dec : EqDecision DAGNode.
Proof. solve_decision. Defined.

(** [root] is an owning pointer and may be null. *)
Record DAG : Set := mkDAG {
  root : option DAGNode;
  nodes : list DAGNode
}.

Definition DAGListTy : Set := list DAG.

(** A module is seen through the names of its functions. *)
Record Module : Set := mkModule { getFunctions : list string }.

Record NetworkData : Set := mkNetworkData {
  dag : DAG;
  module : option Module;            (* shared pointer, null by default *)
  refcount : Z
}.

(** A default-constructed [NetworkData]. *)
Definition emptyNetworkData : NetworkData :=
  {| dag := {| root := None; nodes := [] |}; module := None; refcount := 0 |}.

Definition ExecutionContext : Set := N.   (* opaque payload *)
Definition ResultCBTy : Set := N.         (* identity of the callback *)

Record InferRequest : Set := mkInferRequest {
  networkName : string;
  context : ExecutionContext;
  callback : ResultCBTy;
  priority : Z;
  requestID : RunIdentifierTy;
  startTime : Z
}.

(** Requests made of the provisioner and of the executor.  Both components
    are defined elsewhere; the host manager's state records what it asked
    of the current instance of each. *)
Inductive ProvisionerCall : Set :=
  | provision (nodeList : DAGListTy)
  | evictFunction (fname : string) (device : DeviceIDTy)
  | removeFunction (fname : string).

Inductive ExecutorCall : Set :=
  | createPool (rootNode : option DAGNode) (poolSize : Z)
      (enableP2P enableDRT : bool)
  | freePool (rootNode : option DAGNode)
  | run (rootNode : option DAGNode) (runID : RunIdentifierTy)
  | shutdown.

(** Modelled from the spec: the executor's pools are kept by code that is
    defined elsewhere.  "createPool(rootNode, poolSize, enableP2P,
    enableDRT): pre-allocate poolSize reusable execution states for the
    given network"; "freePool(rootNode): release states".  The size of the
    pool of a root is the [poolSize] of the latest [createPool] for it, as
    long as no [freePool] came after. *)
Definition poolSizeOf (calls : list ExecutorCall) (rootNode : option DAGNode)
    : option Z :=
  foldl (fun pool call =>
           match call with
           | createPool r poolSize _ _ =>
               if decide (r = rootNode) then Some poolSize else pool
           | freePool r => if decide (r = rootNode) then None else pool
           | _ => pool
           end)
        None calls.

(** The three memory counters are named by string constants declared in a
    header; they are taken as three distinct keys.  [Named] keys are the
    ones the host manager builds from strings. *)
Inductive CounterKey : Set :=
  | kDeviceMemoryUsed
  | kDeviceMemoryAvailable
  | kDeviceMemoryMax
  | Named (key : string).

#[export] Instance CounterKey_eq_dec : EqDecision CounterKey.
Proof. solve_decision. Defined.

Record HostManager : Type := mkHostManager {
  config_ : HostConfig;
  networks_ : gmap string NetworkData;
  processingNetworks_ : gset string;
  devices_ : gmap N DeviceManager;
  inferQueue_ : list InferRequest;
  activeRequestCount_ : Z;
  totalRequestCount_ : N;
  statsExporterRegistry_ : CounterKey -> Z;
  provisioner_ : list ProvisionerCall;      (* oldest first *)
  executor_ : list ExecutorCall;            (* oldest first *)
  provisionerSet : bool;                    (* [provisioner_ != nullptr] *)
  executorSet : bool                        (* [executor_ != nullptr] *)
}.

(** Field updates. *)
Definition with_networks (f : gmap string NetworkData -> gmap string NetworkData)
    (hm : HostManager) : HostManager :=
  {| config_ := config_ hm; networks_ := f (networks_ hm);
     processingNetworks_ := processingNetworks_ hm; devices_ := devices_ hm;
     inferQueue_ := inferQueue_ hm;
     activeRequestCount_ := activeRequestCount_ hm;
     totalRequestCount_ := totalRequestCount_ hm;
     statsExporterRegistry_ := statsExporterRegistry_ hm;
     provisioner_ := provisioner_ hm; executor_ := executor_ hm;
     provisionerSet := provisionerSet hm; executorSet := executorSet hm |}.

Definition with_processing (f : gset string -> gset string)
    (hm : HostManager) : HostManager :=
  {| config_ := config_ hm; networks_ := networks_ hm;
     processingNetworks_ := f (processingNetworks_ hm); devices_ := devices_ hm;
     inferQueue_ := inferQueue_ hm;
     activeRequestCount_ := activeRequestCount_ hm;
     totalRequestCount_ := totalRequestCount_ hm;
     statsExporterRegistry_ := statsExporterRegistry_ hm;
     provisioner_ := provisioner_ hm; executor_ := executor_ hm;
     provisionerSet := provisionerSet hm; executorSet := executorSet hm |}.

Definition with_devices (f : gmap N DeviceManager -> gmap N DeviceManager)
    (hm : HostManager) : HostManager :=
  {| config_ := config_ hm; networks_ := networks_ hm;
     processingNetworks_ := processingNetworks_ hm; devices_ := f (devices_ hm);
     inferQueue_ := inferQueue_ hm;
     activeRequestCount_ := activeRequestCount_ hm;
     totalRequestCount_ := totalRequestCount_ hm;
     statsExporterRegistry_ := statsExporterRegistry_ hm;
     provisioner_ := provisioner_ hm; executor_ := executor_ hm;
     provisionerSet := provisionerSet hm; executorSet := executorSet hm |}.

Definition with_queue (f : list InferRequest -> list InferRequest)
    (hm : HostManager) : HostManager :=
  {| config_ := config_ hm; networks_ := networks_ hm;
     processingNetworks_ := processingNetworks_ hm; devices_ := devices_ hm;
     inferQueue_ := f (inferQueue_ hm);
     activeRequestCount_ := activeRequestCount_ hm;
     totalRequestCount_ := totalRequestCount_ hm;
     statsExporterRegistry_ := statsExporterRegistry_ hm;
     provisioner_ := provisioner_ hm; executor_ := executor_ hm;
     provisionerSet := provisionerSet hm; executorSet := executorSet hm |}.

Definition with_active (f : Z -> Z) (hm : HostManager) : HostManager :=
  {| config_ := config_ hm; networks_ := networks_ hm;
     processingNetworks_ := processingNetworks_ hm; devices_ := devices_ hm;
     inferQueue_ := inferQueue_ hm;
     activeRequestCount_ := f (activeRequestCount_ hm);
     totalRequestCount_ := totalRequestCount_ hm;
     statsExporterRegistry_ := statsExporterRegistry_ hm;
     provisioner_ := provisioner_ hm; executor_ := executor_ hm;
     provisionerSet := provisionerSet hm; executorSet := executorSet hm |}.

Definition with_total (f : N -> N) (hm : HostManager) : HostManager :=
  {| config_ := config_ hm; networks_ := networks_ hm;
     processingNetworks_ := processingNetworks_ hm; devices_ := devices_ hm;
     inferQueue_ := inferQueue_ hm;
     activeRequestCount_ := activeRequestCount_ hm;
     totalRequestCount_ := f (totalRequestCount_ hm);
     statsExporterRegistry_ := statsExporterRegistry_ hm;
     provisioner_ := provisioner_ hm; executor_ := executor_ hm;
     provisionerSet := provisionerSet hm; executorSet := executorSet hm |}.

Definition with_stats (f : (CounterKey -> Z) -> CounterKey -> Z)
    (hm : HostManager) : HostManager :=
  {| config_ := config_ hm; networks_ := networks_ hm;
     processingNetworks_ := processingNetworks_ hm; devices_ := devices_ hm;
     inferQueue_ := inferQueue_ hm;
     activeRequestCount_ := activeRequestCount_ hm;
     totalRequestCount_ := totalRequestCount_ hm;
     statsExporterRegistry_ := f (statsExporterRegistry_ hm);
     provisioner_ := provisioner_ hm; executor_ := executor_ hm;
     provisionerSet := provisionerSet hm; executorSet := executorSet hm |}.

Definition with_provisioner (f : list ProvisionerCall -> list ProvisionerCall)
    (hm : HostManager) : HostManager :=
  {| config_ := config_ hm; networks_ := networks_ hm;
     processingNetworks_ := processingNetworks_ hm; devices_ := devices_ hm;
     inferQueue_ := inferQueue_ hm;
     activeRequestCount_ := activeRequestCount_ hm;
     totalRequestCount_ := totalRequestCount_ hm;
     statsExporterRegistry_ := statsExporterRegistry_ hm;
     provisioner_ := f (provisioner_ hm); executor_ := executor_ hm;
     provisionerSet := provisionerSet hm; executorSet := executorSet hm |}.

Definition with_executor (f : list ExecutorCall -> list ExecutorCall)
    (hm : HostManager) : HostManager :=
  {| config_ := config_ hm; networks_ := networks_ hm;
     processingNetworks_ := processingNetworks_ hm; devices_ := devices_ hm;
     inferQueue_ := inferQueue_ hm;
     activeRequestCount_ := activeRequestCount_ hm;
     totalRequestCount_ := totalRequestCount_ hm;
     statsExporterRegistry_ := statsExporterRegistry_ hm;
     provisioner_ := provisioner_ hm; executor_ := f (executor_ hm);
     provisionerSet := provisionerSet hm; executorSet := executorSet hm |}.

(** [provisioner_.reset(new Provisioner(devices_))] and
    [executor_.reset(new ThreadPoolExecutor(...))]: a new instance, on which
    nothing has been called yet. *)
Definition resetProvisioner (hm : HostManager) : HostManager :=
  {| config_ := config_ hm; networks_ := networks_ hm;
     processingNetworks_ := processingNetworks_ hm; devices_ := devices_ hm;
     inferQueue_ := inferQueue_ hm;
     activeRequestCount_ := activeRequestCount_ hm;
     totalRequestCount_ := totalRequestCount_ hm;
     statsExporterRegistry_ := statsExporterRegistry_ hm;
     provisioner_ := []; executor_ := executor_ hm;
     provisionerSet := true; executorSet := executorSet hm |}.

Definition resetExecutor (hm : HostManager) : HostManager :=
  {| config_ := config_ hm; networks_ := networks_ hm;
     processingNetworks_ := processingNetworks_ hm; devices_ := devices_ hm;
     inferQueue_ := inferQueue_ hm;
     activeRequestCount_ := activeRequestCount_ hm;
     totalRequestCount_ := totalRequestCount_ hm;
     statsExporterRegistry_ := statsExporterRegistry_ hm;
     provisioner_ := provisioner_ hm; executor_ := [];
     provisionerSet := provisionerSet hm; executorSet := true |}.

(** [HostManager::HostManager(hostConfig)]: the two pointers are null
    until [init] has gone through. *)
Definition newHostManager (hostConfig : HostConfig) : HostManager :=
  {| config_ := hostConfig; networks_ := ∅; processingNetworks_ := ∅;
     devices_ := ∅; inferQueue_ := []; activeRequestCount_ := 0;
     totalRequestCount_ := 0%N; statsExporterRegistry_ := fun _ => 0;
     provisioner_ := []; executor_ := [];
     provisionerSet := false; executorSet := false |}.


(** *** Counters *)

(** [uint64_t] arithmetic wraps around. *)
Definition wrap64 (z : Z) : Z := z mod 2 ^ 64.

Definition setCounter (key : CounterKey) (value : Z)
    (reg : CounterKey -> Z) : CounterKey -> Z :=
  fun k => if bool_decide (k = key) then value else reg k.

Definition incrementCounter (key : CounterKey)
    (reg : CounterKey -> Z) : CounterKey -> Z :=
  fun k => if bool_decide (k = key) then reg k + 1 else reg k.

(** [devices_] is a [DeviceManagerMapTy]; the type is declared in a header
    and is taken to be an ordered map ([std::map]) keyed by the device
    identifier, so that [for (auto &dev : devices_)] visits the device
    managers by ascending identifier. *)
Definition byDeviceID (a b : DeviceIDTy * DeviceManager) : Prop :=
  (a.1 ≤ b.1)%N.

#[export] Instance byDeviceID_dec : RelDecision byDeviceID.
Proof. intros a b. unfold byDeviceID. apply _. Defined.

Definition deviceList (hm : HostManager) : list DeviceManager :=
  (merge_sort byDeviceID (map_to_list (devices_ hm))).*2.

(** [HostManager::exportMemoryCounters]. *)
Definition exportMemoryCounters (hm : HostManager) : HostManager :=
  let '(maxMem, availableMem) :=
    foldl (fun '(maxMem, availableMem) dev =>
             (wrap64 (maxMem + getMaximumMemory dev),
              wrap64 (availableMem + getAvailableMemory dev)))
          (0, 0) (deviceList hm) in
  with_stats (fun reg =>
      setCounter kDeviceMemoryMax maxMem
        (setCounter kDeviceMemoryAvailable availableMem
           (setCounter kDeviceMemoryUsed (wrap64 (maxMem - availableMem)) reg)))
    hm.

(** The sum of a quantity over the devices, in the integers: over a list
    of device managers, and over the entries of [devices_]. *)
Definition total (f : DeviceManager -> Z) (devs : list DeviceManager) : Z :=
  foldr (fun dev acc => f dev + acc) 0 devs.

Definition sumOver (f : DeviceManager -> Z) (devs : gmap N DeviceManager)
    : Z :=
  map_fold (fun _ dev acc => f dev + acc) 0 devs.

(** The balance of the three memory counters: in the arithmetic of
    [uint64_t], and in the integers when the difference does not wrap. *)
Definition balanced (reg : CounterKey -> Z) : Prop :=
  wrap64 (reg kDeviceMemoryUsed + reg kDeviceMemoryAvailable)
    = reg kDeviceMemoryMax ∧
  (reg kDeviceMemoryAvailable ≤ reg kDeviceMemoryMax →
   reg kDeviceMemoryUsed + reg kDeviceMemoryAvailable = reg kDeviceMemoryMax).

(** [HostManager::cleanupAddNetwork]. *)
Definition cleanupAddNetwork (hm : HostManager) (names : list string)
    : HostManager :=
  exportMemoryCounters
    (foldl (fun h nm => with_processing (fun p => p ∖ {[nm]}) h) hm names).

(** *** The surroundings of the host manager *)

Inductive QuantizationMode : Set := QM_None | Quantize | Profile.

#[export] Instance QuantizationMode_eq_dec : EqDecision QuantizationMode.
Proof. solve_decision. Defined.

(** The fields of [CompilationContext] that [addNetwork] reads. *)
Record CompilationContext : Type := mkCompilationContext {
  dumpFinalGraph : bool;
  delayAndRecordConstantModification : bool;   (* optimizationOpts *)
  backendSpecificOpts : gmap string string;    (* backendOpts *)
  backendSpecificNodeInfo_size : N;            (* backendOpts *)
  enableP2P : bool;
  enableDRT : bool;
  quantMode : QuantizationMode;                (* precisionConfig *)
  verboseCompile : bool;
  serializeCompiledDAG : bool;
  skipModuleStrip : bool
}.

Definition with_backendSpecificOpts (opts : gmap string string)
    (cctx : CompilationContext) : CompilationContext :=
  {| dumpFinalGraph := dumpFinalGraph cctx;
     delayAndRecordConstantModification :=
       delayAndRecordConstantModification cctx;
     backendSpecificOpts := opts;
     backendSpecificNodeInfo_size := backendSpecificNodeInfo_size cctx;
     enableP2P := enableP2P cctx; enableDRT := enableDRT cctx;
     quantMode := quantMode cctx; verboseCompile := verboseCompile cctx;
     serializeCompiledDAG := serializeCompiledDAG cctx;
     skipModuleStrip := skipModuleStrip cctx |}.

Record DeviceInfo : Set := mkDeviceInfo {
  availableMemory : Z;
  infoBackendName : string;
  nonSupportedNodes : string;
  supportedNodes : string
}.

(** Everything [HostManager.cpp] calls and does not define: process-level
    options, the device factory, the optimizer, the partitioner, the
    backends, the model writer and the provisioner.  Each is a function of
    what the host manager passes to it; the provisioner also sees the
    devices, whose reported memory it changes. *)
Record Externals : Type := mkExternals {
  GlowEnableP2P : bool;
  GlowEnableDRT : bool;
  loadBackendSpecificOptionsOpt : option string;    (* [None]: option empty *)
  profilingBackend : string;
  deserializeStrStrMapFromYaml : string -> gmap string string;
  createDeviceManager : DeviceConfig -> DeviceManager;
  getParamByName : DeviceManager -> string -> string;
  optimizeFunctionBeforeLowering : string -> CompilationContext -> Error;
  partition :
    Module -> list DeviceInfo -> bool -> Z -> CompilationContext ->
    Expected DAGListTy * Module;
  backendVerify : string -> string -> bool;    (* backend, function *)
  writeONNXModel : string -> DAGListTy -> Error;
  provisionOn :
    gmap N DeviceManager -> DAGListTy -> Module -> CompilationContext ->
    Error * DAGListTy * gmap N DeviceManager;
  evictFunctionOn :
    gmap N DeviceManager -> string -> DeviceIDTy ->
    Error * gmap N DeviceManager;
  removeFunctionOf : list ProvisionerCall -> string -> Error
}.

(** The same surroundings with another partitioner. *)
Definition with_partition
    (p : Module -> list DeviceInfo -> bool -> Z -> CompilationContext ->
         Expected DAGListTy * Module)
    (ext : Externals) : Externals :=
  {| GlowEnableP2P := GlowEnableP2P ext; GlowEnableDRT := GlowEnableDRT ext;
     loadBackendSpecificOptionsOpt := loadBackendSpecificOptionsOpt ext;
     profilingBackend := profilingBackend ext;
     deserializeStrStrMapFromYaml := deserializeStrStrMapFromYaml ext;
     createDeviceManager := createDeviceManager ext;
     getParamByName := getParamByName ext;
     optimizeFunctionBeforeLowering := optimizeFunctionBeforeLowering ext;
     partition := p;
     backendVerify := backendVerify ext;
     writeONNXModel := writeONNXModel ext;
     provisionOn := provisionOn ext;
     evictFunctionOn := evictFunctionOn ext;
     removeFunctionOf := removeFunctionOf ext |}.

(** The same surroundings with another device factory. *)
Definition with_createDeviceManager (f : DeviceConfig -> DeviceManager)
    (ext : Externals) : Externals :=
  {| GlowEnableP2P := GlowEnableP2P ext; GlowEnableDRT := GlowEnableDRT ext;
     loadBackendSpecificOptionsOpt := loadBackendSpecificOptionsOpt ext;
     profilingBackend := profilingBackend ext;
     deserializeStrStrMapFromYaml := deserializeStrStrMapFromYaml ext;
     createDeviceManager := f;
     getParamByName := getParamByName ext;
     optimizeFunctionBeforeLowering := optimizeFunctionBeforeLowering ext;
     partition := partition ext;
     backendVerify := backendVerify ext;
     writeONNXModel := writeONNXModel ext;
     provisionOn := provisionOn ext;
     evictFunctionOn := evictFunctionOn ext;
     removeFunctionOf := removeFunctionOf ext |}.

(** *** A monad for bodies with early returns *)

(** A body either goes on with a value, or returns an [Error] to its caller
    (an early [return], [RETURN_IF_ERR], [RETURN_ERR_IF_NOT]), or runs into
    undefined behaviour (a null pointer is dereferenced) or a failed
    [DCHECK], after which it has no result. *)
Inductive Outcome (A : Type) : Type :=
  | Next (a : A) (hm : HostManager)
  | Return (e : Error) (hm : HostManager)
  | Undefined.
Arguments Next {A} a hm.
Arguments Return {A} e hm.
Arguments Undefined {A}.

Definition M (A : Type) : Type := HostManager -> Outcome A.

Definition ret {A} (a : A) : M A := fun hm => Next a hm.

Definition bind {A B} (m : M A) (k : A -> M B) : M B :=
  fun hm =>
    match m hm with
    | Next a hm' => k a hm'
    | Return e hm' => Return e hm'
    | Undefined => Undefined
    end.

Notation "x <- m ;; k" := (bind m (fun x => k))
  (at level 100, m at next level, right associativity).
Notation "m ;;; k" := (bind m (fun _ => k))
  (at level 100, right associativity).

Definition get : M HostManager := fun hm => Next hm hm.
Definition modify (f : HostManager -> HostManager) : M unit :=
  fun hm => Next tt (f hm).
Definition returnErr {A} (e : Error) : M A := fun hm => Return e hm.
Definition undefined {A} : M A := fun _ => Undefined.

Definition RETURN_IF_ERR (e : Error) : M unit :=
  if isErr e then returnErr e else ret tt.

Definition RETURN_ERR_IF_NOT (cond : bool) (msg : string) : M unit :=
  if cond then ret tt else returnErr (MAKE_ERR UNKNOWN msg).

(** [for (x : xs) body(x)]. *)
Fixpoint forEach {A} (xs : list A) (body : A -> M unit) : M unit :=
  match xs with
  | [] => ret tt
  | x :: rest => body x ;;; forEach rest body
  end.

(** The result of a whole body: the error returned and the state left. *)
Definition runBody (m : M Error) (hm : HostManager)
    : option (Error * HostManager) :=
  match m hm with
  | Next e hm' => Some (e, hm')
  | Return e hm' => Some (e, hm')
  | Undefined => None
  end.

(** Partial correctness of a body: from a state in [P] it goes on in [Q],
    or returns early in [E]. *)
Definition hoare {A} (P : HostManager -> Prop) (m : M A)
    (Q : A -> HostManager -> Prop) (E : Error -> HostManager -> Prop) : Prop :=
  ∀ hm, P hm →
    match m hm with
    | Next a hm' => Q a hm'
    | Return e hm' => E e hm'
    | Undefined => True
    end.

Section HostManager.

Variable ext : Externals.

(** *** init *)

(** [HostManager::init]. *)
Fixpoint initDevices (configs : list DeviceConfig) (deviceCount : N)
    : M unit :=
  match configs with
  | [] => ret tt
  | config :: rest =>
      let config :=
        match cfgName config with
        | Some _ => config
        | None =>
            {| cfgBackendName := cfgBackendName config;
               cfgName := Some ("config" +:+ pretty deviceCount) |}
        end in
      let dev := createDeviceManager ext config in
      modify (with_devices <[deviceCount := dev]>) ;;;
      RETURN_IF_ERR (dmInit dev) ;;;
      initDevices rest (deviceCount + 1)%N
  end.

Definition init (configs : list DeviceConfig) : M Error :=
  initDevices configs 0%N ;;;
  modify resetProvisioner ;;;
  modify resetExecutor ;;;
  modify exportMemoryCounters ;;;
  ret success.

(** *** removeNetwork *)

(** The loop over [nodes] in [removeNetwork]: every device a node is loaded
    on is asked to evict it, then the provisioner drops the function; [err]
    is the [OneErrOnly] accumulator. *)
Definition evictNode (acc : Error * HostManager) (node : DAGNode)
    : Error * HostManager :=
  let '(err, hm) :=
    foldl (fun '(err, hm) device =>
             let '(evictErr, devs) :=
               evictFunctionOn ext (devices_ hm) (name node) device in
             (OneErrOnly_set err evictErr,
              with_provisioner (fun p => p ++ [evictFunction (name node) device])
                (with_devices (fun _ => devs) hm)))
          acc (deviceRuntimeInfos node) in
  (* Also remove compiledFunction from Provisioner. *)
  (OneErrOnly_set err (removeFunctionOf ext (provisioner_ hm) (name node)),
   with_provisioner (fun p => p ++ [removeFunction (name node)]) hm).

(** [HostManager::removeNetwork].  It dereferences [executor_] and
    [provisioner_] for a registered network only, and a network is
    registered by an [addNetwork] that found both set. *)
Definition removeNetwork (networkName : string) (hm : HostManager)
    : Error * HostManager :=
  match networks_ hm !! networkName with
  | None => (success, hm)
  | Some network =>
      if bool_decide (networkName ∈ processingNetworks_ hm) then
        (* Return an error, the network is in an incomplete state likely
           because it is still being added by a different call. *)
        (MAKE_ERR RUNTIME_NET_BUSY
           ("Cannot remove the network " +:+ networkName +:+
            ", as it is currently being modified."), hm)
      else if bool_decide (refcount network ≠ 0) then
        (* Issue an error as there are outstanding runs for the network *)
        (MAKE_ERR RUNTIME_NET_BUSY
           ("Cannot remove the network " +:+ networkName +:+
            ", as there are still outstanding runs"), hm)
      else
        (* Free the pool of executionStates. *)
        let hm := with_executor
                    (fun e => e ++ [freePool (root (dag network))]) hm in
        let '(err, hm) := foldl evictNode (success, hm) (nodes (dag network)) in
        let hm := with_networks (delete networkName) hm in
        (err, exportMemoryCounters hm)
  end.

(** *** clearHost *)

(** The loop [while (networks_.size() != 0) removeNetwork(begin)]; it ends
    early on the first error.  [fuel] bounds the number of rounds; one per
    registered network is enough, since each round erases one or returns. *)
Fixpoint removeAll (fuel : nat) : M unit :=
  match fuel with
  | O => ret tt
  | S fuel =>
      hm <- get ;;
      match map_to_list (networks_ hm) with
      | [] => ret tt
      | (first, _) :: _ =>
          let '(err, hm') := removeNetwork first hm in
          modify (fun _ => hm') ;;;
          RETURN_IF_ERR err ;;;
          removeAll fuel
      end
  end.

(** [HostManager::clearHost].  [executor_] is dereferenced first, and is
    null on a host manager that [init] has not set up; [DCHECK_EQ] ends the
    program when a request is still active (in a build that keeps the
    checks; what a build without them goes on to do is left undefined
    here). *)
Definition clearHost : M Error :=
  (* shutdown the executor, blocking on any current inflight and prevent
     new requests from being serviced. *)
  hm <- get ;;
  (if executorSet hm then modify (with_executor (fun e => e ++ [shutdown]))
   else undefined) ;;;
  hm <- get ;;
  (if bool_decide (activeRequestCount_ hm = 0) then ret tt
   else undefined) ;;;        (* [DCHECK_EQ(activeRequestCount_, 0)] *)
  (* Remove all networks from the host and device(s). *)
  removeAll (size (networks_ hm)) ;;;
  (* Now it's safe to stop the DeviceManagers. *)
  hm <- get ;;
  let errContainer :=
    foldl (fun acc dev => OneErrOnly_set acc (dmStop dev)) success
          (deviceList hm) in
  (* Zero out counters. *)
  modify (with_stats (fun reg =>
            setCounter kDeviceMemoryMax 0
              (setCounter kDeviceMemoryAvailable 0
                 (setCounter kDeviceMemoryUsed 0 reg)))) ;;;
  ret errContainer.

(** *** addNetwork *)

(** Name reservation (first block of [addNetwork], under the exclusive
    [networkLock_]): [names] are the names inserted so far. *)
Fixpoint reserveNames (functions : list string) (names : list string)
    : M (list string) :=
  match functions with
  | [] => ret names
  | fname :: rest =>
      hm <- get ;;
      if bool_decide (is_Some (networks_ hm !! fname)) ||
         bool_decide (fname ∈ processingNetworks_ hm)
      then
        modify (fun hm => cleanupAddNetwork hm names) ;;;
        returnErr
          (MAKE_ERR RUNTIME_ERROR
             ("Failed to add network: already have a function called " +:+
              fname))
      else
        (* Add the network to processingNetworks_ so we know it's being
           worked on. *)
        modify (with_processing (fun p => {[fname]} ∪ p)) ;;;
        reserveNames rest (names ++ [fname])
  end.

(** Backend-specific options: the process-level option file wins over the
    options of the compilation context. *)
Definition mergeBackendOptions (cctx : CompilationContext)
    : CompilationContext :=
  match loadBackendSpecificOptionsOpt ext with
  | Some file =>
      with_backendSpecificOpts (deserializeStrStrMapFromYaml ext file) cctx
  | None =>
      match backendSpecificOpts cctx !! "loadBackendSpecificOptions" with
      | Some file =>
          with_backendSpecificOpts (deserializeStrStrMapFromYaml ext file) cctx
      | None => cctx
      end
  end.

Definition gatherDeviceInfo (hm : HostManager) : list DeviceInfo :=
  (fun dev =>
     {| availableMemory := getAvailableMemory dev;
        infoBackendName := getBackendName dev;
        nonSupportedNodes := getParamByName ext dev "nonSupportedNodes";
        supportedNodes := getParamByName ext dev "supportedNodes" |})
  <$> deviceList hm.

(** Target-independent optimization of every function; on an error the
    reserved names are cleaned up and the error is returned. *)
Definition optimizeFunctions (module : Module) (cctx : CompilationContext)
    (names : list string) : M unit :=
  forEach (getFunctions module) (fun F =>
    let err := optimizeFunctionBeforeLowering ext F cctx in
    if isErr err
    then modify (fun hm => cleanupAddNetwork hm names) ;;; returnErr err
    else ret tt).

(** The profiling flow: every device manager is rebuilt on the profiling
    backend, then the provisioner and the executor are replaced. *)
Definition rebuildDevice (i : N) : M unit :=
  hm <- get ;;
  match devices_ hm !! i with
  | None => undefined                 (* [devices_[i]] is a null pointer *)
  | Some dev =>
      let config :=
        {| cfgBackendName := profilingBackend ext;
           cfgName := cfgName (getDeviceConfig dev) |} in
      let dev' := createDeviceManager ext config in
      modify (with_devices <[i := dev']>) ;;;
      RETURN_IF_ERR (dmInit dev')
  end.

Definition profilingOverride (cctx : CompilationContext) : M unit :=
  if bool_decide (quantMode cctx = Profile) then
    hm <- get ;;
    (* Since for profiling the provisioner will be reset, we only allow one
       network in one HM. *)
    (if bool_decide (0 < size (networks_ hm))%nat
     then returnErr
            (MAKE_ERR RUNTIME_ERROR
               "For quantization profiling flow, there can't be other registered networks before this one")
     else ret tt) ;;;
    let devicesNum := size (devices_ hm) in
    forEach (N.of_nat <$> seq 0 devicesNum) rebuildDevice ;;;
    modify resetProvisioner ;;;
    modify resetExecutor
  else ret tt.

(** Constant folding after the preventer is lifted, with the backend check
    of every folded function. *)
Definition foldConstants (module : Module) (cctx : CompilationContext)
    (nodeList : DAGListTy) : M unit :=
  if delayAndRecordConstantModification cctx then
    RETURN_ERR_IF_NOT (bool_decide (length nodeList = 1%nat))
      "Expect only one DAG." ;;;
    match nodeList with
    | [] => ret tt
    | dag :: _ =>
        forEach (nodes dag) (fun dagNode =>
          RETURN_ERR_IF_NOT
            (bool_decide (name dagNode ∈ getFunctions module))
            ("Function " +:+ name dagNode +:+ " not found") ;;;
          (* Verify the Function is valid after constant folding takes
             place. *)
          hm <- get ;;
          (if provisionerSet hm then ret tt
           else undefined) ;;;         (* [provisioner_->getBackend] *)
          RETURN_ERR_IF_NOT
            (backendVerify ext (backendName dagNode) (name dagNode))
            ("Unsupported node(s) found after optimizing Function " +:+
             name dagNode +:+ " for backend " +:+ backendName dagNode))
    end
  else ret tt.

(** Serialization of the partitioned DAG, when asked for. *)
Definition serializeDAG (cctx : CompilationContext) (nodeList : DAGListTy)
    : M unit :=
  if serializeCompiledDAG cctx then
    match nodeList with
    | {| root := Some rootNode |} :: _ =>
        let loc := name rootNode +:+ ".onnx" in
        RETURN_IF_ERR (writeONNXModel ext loc nodeList)
    | _ => undefined                  (* [nodeList.begin()->root->name] *)
    end
  else ret tt.

(** The last two blocks of [addNetwork]: the executor pools, then the
    registry entries and the release of the reserved names. *)
Definition createPools (cctx : CompilationContext) (nodeList : DAGListTy)
    : M unit :=
  forEach nodeList (fun node =>
    hm <- get ;;
    (if executorSet hm then ret tt
     else undefined) ;;;               (* [executor_->createPool] *)
    (* Note: currently getNextNetworkExecutionState assumes that pool size
       is >= currentInFlight requests, so we set pool size to
       maxActiveRequests. *)
    modify (with_executor (fun e =>
      e ++ [createPool (root node) (maxActiveRequests (config_ hm))
              (enableP2P cctx || GlowEnableP2P ext)
              (enableDRT cctx || GlowEnableDRT ext)]))).

Definition publish (sharedModule : Module) (nodeList : DAGListTy)
    (names : list string) : M unit :=
  forEach nodeList (fun node =>
    match root node with
    | None => undefined               (* [(node.root)->name] *)
    | Some rootNode =>
        modify (with_networks (fun nets =>
          let networkData := default emptyNetworkData (nets !! name rootNode) in
          <[name rootNode :=
              {| dag := node; module := Some sharedModule;
                 refcount := refcount networkData |}]> nets))
    end) ;;;
  modify (fun hm => cleanupAddNetwork hm names).

(** The context count that [addNetwork] gives the partitioner
    ([partitioner.setContextCount]). *)
Definition setContextCount (cctx : CompilationContext) (hm : HostManager)
    : Z :=
  if enableP2P cctx || enableDRT cctx
  then maxActiveRequests (config_ hm) else 2.

(** [HostManager::addNetwork].  Not modelled: the dump of the graphs on an
    error exit ([dumpFinalGraph]), and what the constant-modification
    preventer, constant folding, dead-code elimination and [strip] do inside
    the module; none of them touches the host manager. *)
Definition addNetwork (module : Module) (cctx : CompilationContext)
    : M Error :=
  names <- reserveNames (getFunctions module) [] ;;
  let cctx := mergeBackendOptions cctx in
  hm <- get ;;
  let deviceInfo := gatherDeviceInfo hm in
  (* Optimize Functions only if we don't have any backendSpecificNodeInfo. *)
  let skipOptimizations :=
    bool_decide (0 < backendSpecificNodeInfo_size cctx)%N in
  (if negb skipOptimizations
   then optimizeFunctions module cctx names else ret tt) ;;;
  let contextCount := setContextCount cctx hm in
  match partition ext module deviceInfo skipOptimizations contextCount cctx with
  | (Failure code msg, _) =>
      modify (fun hm => cleanupAddNetwork hm names) ;;;
      returnErr (MAKE_ERR code msg)
  | (Value nodeList, module) =>
      profilingOverride cctx ;;;
      foldConstants module cctx nodeList ;;;
      serializeDAG cctx nodeList ;;;
      hm <- get ;;
      (if provisionerSet hm then ret tt
       else undefined) ;;;             (* [provisioner_->provision] *)
      let '(err, nodeList, devs) :=
        provisionOn ext (devices_ hm) nodeList module cctx in
      modify (with_devices (fun _ => devs)) ;;;
      modify (with_provisioner (fun p => p ++ [provision nodeList])) ;;;
      (if isErr err
       then modify (fun hm => cleanupAddNetwork hm names) ;;; returnErr err
       else ret tt) ;;;
      createPools cctx nodeList ;;;
      publish module nodeList names ;;;
      ret success
  end.

(** *** The admission queue *)

(** Modelled from the spec: [InferRequest::operator<] is defined with the
    class, in the header.  "Ordered in the admission queue by priority
    descending, then requestID ascending (FIFO tie-break)": a request is
    below another one when its priority is lower, or when the priorities
    are equal and its identifier is higher. *)
Definition InferRequest_lt (a b : InferRequest) : bool :=
  if bool_decide (priority a = priority b)
  then bool_decide (requestID b < requestID a)%N
  else bool_decide (priority a < priority b).

(** [r] is not ahead of [top] in that order: its priority is lower, or it
    is equal and [r] does not have the smaller identifier. *)
Definition notBefore (r top : InferRequest) : Prop :=
  priority r < priority top ∨
  (priority r = priority top ∧ (requestID top ≤ requestID r)%N).

(** [inferQueue_] is a [std::priority_queue]: [top()] is an element that no
    other element exceeds, [pop()] removes it.  The queue is modelled by the
    list of its elements; [takeTop] is [top()] followed by [pop()]. *)
Definition push (rq : InferRequest) (q : list InferRequest)
    : list InferRequest := q ++ [rq].

Fixpoint takeTop (q : list InferRequest)
    : option (InferRequest * list InferRequest) :=
  match q with
  | [] => None
  | rq :: rest =>
      match takeTop rest with
      | None => Some (rq, [])
      | Some (best, rest') =>
          if InferRequest_lt rq best
          then Some (best, rq :: rest')
          else Some (rq, rest)
      end
  end.


(** *** runNetwork, dispatchNextRun and the completion callback *)

(** [runNetwork] does not block and the executor completes a request on a
    thread of its own, so a call is followed through the points between its
    atomic actions (an operation on an atomic counter, a section under one
    acquisition of [inferQueueLock_], one call of the statistics registry,
    which [updateExecutionStats] makes with no lock held).  A thread carries
    the locals that are live at its point; the locals of [runNetwork] are
    the fields of the request it builds. *)
Inductive Thread : Set :=
  | AtLookup (rq : InferRequest)       (* [totalRequestCount_++] done *)
  | AtQueueCheck (rq : InferRequest)   (* found, [refcount++] done *)
  | AtPush (rq : InferRequest)         (* the queue was seen not full *)
  | AtActiveInc                        (* the request is in the queue *)
  | AtActiveDec                        (* no slot was free *)
  | AtDispatch                         (* entering [dispatchNextRun] *)
  | InExecutor (rq : InferRequest)     (* handed to [executor_->run] *)
  | AtCompletion (rq : InferRequest) (err : Error)
                                       (* the completion lambda is called *)
  | AtCallback (rq : InferRequest) (err : Error)
                                       (* its refcount block is done *)
  | AtOutcomeCount (global : bool) (rq : InferRequest) (err : Error)
                                       (* in [updateCountersFn]: the request
                                          is counted as processed *)
  | AtGlobalCount (rq : InferRequest) (err : Error)
                                       (* [updateCountersFn(networkName)]
                                          is done *)
  | AtInvoke (rq : InferRequest) (err : Error).
                                       (* [updateExecutionStats] is done *)

(** What a run leaves behind: the changes of a reference count, tagged with
    the run that makes them, and the invocations of the user's callback. *)
Inductive CallSite : Set := InRunNetwork | InCompletion.

Inductive Event : Set :=
  | RefInc (runID : RunIdentifierTy) (network : string)
  | RefDec (runID : RunIdentifierTy) (network : string)
  | Callback (site : CallSite) (cb : ResultCBTy) (runID : RunIdentifierTy)
      (err : Error).

Definition addRef (delta : Z) (network : NetworkData) : NetworkData :=
  {| dag := dag network; module := module network;
     refcount := refcount network + delta |}.

(** [HostManager::updateExecutionStats], counters only: the duration it
    also reports is a measurement of real time. *)
Definition updateExecutionStats (networkName : string) (error : Error)
    (hm : HostManager) : HostManager :=
  let updateCountersFn (s : string) (reg : CounterKey -> Z) :=
    let reg := incrementCounter (Named ("glow.requests_processed." +:+ s)) reg in
    if isErr error
    then incrementCounter (Named ("glow.requests_failed." +:+ s)) reg
    else incrementCounter (Named ("glow.requests_succeeded." +:+ s)) reg in
  with_stats (fun reg => updateCountersFn "global" (updateCountersFn networkName reg))
    hm.

(** The two counter increments of the lambda [updateCountersFn] of
    [updateExecutionStats], each one call of the registry. *)
Definition countProcessed (s : string) (hm : HostManager) : HostManager :=
  with_stats (incrementCounter (Named ("glow.requests_processed." +:+ s))) hm.

Definition countOutcome (error : Error) (s : string) (hm : HostManager)
    : HostManager :=
  if isErr error
  then with_stats (incrementCounter (Named ("glow.requests_failed." +:+ s))) hm
  else with_stats
         (incrementCounter (Named ("glow.requests_succeeded." +:+ s))) hm.

(** One atomic action of a thread: the new state, what the thread becomes
    (nothing when it returns) and the events of the action.  A thread
    waiting for the executor cannot move by itself. *)
Definition advance (hm : HostManager) (th : Thread)
    : option (HostManager * list Thread * list Event) :=
  match th with
  | AtLookup rq =>
      match networks_ hm !! networkName rq with
      | Some network =>
          Some (with_networks <[networkName rq := addRef 1 network]> hm,
                [AtQueueCheck rq],
                [RefInc (requestID rq) (networkName rq)])
      | None =>
          Some (hm, [],
                [Callback InRunNetwork (callback rq) (requestID rq)
                   (MAKE_ERR RUNTIME_NET_NOT_FOUND
                      ("Function " +:+ networkName rq +:+ " not found"))])
      end
  | AtQueueCheck rq =>
      (* Put the request in the queue. *)
      let queueSize := Z.of_nat (length (inferQueue_ hm)) in
      if bool_decide (maxQueueSize (config_ hm) ≤ queueSize) then
        (* The queue is full, return an error. *)
        Some (with_networks (alter (addRef (-1)) (networkName rq)) hm,
              [],
              [RefDec (requestID rq) (networkName rq);
               Callback InRunNetwork (callback rq) (requestID rq)
                 (MAKE_ERR RUNTIME_REQUEST_REFUSED
                    ("The number of allowed queued requests has been exceeded. queued requests: "
                     +:+ pretty queueSize +:+ " allowed requests: "
                     +:+ pretty (maxQueueSize (config_ hm))))])
      else Some (hm, [AtPush rq], [])
  | AtPush rq =>
      Some (with_queue (push rq) hm, [AtActiveInc], [])
  | AtActiveInc =>
      (* If we haven't reached maxActiveRequests kick off next request. *)
      let activeRequestCount := activeRequestCount_ hm in
      let hm := with_active (fun n => n + 1) hm in
      if bool_decide (activeRequestCount < maxActiveRequests (config_ hm))
      then Some (hm, [AtDispatch], [])
      else Some (hm, [AtActiveDec], [])
  | AtActiveDec =>
      Some (with_active (fun n => n - 1) hm, [], [])
  | AtDispatch =>
      match takeTop (inferQueue_ hm) with
      | Some (request, rest) =>
          let hm := with_queue (fun _ => rest) hm in
          (* [networks_[request.networkName]] makes the entry if there is
             none. *)
          let hm :=
            with_networks (fun nets =>
              match nets !! networkName request with
              | Some _ => nets
              | None => <[networkName request := emptyNetworkData]> nets
              end) hm in
          let rootNode :=
            root (dag (default emptyNetworkData
                         (networks_ hm !! networkName request))) in
          Some (with_executor
                  (fun e => e ++ [run rootNode (requestID request)]) hm,
                [InExecutor request], [])
      | None =>
          (* Decrement the activeRequest counter so new requests can
             launched. *)
          Some (with_active (fun n => n - 1) hm, [], [])
      end
  | InExecutor _ => None
  | AtCompletion rq err =>
      match networks_ hm !! networkName rq with
      | Some network =>
          Some (with_networks <[networkName rq := addRef (-1) network]> hm,
                [AtCallback rq err],
                [RefDec (requestID rq) (networkName rq)])
      | None => Some (hm, [AtCallback rq err], [])
      end
  | AtCallback rq err =>
      (* [updateCountersFn(networkName)] *)
      Some (countProcessed (networkName rq) hm,
            [AtOutcomeCount false rq err], [])
  | AtOutcomeCount global rq err =>
      let s := if global then "global" else networkName rq in
      Some (countOutcome err s hm,
            [if global then AtInvoke rq err else AtGlobalCount rq err], [])
  | AtGlobalCount rq err =>
      (* [updateCountersFn("global")] *)
      Some (countProcessed "global" hm, [AtOutcomeCount true rq err], [])
  | AtInvoke rq err =>
      Some (hm, [AtDispatch],
            [Callback InCompletion (callback rq) (requestID rq) err])
  end.

(** The host manager together with the calls in progress and the events so
    far (oldest first). *)
Record System : Type := mkSystem {
  host : HostManager;
  threads : list Thread;
  trace : list Event
}.

(** The state a body leaves, unless it is undefined. *)
Definition stateAfter {A} (o : Outcome A) : option HostManager :=
  match o with
  | Next _ hm => Some hm
  | Return _ hm => Some hm
  | Undefined => None
  end.

(** The sections of [addNetwork] and of [clearHost] that write to the host
    manager; they run under separate acquisitions of [networkLock_] (or
    under none), so other calls come in between them.  What a section is
    given by the earlier ones is left free here. *)
Inductive hostSection : HostManager -> HostManager -> Prop :=
  | hostSection_reserve hm functions hm' :
      stateAfter (reserveNames functions [] hm) = Some hm' ->
      hostSection hm hm'
  | hostSection_cleanup hm names :
      hostSection hm (cleanupAddNetwork hm names)
  | hostSection_profiling hm cctx hm' :
      stateAfter (profilingOverride cctx hm) = Some hm' ->
      hostSection hm hm'
  | hostSection_provision hm nodeList devs :
      hostSection hm
        (with_provisioner (fun p => p ++ [provision nodeList])
           (with_devices (fun _ => devs) hm))
  | hostSection_createPools hm cctx nodeList hm' :
      stateAfter (createPools cctx nodeList hm) = Some hm' ->
      hostSection hm hm'
  | hostSection_publish hm sharedModule nodeList names hm' :
      stateAfter (publish sharedModule nodeList names hm) = Some hm' ->
      hostSection hm hm'
  | hostSection_stop hm :
      hostSection hm
        (with_stats (fun reg =>
            setCounter kDeviceMemoryMax 0
              (setCounter kDeviceMemoryAvailable 0
                 (setCounter kDeviceMemoryUsed 0 reg))) hm).

(** One step of the whole system. *)
Inductive step : System -> System -> Prop :=
  | step_runNetwork s networkName context callback priority now :
      (* [auto currentRun = totalRequestCount_++] *)
      step s
        {| host := with_total N.succ (host s);
           threads := threads s ++
             [AtLookup {| networkName := networkName; context := context;
                          callback := callback; priority := priority;
                          requestID := totalRequestCount_ (host s);
                          startTime := now |}];
           trace := trace s |}
  | step_advance s before th after hm' next events :
      threads s = before ++ th :: after ->
      advance (host s) th = Some (hm', next, events) ->
      step s
        {| host := hm'; threads := before ++ next ++ after;
           trace := trace s ++ events |}
  | step_executor s before rq after err :
      (* the executor finishes the run and calls the completion lambda *)
      threads s = before ++ InExecutor rq :: after ->
      step s
        {| host := host s;
           threads := before ++ AtCompletion rq err :: after;
           trace := trace s |}
  | step_removeNetwork s networkName :
      step s
        {| host := (removeNetwork networkName (host s)).2;
           threads := threads s; trace := trace s |}
  | step_section s hm' :
      hostSection (host s) hm' ->
      step s {| host := hm'; threads := threads s; trace := trace s |}.

(** A host manager at rest: no call in progress, nothing queued, no
    outstanding reference. *)
Definition atRest (s : System) : Prop :=
  threads s = [] ∧ trace s = [] ∧ inferQueue_ (host s) = [] ∧
  ∀ nm network, networks_ (host s) !! nm = Some network → refcount network = 0.

Inductive reachable : System -> Prop :=
  | reachable_start s : atRest s -> reachable s
  | reachable_step s s' : reachable s -> step s s' -> reachable s'.

(** *** Accounting for the runs *)

(** The run an event belongs to, and the events of one run. *)
Definition eventRun (e : Event) : RunIdentifierTy :=
  match e with
  | RefInc r _ => r
  | RefDec r _ => r
  | Callback _ _ r _ => r
  end.

Definition eventsOf (r : RunIdentifierTy) (events : list Event)
    : list Event :=
  filter (fun e => eventRun e = r) events.

(** The ledger line of a run in progress: its identifier, its network,
    whether it holds a reference (the count was incremented for it and not
    yet decremented), and the events it has produced so far. *)
Record Entry : Set := mkEntry {
  eRun : RunIdentifierTy;
  eNet : string;
  eHeld : bool;
  eEvents : list Event
}.

Definition heldEntry (rq : InferRequest) : Entry :=
  {| eRun := requestID rq; eNet := networkName rq; eHeld := true;
     eEvents := [RefInc (requestID rq) (networkName rq)] |}.

Definition threadEntry (th : Thread) : option Entry :=
  match th with
  | AtLookup rq =>
      Some {| eRun := requestID rq; eNet := networkName rq; eHeld := false;
              eEvents := [] |}
  | AtQueueCheck rq | AtPush rq | InExecutor rq | AtCompletion rq _ =>
      Some (heldEntry rq)
  | AtCallback rq _ | AtOutcomeCount _ rq _ | AtGlobalCount rq _
  | AtInvoke rq _ =>
      Some {| eRun := requestID rq; eNet := networkName rq; eHeld := false;
              eEvents := [RefInc (requestID rq) (networkName rq);
                          RefDec (requestID rq) (networkName rq)] |}
  | AtActiveInc | AtActiveDec | AtDispatch => None
  end.

(** The runs in progress: those of the threads and those in the queue. *)
Definition entries (s : System) : list Entry :=
  omap threadEntry (threads s) ++ (heldEntry <$> inferQueue_ (host s)).

Definition holdersIn (nm : string) (es : list Entry) : nat :=
  length (filter (fun e => eHeld e = true ∧ eNet e = nm) es).

(** The number of runs that hold a reference to network [nm]. *)
Definition holders (nm : string) (s : System) : nat :=
  holdersIn nm (entries s).

(** The events of a run whose callback has been invoked. *)
Definition concluded (r : RunIdentifierTy) (events : list Event) : Prop :=
  (∃ cb msg,
     events = [Callback InRunNetwork cb r (MAKE_ERR RUNTIME_NET_NOT_FOUND msg)]) ∨
  (∃ nm cb msg,
     events = [RefInc r nm; RefDec r nm;
               Callback InRunNetwork cb r
                 (MAKE_ERR RUNTIME_REQUEST_REFUSED msg)]) ∨
  (∃ nm cb err,
     events = [RefInc r nm; RefDec r nm; Callback InCompletion cb r err]).

(** The ledger agrees with the trace and with the reference counts. *)
Record ledger (es : list Entry) (total : N) (events : list Event)
    (nets : gmap string NetworkData) : Prop := mkLedger {
  ledger_entries :
    ∀ e, e ∈ es → (eRun e < total)%N ∧ eventsOf (eRun e) events = eEvents e;
  ledger_unique : NoDup (eRun <$> es);
  ledger_fresh : ∀ r, (total ≤ r)%N → eventsOf r events = [];
  ledger_done :
    ∀ r, r ∉ eRun <$> es →
         eventsOf r events = [] ∨ concluded r (eventsOf r events);
  ledger_counts :
    ∀ nm, match nets !! nm with
          | Some network => refcount network = Z.of_nat (holdersIn nm es)
          | None => holdersIn nm es = 0%nat
          end
}.

Definition consistent (s : System) : Prop :=
  ledger (entries s) (totalRequestCount_ (host s)) (trace s)
         (networks_ (host s)).

(** *** Schedules *)

(** A schedule picks, step by step, what happens next: a new call of
    [runNetwork], the next action of the thread at a position, the
    executor finishing the run of the thread at a position, or a call of
    [removeNetwork]. *)
Inductive Action : Set :=
  | Call (networkName : string) (context : ExecutionContext)
      (callback : ResultCBTy) (priority : Z) (now : Z)
  | Advance (position : nat)
  | Finish (position : nat) (err : Error)
  | Remove (networkName : string).

Definition act (a : Action) (s : System) : option System :=
  match a with
  | Call networkName context callback priority now =>
      Some {| host := with_total N.succ (host s);
              threads := threads s ++
                [AtLookup {| networkName := networkName; context := context;
                             callback := callback; priority := priority;
                             requestID := totalRequestCount_ (host s);
                             startTime := now |}];
              trace := trace s |}
  | Advance position =>
      match threads s !! position with
      | Some th =>
          match advance (host s) th with
          | Some (hm', next, events) =>
              Some {| host := hm';
                      threads := take position (threads s) ++ next ++
                                 drop (S position) (threads s);
                      trace := trace s ++ events |}
          | None => None
          end
      | None => None
      end
  | Finish position err =>
      match threads s !! position with
      | Some (InExecutor rq) =>
          Some {| host := host s;
                  threads := take position (threads s) ++
                             AtCompletion rq err ::
                             drop (S position) (threads s);
                  trace := trace s |}
      | _ => None
      end
  | Remove networkName =>
      Some {| host := (removeNetwork networkName (host s)).2;
              threads := threads s; trace := trace s |}
  end.

Fixpoint runSchedule (schedule : list Action) (s : System) : option System :=
  match schedule with
  | [] => Some s
  | a :: rest =>
      match act a s with
      | Some s' => runSchedule rest s'
      | None => None
      end
  end.

End HostManager.

(** *** Queries and the destructor *)

(** [HostManager::getNetworkDAG]. *)
Definition getNetworkDAG (network : string) (hm : HostManager)
    : Expected DAG :=
  match networks_ hm !! network with
  | None => Failure RUNTIME_ERROR "Network not found."
  | Some networkData => Value (dag networkData)
  end.

(** [HostManager::networkAdded]. *)
Definition networkAdded (networkName : string) (hm : HostManager) : bool :=
  bool_decide (is_Some (networks_ hm !! networkName)).

Section Teardown.

Variable ext : Externals.


End Teardown.

(** *** Device configurations *)

Definition quote : Ascii.ascii := Ascii.ascii_of_nat 34.
Definition newline : Ascii.ascii := Ascii.ascii_of_nat 10.
Definition nul : Ascii.ascii := Ascii.ascii_of_nat 0.

(** [s.find(c, pos)]: the first position at or after [pos] where [s] has
    the character [c]; [None] is [npos]. *)
Fixpoint find (c : Ascii.ascii) (pos : nat) (s : string) : option nat :=
  match s with
  | EmptyString => None
  | String a rest =>
      match pos with
      | O => if decide (a = c) then Some O else S <$> find c O rest
      | S pos' => S <$> find c pos' rest
      end
  end.

(** [str.c_str()] read back as a string: the characters before the first
    NUL. *)
Fixpoint c_str (s : string) : string :=
  match s with
  | EmptyString => EmptyString
  | String a rest => if decide (a = nul) then EmptyString
                     else String a (c_str rest)
  end.

(** The strings that [while (getline(f, s, '\n'))] hands out, in order: the
    input is cut at every newline, and a newline at the very end does not
    start another line. *)
Fixpoint getlines (f : string) : list string :=
  match f with
  | EmptyString => []
  | String a rest =>
      if decide (a = newline) then EmptyString :: getlines rest
      else match getlines rest with
           | [] => [String a EmptyString]
           | s :: more => String a s :: more
           end
  end.

(** The body of the loop of [getBackendParams] on one line; [None] when one
    of the four assertions fails. *)
Definition backendParam (s : string) : option (string * string) :=
  pos1 ← find quote 0 s;
  pos2 ← find quote (pos1 + 1) s;
  pos3 ← find quote (pos2 + 1) s;
  pos4 ← find quote (pos3 + 1) s;
  Some (String.substring (pos1 + 1) (pos2 - pos1 - 1) s,
        String.substring (pos3 + 1) (pos4 - pos3 - 1) s).

(** [getBackendParams]. *)
Definition getBackendParams (str : string) : option (gmap string string) :=
  foldl (fun ret s =>
           ret ← ret;
           '(key, value) ← backendParam s;
           Some (<[key := value]> ret))
        (Some ∅) (getlines (c_str str)).

(** An entry of the device configuration file ([DeviceConfigHelper]). *)
Record DeviceConfigHelper : Set := mkDeviceConfigHelper {
  backendName_ : string;
  name_ : string;
  parameters_ : string
}.

(** What [generateDeviceConfigs] and [loadDeviceConfigsFromFile] give a new
    [DeviceConfig]: the arguments of its constructor, the device memory,
    and the device identifier where one is assigned. *)
Record NewDeviceConfig : Set := mkNewDeviceConfig {
  newBackendName : string;
  newName : option string;
  newParameters : option (gmap string string);
  newDeviceMemory : N;
  newDeviceID : option N
}.

Section DeviceConfigs.

(** The option [load-device-configs] ([None] when it is empty) and the
    reader of the file it names. *)
Variable loadDeviceConfigsFileOpt : option string.
Variable deserializeDeviceConfigFromYaml : string -> list DeviceConfigHelper.

(** [runtime::loadDeviceConfigsFromFile]: the answer and the configurations
    appended to [configs]; [None] when an assertion of [getBackendParams]
    fails. *)
Definition loadDeviceConfigsFromFile (configs : list NewDeviceConfig)
    (memSize : N) : option (bool * list NewDeviceConfig) :=
  match loadDeviceConfigsFileOpt with
  | None => Some (false, configs)
  | Some file =>
      let lists := deserializeDeviceConfigFromYaml file in
      configs ←
        foldl (fun configs helper =>
                 configs ← configs;
                 parameters ← getBackendParams (parameters_ helper);
                 Some (configs ++
                       [{| newBackendName := backendName_ helper;
                           newName := Some (name_ helper);
                           newParameters := Some parameters;
                           newDeviceMemory := memSize;
                           newDeviceID := None |}]))
              (Some configs) lists;
      Some (true, configs)
  end.

(** [runtime::generateDeviceConfigs]; [numDevices] is an [unsigned]. *)
Definition generateDeviceConfigs (numDevices : N) (backendName : string)
    (memSize : N) : option (list NewDeviceConfig) :=
  match loadDeviceConfigsFromFile [] memSize with
  | None => None
  | Some (true, configs) => Some configs
  | Some (false, configs) =>
      (* If there is no device config file, use numDevices to generate the
         configs. *)
      Some (configs ++
            ((fun i => {| newBackendName := backendName;
                          newName := None;
                          newParameters := None;
                          newDeviceMemory := memSize;
                          newDeviceID := Some (N.of_nat i) |})
             <$> seq 0 (N.to_nat numDevices)))
  end.

End DeviceConfigs.

(** *** The calls that occupy a slot *)

(** A thread between its increment of [activeRequestCount_] and the
    matching decrement: it runs [dispatchNextRun] or the request it took
    from the queue, or it found no free slot and is about to give the
    count back. *)
Definition holdsSlot (th : Thread) : bool :=
  match th with
  | AtDispatch | InExecutor _ | AtCompletion _ _ | AtCallback _ _
  | AtOutcomeCount _ _ _ | AtGlobalCount _ _ | AtInvoke _ _ => true
  | _ => false
  end.

Definition givesBack (th : Thread) : bool :=
  match th with
  | AtActiveDec => true
  | _ => false
  end.

(** The configuration that [init] passes to the device factory for the
    entry at position [deviceCount]: an entry without a name is named after
    its position. *)
Definition namedConfig (deviceCount : N) (config : DeviceConfig)
    : DeviceConfig :=
  match cfgName config with
  | Some _ => config
  | None => {| cfgBackendName := cfgBackendName config;
               cfgName := Some ("config" +:+ pretty deviceCount) |}
  end.

(** The registry after the loop of [publish] over [nodeList]: an entry per
    root, made or overwritten in the order of the list, with the reference
    count the name had before. *)
Definition published (sharedModule : Module)
    (nets : gmap string NetworkData) (nodeList : DAGListTy)
    : gmap string NetworkData :=
  foldl (fun (nets : gmap string NetworkData) (node : DAG) =>
           match root node with
           | Some rootNode =>
               <[name rootNode :=
                   {| dag := node; module := Some sharedModule;
                      refcount := refcount (default emptyNetworkData
                                              (nets !! name rootNode)) |}]>
                 nets
           | None => nets
           end)
        nets nodeList.

(** The text [getBackendParams] is meant for: one line per entry, each of
    the form ["key" : "value"], the lines separated by newlines.  A key or
    a value is [plain] when it has no double quote, no newline and no NUL
    in it.  [occurrences c pos s] counts the characters [c] of [s] at the
    positions from [pos] on. *)
Definition paramLine (key value : string) : string :=
  String quote (key +:+ String quote (" : " +:+
    String quote (value +:+ String quote EmptyString))).

Fixpoint paramLines (entries : list (string * string)) : string :=
  match entries with
  | [] => EmptyString
  | [(key, value)] => paramLine key value
  | (key, value) :: rest =>
      paramLine key value +:+ String newline (paramLines rest)
  end.

Fixpoint plain (s : string) : bool :=
  match s with
  | EmptyString => true
  | String a rest =>
      negb (bool_decide (a = quote)) && negb (bool_decide (a = newline)) &&
      negb (bool_decide (a = nul)) && plain rest
  end.

Fixpoint occurrences (c : Ascii.ascii) (pos : nat) (s : string) : nat :=
  match s with
  | EmptyString => O
  | String a rest =>
      match pos with
      | O => (if decide (a = c) then 1 else 0)%nat + occurrences c O rest
      | S pos' => occurrences c pos' rest
      end
  end.

(** The number of calls that occupy a slot, and of those about to give the
    count back. *)
Definition slotsHeld (s : System) : nat :=
  length (List.filter holdsSlot (threads s)).

Definition slotsGivenBack (s : System) : nat :=
  length (List.filter givesBack (threads s)).

(** The request counters add up: for every name, the requests processed
    are those that succeeded and those that failed. *)
Definition requestsAccounted (reg : CounterKey -> Z) : Prop :=
  ∀ s, reg (Named ("glow.requests_processed." +:+ s)) =
       reg (Named ("glow.requests_succeeded." +:+ s)) +
       reg (Named ("glow.requests_failed." +:+ s)).

(** A completion that has counted its request as processed under the name
    [s] and has not yet counted it as succeeded or failed. *)
Definition countingFor (s : string) (th : Thread) : bool :=
  match th with
  | AtOutcomeCount global rq _ =>
      bool_decide ((if global then "global" else networkName rq) = s)
  | _ => false
  end.

Definition halfCounted (s : string) (sys : System) : nat :=
  length (List.filter (countingFor s) (threads sys)).

(** The request counters add up, the requests that are counted by half
    included. *)
Definition countersAccounted (sys : System) : Prop :=
  ∀ s, statsExporterRegistry_ (host sys)
         (Named ("glow.requests_processed." +:+ s)) =
       statsExporterRegistry_ (host sys)
         (Named ("glow.requests_succeeded." +:+ s)) +
       statsExporterRegistry_ (host sys)
         (Named ("glow.requests_failed." +:+ s)) +
       Z.of_nat (halfCounted s sys).

(** A thread inside [updateExecutionStats]. *)
Definition inStats (th : Thread) : bool :=
  match th with
  | AtCallback _ _ | AtOutcomeCount _ _ _ | AtGlobalCount _ _ => true
  | _ => false
  end.

(** *** A call of [runNetwork] that nothing interleaves with *)

(** The actions of one thread, one after the other, until it returns or
    has handed its request to the executor: the new state, the thread that
    is left waiting for the executor (if any) and the events. *)
Fixpoint runThread (fuel : nat) (hm : HostManager) (th : Thread)
    : option (HostManager * list Thread * list Event) :=
  match fuel with
  | O => None
  | S fuel =>
      match th with
      | InExecutor _ => Some (hm, [th], [])
      | _ =>
          match advance hm th with
          | Some (hm', [], events) => Some (hm', [], events)
          | Some (hm', [next], events) =>
              match runThread fuel hm' next with
              | Some (hm'', waiting, events') =>
                  Some (hm'', waiting, events ++ events')
              | None => None
              end
          | _ => None
          end
      end
  end.

(** [HostManager::runNetwork] run from its first statement to its [return]
    with no other call in between: the identifier it returns, the state,
    the thread left in the executor and the events. *)
Definition runNetwork_alone (networkName : string)
    (context : ExecutionContext) (callback : ResultCBTy) (priority : Z)
    (now : Z) (hm : HostManager)
    : option (RunIdentifierTy * (HostManager * list Thread * list Event)) :=
  let currentRun := totalRequestCount_ hm in
  match runThread 6 (with_total N.succ hm)
          (AtLookup {| networkName := networkName; context := context;
                       callback := callback; priority := priority;
                       requestID := currentRun; startTime := now |}) with
  | Some result => Some (currentRun, result)
  | None => None
  end.

(** *** Sample surroundings *)

(** Surroundings in which nothing fails: every device has 8 units of
    memory of which 5 are free, the partitioner returns one DAG per
    function, rooted in a node of the same name, and the provisioner loads
    it as it is. *)
Definition sampleDevice (config : DeviceConfig) : DeviceManager :=
  {| getDeviceConfig := config; getBackendName := cfgBackendName config;
     getMaximumMemory := 8; getAvailableMemory := 5;
     dmInit := success; dmStop := success |}.

Definition sampleDAG (fname : string) : DAG :=
  let node := {| name := fname; backendName := "CPU";
                 deviceRuntimeInfos := [0%N] |} in
  {| root := Some node; nodes := [node] |}.

Definition sampleExtWith (partitions verifies writes : bool) : Externals :=
  {| GlowEnableP2P := false; GlowEnableDRT := false;
     loadBackendSpecificOptionsOpt := None;
     profilingBackend := "Interpreter";
     deserializeStrStrMapFromYaml := fun _ => ∅;
     createDeviceManager := sampleDevice;
     getParamByName := fun _ _ => EmptyString;
     optimizeFunctionBeforeLowering := fun _ _ => success;
     partition := fun module _ _ _ _ =>
       if partitions
       then (Value (sampleDAG <$> getFunctions module), module)
       else (Failure (OTHER_CODE 1) "no partition", module);
     backendVerify := fun _ _ => verifies;
     writeONNXModel := fun _ _ =>
       if writes then success else MAKE_ERR (OTHER_CODE 2) "cannot write";
     provisionOn := fun devs nodeList _ _ => (success, nodeList, devs);
     evictFunctionOn := fun devs _ _ => (success, devs);
     removeFunctionOf := fun _ _ => success |}.

Definition sampleExt : Externals := sampleExtWith true true true.

Definition sampleConfig : HostConfig :=
  {| executorThreads := 3; maxActiveRequests := 8; maxQueueSize := 1 |}.

Definition sampleContext : CompilationContext :=
  {| dumpFinalGraph := false; delayAndRecordConstantModification := false;
     backendSpecificOpts := ∅; backendSpecificNodeInfo_size := 0;
     enableP2P := false; enableDRT := false; quantMode := QM_None;
     verboseCompile := false; serializeCompiledDAG := false;
     skipModuleStrip := false |}.

Definition profilingContext : CompilationContext :=
  {| dumpFinalGraph := false; delayAndRecordConstantModification := false;
     backendSpecificOpts := ∅; backendSpecificNodeInfo_size := 0;
     enableP2P := false; enableDRT := false; quantMode := Profile;
     verboseCompile := false; serializeCompiledDAG := false;
     skipModuleStrip := false |}.

(** Constant folding is delayed and recorded. *)
Definition foldingContext : CompilationContext :=
  {| dumpFinalGraph := false; delayAndRecordConstantModification := true;
     backendSpecificOpts := ∅; backendSpecificNodeInfo_size := 0;
     enableP2P := false; enableDRT := false; quantMode := QM_None;
     verboseCompile := false; serializeCompiledDAG := false;
     skipModuleStrip := false |}.

(** The compiled DAG is serialized. *)
Definition serializingContext : CompilationContext :=
  {| dumpFinalGraph := false; delayAndRecordConstantModification := false;
     backendSpecificOpts := ∅; backendSpecificNodeInfo_size := 0;
     enableP2P := false; enableDRT := false; quantMode := QM_None;
     verboseCompile := false; serializeCompiledDAG := true;
     skipModuleStrip := false |}.

(** A host manager with one device. *)
Definition sampleHost : HostManager :=
  match runBody
          (init sampleExt [{| cfgBackendName := "CPU"; cfgName := None |}])
          (newHostManager sampleConfig) with
  | Some (_, hm) => hm
  | None => newHostManager sampleConfig
  end.

(** The same host manager once network B is registered. *)
Definition sampleHostB : HostManager :=
  match runBody
          (addNetwork sampleExt {| getFunctions := ["B"] |} sampleContext)
          sampleHost with
  | Some (_, hm) => hm
  | None => sampleHost
  end.

(** The same host manager while a call of [addNetwork] for A is past the
    reservation of its name. *)
Definition sampleHostAddingA : HostManager :=
  default sampleHostB
    (stateAfter (reserveNames ["A"] [] sampleHostB)).


(** The system around a host manager on which nothing is running. *)
Definition idle (hm : HostManager) : System :=
  {| host := hm; threads := []; trace := [] |}.

(** Two calls of [runNetwork] for network B that both read the length of
    the queue before either of them pushes. *)
Definition racingCalls : list Action :=
  [ Call "B" 0%N 0%N 0 0; Call "B" 1%N 1%N 0 0;
    Advance 0; Advance 1;        (* both find the network *)
    Advance 0; Advance 1;        (* both see an empty queue *)
    Advance 0; Advance 1 ].      (* both push *)

(** One request for network B from the call to the executor, to the
    completion and to the callback. *)
Definition oneRun : list Action :=
  [ Call "B" 0%N 0%N 0 0;
    Advance 0; Advance 0; Advance 0;   (* lookup, queue check, push *)
    Advance 0; Advance 0;              (* a slot is free: dispatch *)
    Finish 0 success;
    Advance 0;                         (* refcount block *)
    Advance 0; Advance 0; Advance 0; Advance 0;   (* the four counters *)
    Advance 0 ].                       (* callback *)

Definition afterSchedule (schedule : list Action) (s : System) : System :=
  default s (runSchedule sampleExt schedule s).

(** A call of [runNetwork] for B that has found the network. *)
Definition oneLookup : list Action := [ Call "B" 0%N 0%N 0 0; Advance 0 ].

(** Nodes and instructions for the operator table. *)
Definition floatTy : Ty := {| getElementType := FloatTy; dims := [2%N; 3%N] |}.
Definition int32qTy : Ty := {| getElementType := Int32QTy; dims := [2%N; 3%N] |}.

Definition sampleAdd : CPUBackend.NodeInfo :=
  {| CPUBackend.getKind := CPUBackend.AddNodeKind;
     CPUBackend.inTys := [floatTy; floatTy]; CPUBackend.outTys := [floatTy] |}.

Definition sampleQuantize : CPUBackend.NodeInfo :=
  {| CPUBackend.getKind := CPUBackend.QuantizeNodeKind;
     CPUBackend.inTys := [floatTy]; CPUBackend.outTys := [int32qTy] |}.

Definition sampleQuantizeInst : Instrs.Instruction :=
  {| Instrs.operands :=
       [ ({| Instrs.getType := int32qTy |}, Instrs.OpOut);
         ({| Instrs.getType := floatTy |}, Instrs.OpIn) ] |}.

(** Every slot constant is 0, and the quantized types are those whose
    element kind is named with a Q. *)
Definition sampleSlots (s : CPUBackend.Slot) : nat := 0%nat.

Definition sampleQuantized (t : Ty) : bool :=
  match getElementType t with
  | Int8QTy | UInt8QTy | Int16QTy | Int32QTy | UInt8FusedQTy => true
  | _ => false
  end.

(** Samples for the shape checks: a 4x5 tensor with a 2x3 slice at offsets
    (1, 2), and the transposition of a 2x3 tensor. *)
Definition sampleTensor : Instrs.Value :=
  {| Instrs.getType := {| getElementType := FloatTy; dims := [4%N; 5%N] |} |}.

Definition sampleSlice : Instrs.Value := {| Instrs.getType := floatTy |}.

Definition sampleOffsets : list N := [1%N; 2%N].

Definition sampleTransposed : Instrs.Operand :=
  ({| Instrs.getType := {| getElementType := FloatTy; dims := [3%N; 2%N] |} |},
   Instrs.OpOut).

Definition sampleSource : Instrs.Operand :=
  ({| Instrs.getType := floatTy |}, Instrs.OpIn).

Definition sampleTranspose : Instrs.Instruction :=
  {| Instrs.operands := [sampleTransposed; sampleSource] |}.

(** An addition of the same element kinds as [sampleAdd], on another
    shape. *)
Definition sampleAddWide : CPUBackend.NodeInfo :=
  {| CPUBackend.getKind := CPUBackend.AddNodeKind;
     CPUBackend.inTys := [ {| getElementType := FloatTy; dims := [7%N] |};
                           {| getElementType := FloatTy; dims := [7%N] |} ];
     CPUBackend.outTys := [ {| getElementType := FloatTy; dims := [7%N] |} ] |}.

(** Entries of a parameter text; one key comes twice. *)
Definition sampleEntries : list (string * string) :=
  [ ("deviceID", "0"); ("mode", "fast"); ("deviceID", "1") ].

(** A profiling [addNetwork] of A on the host manager that has B: its
    error and the state it leaves. *)
Definition sampleFailure : Error * HostManager :=
  default (success, sampleHostB)
    (runBody (addNetwork sampleExt {| getFunctions := ["A"] |}
                profilingContext) sampleHostB).

(** One request for B up to the executor. *)
Definition untilExecutor : list Action :=
  [ Call "B" 0%N 0%N 0 0;
    Advance 0; Advance 0; Advance 0;   (* lookup, queue check, push *)
    Advance 0; Advance 0 ].            (* a slot is free: dispatch *)

(** One request for B up to the middle of [updateExecutionStats]: it is
    counted as processed under its network, and not yet as succeeded. *)
Definition untilCounted : list Action :=
  untilExecutor ++ [ Finish 0 success; Advance 0; Advance 0 ].


(** A device that reports more available memory (8) than it has (5). *)
Definition overdrawnDevice (config : DeviceConfig) : DeviceManager :=
  {| getDeviceConfig := config; getBackendName := cfgBackendName config;
     getMaximumMemory := 5; getAvailableMemory := 8;
     dmInit := success; dmStop := success |}.

(** A host manager with that device. *)
Definition overdrawnHost : HostManager :=
  match runBody
          (init (with_createDeviceManager overdrawnDevice sampleExt)
             [{| cfgBackendName := "CPU"; cfgName := None |}])
          (newHostManager sampleConfig) with
  | Some (_, hm) => hm
  | None => newHostManager sampleConfig
  end.

(** A host manager with three devices; the second configuration has a
    name. *)
Definition threeConfigs : list DeviceConfig :=
  [ {| cfgBackendName := "CPU"; cfgName := None |};
    {| cfgBackendName := "CPU"; cfgName := Some "second" |};
    {| cfgBackendName := "CPU"; cfgName := None |} ].

Definition sampleHostThree : HostManager :=
  match runBody (init sampleExt threeConfigs) (newHostManager sampleConfig) with
  | Some (_, hm) => hm
  | None => newHostManager sampleConfig
  end.

(** Surroundings whose partitioner works with two contexts only. *)
Definition twoContextsExt : Externals :=
  with_partition
    (fun module deviceInfo skipOptimizations contextCount cctx =>
       if bool_decide (contextCount = 2)
       then partition sampleExt module deviceInfo skipOptimizations
              contextCount cctx
       else (Failure (OTHER_CODE 3) "context count", module))
    sampleExt.

(** A device named [second] whose [init()] fails, and surroundings that
    create it. *)
Definition secondFails (config : DeviceConfig) : DeviceManager :=
  if bool_decide (cfgName config = Some "second")
  then {| getDeviceConfig := config; getBackendName := cfgBackendName config;
          getMaximumMemory := 8; getAvailableMemory := 5;
          dmInit := MAKE_ERR (OTHER_CODE 4) "no device"; dmStop := success |}
  else sampleDevice config.

Definition secondFailsExt : Externals :=
  with_createDeviceManager secondFails sampleExt.

End Runtime.

(* ===================================================================== *)
(** * Properties *)
(* ===================================================================== *)

Import Base.

(** ** Instruction verification and the operator table *)

Section OperatorTable.

Import Instrs CPUBackend.

Variable idx : Slot -> nat.
Variable isQuantizedType : Ty -> bool.

Local Notation "'isOpSupported'" :=
  (CPUBackend.isOpSupported idx isQuantizedType).
Local Notation "'allSame'" := (allInputsAndOutputsHaveSameElemKind idx).

Local Ltac same_position :=
  match goal with
  | Hni : ?b ∉ _ |- ?a ∉ _ => replace a with b by lia; exact Hni
  end.

Lemma checked_Forall (P : Ty -> Prop) ignore tys pos :
  Forall P (checked ignore pos tys) ↔
  ∀ i t, tys !! i = Some t → (pos + i)%nat ∉ ignore → P t.
Proof.
  revert pos. induction tys as [|t tys IH]; intros pos; simpl.
  - split.
    + intros _ i t Hl. rewrite lookup_nil in Hl. done.
    + intros _. constructor.
  - case_bool_decide as Hin.
    + rewrite IH. split.
      * intros H [|i] u Hu Hni; simpl in *.
        -- rewrite Nat.add_0_r in Hni. done.
        -- apply (H i u Hu). same_position.
      * intros H i u Hu Hni. apply (H (S i) u Hu).
        same_position.
    + rewrite Forall_cons, IH. split.
      * intros [Ht H] [|i] u Hu Hni; simpl in *.
        -- by simplify_eq.
        -- apply (H i u Hu). same_position.
      * intros H. split.
        -- apply (H 0%nat t eq_refl). by rewrite Nat.add_0_r.
        -- intros i u Hu Hni. apply (H (S i) u Hu).
           same_position.
Qed.

Lemma checked_all tys pos : checked [] pos tys = tys.
Proof.
  revert pos. induction tys as [|t tys IH]; intros pos; simpl; [done|].
  by rewrite IH.
Qed.

(** The helper, with nothing ignored, says what the table's wording says. *)
Lemma allSame_allShareOneOf NI allowed :
  decides (allSame NI allowed [] []) (allShareOneOf NI allowed).
Proof.
  unfold decides, allInputsAndOutputsHaveSameElemKind. eexists. split; [done|].
  simpl. rewrite !checked_all.
  rewrite existsb_exists. unfold allShareOneOf, allHave.
  split.
  - intros (k & Hk & Hall). exists k. rewrite forallb_forall in Hall.
    split; [by apply list_elem_of_In|].
    split; intros t Ht; specialize (Hall t); rewrite bool_decide_eq_true in Hall;
      apply Hall, in_app_iff; [left | right]; by apply list_elem_of_In.
  - intros (k & Hk & Hin & Hout). exists k. split; [by apply list_elem_of_In|].
    apply forallb_forall. intros t Ht. apply bool_decide_eq_true.
    apply in_app_iff in Ht as [Ht|Ht]; [apply Hin | apply Hout];
      by apply list_elem_of_In.
Qed.

Lemma allShareOneOf_single NI k : allShareOneOf NI [k] ↔ allHave NI k.
Proof.
  unfold allShareOneOf. split.
  - intros (k' & Hk' & H). apply list_elem_of_singleton in Hk'. by subst.
  - intros H. exists k. split; [apply list_elem_of_singleton; done | done].
Qed.

Lemma allSame_allHave NI k : decides (allSame NI [k] [] []) (allHave NI k).
Proof.
  destruct (allSame_allShareOneOf NI [k]) as (b & Hb & Hiff).
  exists b. split; [done|]. by rewrite Hiff, allShareOneOf_single.
Qed.

(** With input slots ignored, the helper speaks of the other slots. *)
Lemma allSame_ignoring_input NI k s :
  allSame NI [k] [s] [] = Some true ↔
  (∀ i t, inTys NI !! i = Some t → i ≠ idx s → getElementType t = k) ∧
  (∀ t, t ∈ outTys NI → getElementType t = k).
Proof.
  unfold allInputsAndOutputsHaveSameElemKind. simpl.
  rewrite checked_all, orb_false_r.
  split.
  - intros [= H]. rewrite forallb_forall in H. split.
    + intros i t Hi Hne.
      assert (Forall (fun t => getElementType t = k) (checked [idx s] 0 (inTys NI))) as HF.
      { apply Forall_forall. intros u Hu. apply list_elem_of_In in Hu.
        specialize (H u). rewrite bool_decide_eq_true in H. apply H, in_app_iff. by left. }
      rewrite checked_Forall in HF. apply (HF i t Hi). simpl.
      by rewrite list_elem_of_singleton.
    + intros t Ht. specialize (H t). rewrite bool_decide_eq_true in H.
      apply H, in_app_iff. right. by apply list_elem_of_In.
  - intros [Hin Hout]. f_equal. apply forallb_forall. intros t Ht.
    apply bool_decide_eq_true. apply in_app_iff in Ht as [Ht|Ht].
    + assert (Forall (fun t => getElementType t = k) (checked [idx s] 0 (inTys NI))) as HF.
      { apply checked_Forall. intros i u Hi Hni. apply (Hin i u Hi).
        simpl in Hni. by rewrite list_elem_of_singleton in Hni. }
      rewrite Forall_forall in HF. apply HF. by apply list_elem_of_In.
    + apply Hout. by apply list_elem_of_In.
Qed.

Lemma isKind_true (a : option ElemKind) k : a ==? k = Some true ↔ a = Some k.
Proof.
  destruct a as [x|]; simpl; [|done]. split.
  - intros [= H]. apply bool_decide_eq_true in H. by subst.
  - intros [= ->]. by rewrite bool_decide_true.
Qed.

Lemma andM_true a b : a &&& b = Some true ↔ a = Some true ∧ b = Some true.
Proof. destruct a as [[]|]; simpl; intuition congruence. Qed.

Lemma orM_true_of_kinds (a : option ElemKind) k1 k2 :
  (a ==? k1 ||| a ==? k2) = Some true ↔ a = Some k1 ∨ a = Some k2.
Proof.
  destruct a as [x|]; simpl; [|intuition congruence].
  repeat case_bool_decide; simpl; try case_bool_decide; intuition congruence.
Qed.

(** Where the table has no value, a slot it looks up is missing. *)
Lemma isOpSupported_None NI :
  isOpSupported NI = None →
  ∃ s, getInElemTy idx NI s = None ∨ getOutElemTy idx NI s = None.
Proof.
  unfold CPUBackend.isOpSupported, getInTy. intros H.
  destruct (getKind NI); try discriminate;
  repeat match type of H with
    | context [getInElemTy idx NI ?s] =>
        destruct (getInElemTy idx NI s) eqn:?; [| by (exists s; left)]
    | context [getOutElemTy idx NI ?s] =>
        destruct (getOutElemTy idx NI s) eqn:?; [| by (exists s; right)]
    | context [inTys NI !! idx ?s] =>
        let E := fresh in
        destruct (inTys NI !! idx s) eqn:E;
          [| by (exists s; left; unfold getInElemTy; rewrite E)]
    end;
  unfold allInputsAndOutputsHaveSameElemKind, isKind in H; simpl in H;
  repeat (first
    [ discriminate
    | match type of H with
      | context [andM (Some ?b) _] => destruct b; simpl in H
      | context [orM (Some ?b) _] => destruct b; simpl in H
      | context [if ?b then _ else _] => destruct b; simpl in H
      end ]).
Qed.

Lemma verify2_true I body :
  verify2 I body = true ↔
  ∃ op0 op1, getOperand I 0 = Some op0 ∧ getOperand I 1 = Some op1 ∧
             body op0 op1 = true.
Proof.
  unfold verify2.
  destruct (getOperand I 0) as [op0|], (getOperand I 1) as [op1|];
    (split; [intros H | intros (a & b & [= <-] & [= <-] & H)]);
    try done; eauto.
Qed.

Lemma quantize_supported NI :
  getKind NI = QuantizeNodeKind →
  (isOpSupported NI = Some true ↔
     getInElemTy idx NI QuantizeNode_InputIdx = Some FloatTy ∧
     (getOutElemTy idx NI QuantizeNode_ResultIdx = Some Int8QTy ∨
      getOutElemTy idx NI QuantizeNode_ResultIdx = Some Int32QTy)).
Proof.
  intros E. unfold CPUBackend.isOpSupported. rewrite E.
  by rewrite andM_true, isKind_true, orM_true_of_kinds.
Qed.

(** C7. The CPU backend's [isOpSupported] follows the operator table: [Add]
    and [Mul] are supported exactly when all inputs and outputs share one of
    Float, Int8Q, Int32I, Int64I; [Convolution] needs all-Float when its
    input is not quantized and otherwise Int8Q everywhere but for the bias,
    which is Int8Q or Int32Q; [Log], [Tanh], [Sigmoid] need all-Float;
    [Quantize] takes Float to Int8Q or Int32Q; [Dequantize] takes Int8Q to
    Float; a kind outside the switch is not supported; and the predicate
    has a value unless a slot it looks up does not exist. *)
Theorem isOpSupported_table NI :
  (getKind NI = AddNodeKind ∨ getKind NI = MulNodeKind →
     decides (isOpSupported NI)
       (allShareOneOf NI [FloatTy; Int8QTy; Int32ITy; Int64ITy])) ∧
  (getKind NI = ConvolutionNodeKind →
     ∀ inputTy, getInTy idx NI ConvolutionNode_InputIdx = Some inputTy →
       (isQuantizedType inputTy = false →
          decides (isOpSupported NI) (allHave NI FloatTy)) ∧
       (isQuantizedType inputTy = true →
          (isOpSupported NI = Some true ↔
             (∀ i t, inTys NI !! i = Some t →
                     i ≠ idx ConvolutionNode_BiasIdx →
                     getElementType t = Int8QTy) ∧
             (∀ t, t ∈ outTys NI → getElementType t = Int8QTy) ∧
             (getInElemTy idx NI ConvolutionNode_BiasIdx = Some Int8QTy ∨
              getInElemTy idx NI ConvolutionNode_BiasIdx = Some Int32QTy)))) ∧
  (getKind NI = LogNodeKind ∨ getKind NI = TanhNodeKind ∨
   getKind NI = SigmoidNodeKind →
     decides (isOpSupported NI) (allHave NI FloatTy)) ∧
  (getKind NI = QuantizeNodeKind →
     (isOpSupported NI = Some true ↔
        getInElemTy idx NI QuantizeNode_InputIdx = Some FloatTy ∧
        (getOutElemTy idx NI QuantizeNode_ResultIdx = Some Int8QTy ∨
         getOutElemTy idx NI QuantizeNode_ResultIdx = Some Int32QTy))) ∧
  (getKind NI = DequantizeNodeKind →
     (isOpSupported NI = Some true ↔
        getInElemTy idx NI DequantizeNode_InputIdx = Some Int8QTy ∧
        getOutElemTy idx NI DequantizeNode_ResultIdx = Some FloatTy)) ∧
  (getKind NI ∉ switchKinds → isOpSupported NI = Some false) ∧
  (isOpSupported NI = None →
     ∃ s, getInElemTy idx NI s = None ∨ getOutElemTy idx NI s = None).
Proof.
  repeat apply conj.
  - intros [E|E]; unfold CPUBackend.isOpSupported; rewrite E;
      apply allSame_allShareOneOf.
  - intros E inputTy Hin. unfold CPUBackend.isOpSupported. rewrite E, Hin.
    split; intros HQ; rewrite HQ; cbn [negb].
    + apply allSame_allHave.
    + rewrite andM_true, allSame_ignoring_input, orM_true_of_kinds.
      naive_solver.
  - intros [E|[E|E]]; unfold CPUBackend.isOpSupported; rewrite E;
      apply allSame_allHave.
  - apply quantize_supported.
  - intros E. unfold CPUBackend.isOpSupported. rewrite E.
    by rewrite andM_true, !isKind_true.
  - intros Hout. unfold CPUBackend.isOpSupported.
    destruct (getKind NI); try reflexivity;
      exfalso; apply Hout; apply (bool_decide_unpack _); vm_compute; exact I.
  - apply isOpSupported_None.
Qed.

(** C10. Instruction verification accepts a [QuantizeInst] exactly when its
    destination is Int8Q, its source is Float and both have the same
    dimensions, and a [DequantizeInst] exactly when its source is Int8Q, its
    destination is Float and the dimensions agree.  So a quantization from
    Float to Int32Q, which [isOpSupported] accepts for the node, is rejected
    for the instruction. *)
Theorem quantize_verification :
  (∀ I, QuantizeInst_verify I = true ↔
     ∃ dest src, getOperand I 0 = Some dest ∧ getOperand I 1 = Some src ∧
       getElementType (getType dest.1) = Int8QTy ∧
       getElementType (getType src.1) = FloatTy ∧
       dims (getType dest.1) = dims (getType src.1)) ∧
  (∀ I, DequantizeInst_verify I = true ↔
     ∃ dest src, getOperand I 0 = Some dest ∧ getOperand I 1 = Some src ∧
       getElementType (getType dest.1) = FloatTy ∧
       getElementType (getType src.1) = Int8QTy ∧
       dims (getType dest.1) = dims (getType src.1)) ∧
  (∀ NI I inTy outTy dest src,
     getKind NI = QuantizeNodeKind →
     inTys NI !! idx QuantizeNode_InputIdx = Some inTy →
     outTys NI !! idx QuantizeNode_ResultIdx = Some outTy →
     getElementType inTy = FloatTy →
     getElementType outTy = Int32QTy →
     getOperand I 0 = Some dest → getType dest.1 = outTy →
     getOperand I 1 = Some src → getType src.1 = inTy →
     isOpSupported NI = Some true ∧ QuantizeInst_verify I = false).
Proof.
  repeat apply conj.
  - intros I. unfold QuantizeInst_verify. rewrite verify2_true.
    unfold checkType, checkSameDims.
    split; intros (dest & src & H0 & H1 & H); exists dest, src;
      repeat split; try done.
    + apply andb_true_iff in H as [H _]. apply andb_true_iff in H as [H _].
      by apply bool_decide_eq_true in H.
    + apply andb_true_iff in H as [H _]. apply andb_true_iff in H as [_ H].
      by apply bool_decide_eq_true in H.
    + apply andb_true_iff in H as [_ H]. by apply bool_decide_eq_true in H.
    + destruct H as (Hd & Hs & Hdims).
      by rewrite !bool_decide_true.
  - intros I. unfold DequantizeInst_verify. rewrite verify2_true.
    unfold checkType, checkSameDims.
    split; intros (dest & src & H0 & H1 & H); exists dest, src;
      repeat split; try done.
    + apply andb_true_iff in H as [H _]. apply andb_true_iff in H as [H _].
      by apply bool_decide_eq_true in H.
    + apply andb_true_iff in H as [H _]. apply andb_true_iff in H as [_ H].
      by apply bool_decide_eq_true in H.
    + apply andb_true_iff in H as [_ H]. by apply bool_decide_eq_true in H.
    + destruct H as (Hd & Hs & Hdims).
      by rewrite !bool_decide_true.
  - intros NI I inTy outTy dest src HK Hin Hout HF HQ Hd Hdt Hs Hst. split.
    + apply (quantize_supported NI HK). unfold getInElemTy, getOutElemTy.
      rewrite Hin, Hout. simpl. rewrite HF, HQ. auto.
    + unfold QuantizeInst_verify, verify2. rewrite Hd, Hs.
      unfold checkType. rewrite Hdt, HQ. done.
Qed.

End OperatorTable.

(** ** The host manager, one call at a time *)

Section HostManagerFacts.

Import Runtime.

Variable ext : Externals.

(** *** Memory counters *)

Lemma wrap64_idemp_add a b : wrap64 (wrap64 a + b) = wrap64 (a + b).
Proof. unfold wrap64. apply Zplus_mod_idemp_l. Qed.

Lemma wrap64_range z : 0 ≤ wrap64 z < 2 ^ 64.
Proof. unfold wrap64. apply Z.mod_pos_bound. lia. Qed.

Lemma wrap64_small z : 0 ≤ z < 2 ^ 64 → wrap64 z = z.
Proof. unfold wrap64. apply Z.mod_small. Qed.

Lemma sum_memory (devs : list DeviceManager) m0 a0 :
  foldl (fun '(maxMem, availableMem) dev =>
           (wrap64 (maxMem + getMaximumMemory dev),
            wrap64 (availableMem + getAvailableMemory dev)))
        (wrap64 m0, wrap64 a0) devs =
  (wrap64 (m0 + total getMaximumMemory devs),
   wrap64 (a0 + total getAvailableMemory devs)).
Proof.
  revert m0 a0. induction devs as [|dev devs IH]; intros m0 a0; simpl.
  - by rewrite !Z.add_0_r.
  - rewrite !wrap64_idemp_add, IH. f_equal; f_equal; lia.
Qed.

(** The device managers that a loop over [devices_] visits are the entries
    of the map, each once; the order does not matter for a sum. *)
Lemma deviceList_Permutation hm :
  deviceList hm ≡ₚ (map_to_list (devices_ hm)).*2.
Proof. unfold deviceList. by rewrite merge_sort_Permutation. Qed.

Lemma elem_of_deviceList hm dev :
  dev ∈ deviceList hm ↔ ∃ k, devices_ hm !! k = Some dev.
Proof.
  rewrite deviceList_Permutation, list_elem_of_fmap. split.
  - intros ([k d] & -> & Hin). exists k. by apply elem_of_map_to_list.
  - intros [k Hk]. exists (k, dev). split; [done|].
    by apply elem_of_map_to_list.
Qed.

(** The loop visits the devices by ascending id, as the iteration of an
    ordered map does. *)
Lemma deviceList_ascending hm :
  ∃ entries : list (DeviceIDTy * DeviceManager),
    deviceList hm = entries.*2 ∧
    entries ≡ₚ map_to_list (devices_ hm) ∧
    StronglySorted (fun a b => (a.1 < b.1)%N) entries.
Proof.
  exists (merge_sort byDeviceID (map_to_list (devices_ hm))).
  split; [done|]. split; [apply merge_sort_Permutation|].
  assert (Hkeys : NoDup (merge_sort byDeviceID (map_to_list (devices_ hm))).*1).
  { rewrite merge_sort_Permutation. apply NoDup_fst_map_to_list. }
  assert (Hsorted : StronglySorted byDeviceID
            (merge_sort byDeviceID (map_to_list (devices_ hm)))).
  { apply Sorted_StronglySorted.
    - intros a b c Hab Hbc. unfold byDeviceID in *. lia.
    - apply Sorted_merge_sort. intros a b. unfold byDeviceID. lia. }
  induction Hsorted as [|a l _ IH Hall]; [constructor|].
  rewrite fmap_cons in Hkeys. apply NoDup_cons in Hkeys as [Hfresh Hkeys].
  constructor; [by apply IH|].
  rewrite Forall_forall in Hall |- *. intros b Hb.
  pose proof (Hall b Hb) as Hle. unfold byDeviceID in Hle.
  apply N.le_neq. split; [exact Hle|].
  intros Heq. apply Hfresh. apply list_elem_of_fmap. by exists b.
Qed.

Lemma total_Permutation f (l1 l2 : list DeviceManager) :
  l1 ≡ₚ l2 → total f l1 = total f l2.
Proof.
  unfold total. induction 1 as [|x l1 l2 _ IH|x y l|l1 l2 l3 _ IH1 _ IH2];
    simpl; lia.
Qed.

Lemma total_devices f hm :
  total f (deviceList hm) = sumOver f (devices_ hm).
Proof.
  rewrite (total_Permutation f _ _ (deviceList_Permutation hm)).
  unfold sumOver. rewrite map_fold_foldr. unfold total.
  induction (map_to_list (devices_ hm)) as [|[k d] l IH]; [done|].
  cbn. f_equal. exact IH.
Qed.

(** The relation the three memory counters are left in. *)
Lemma exportMemoryCounters_counters hm :
  let reg := statsExporterRegistry_ (exportMemoryCounters hm) in
  reg kDeviceMemoryMax =
    wrap64 (total getMaximumMemory (deviceList hm)) ∧
  reg kDeviceMemoryAvailable =
    wrap64 (total getAvailableMemory (deviceList hm)) ∧
  reg kDeviceMemoryUsed =
    wrap64 (reg kDeviceMemoryMax - reg kDeviceMemoryAvailable).
Proof.
  unfold exportMemoryCounters.
  change (0, 0) with (wrap64 0, wrap64 0). rewrite sum_memory. simpl.
  unfold setCounter. simpl. done.
Qed.

Lemma exportMemoryCounters_balanced hm :
  balanced (statsExporterRegistry_ (exportMemoryCounters hm)).
Proof.
  destruct (exportMemoryCounters_counters hm) as (Hmax & Havail & Hused).
  simpl in *. unfold balanced. rewrite Hused.
  set (m := statsExporterRegistry_ (exportMemoryCounters hm) kDeviceMemoryMax) in *.
  set (a := statsExporterRegistry_ (exportMemoryCounters hm) kDeviceMemoryAvailable) in *.
  assert (0 ≤ m < 2 ^ 64) as Hm by (rewrite Hmax; apply wrap64_range).
  assert (0 ≤ a < 2 ^ 64) as Ha by (rewrite Havail; apply wrap64_range).
  split.
  - rewrite wrap64_idemp_add. replace (m - a + a) with m by lia.
    by apply wrap64_small.
  - intros Hle. rewrite wrap64_small; lia.
Qed.

Lemma exportMemoryCounters_exact hm :
  (∀ dev, dev ∈ deviceList hm →
     0 ≤ getAvailableMemory dev ≤ getMaximumMemory dev) →
  total getMaximumMemory (deviceList hm) < 2 ^ 64 →
  let reg := statsExporterRegistry_ (exportMemoryCounters hm) in
  reg kDeviceMemoryMax = total getMaximumMemory (deviceList hm) ∧
  reg kDeviceMemoryAvailable = total getAvailableMemory (deviceList hm) ∧
  reg kDeviceMemoryUsed + reg kDeviceMemoryAvailable = reg kDeviceMemoryMax.
Proof.
  intros Hdev Hfit.
  assert (0 ≤ total getAvailableMemory (deviceList hm)
            ≤ total getMaximumMemory (deviceList hm)) as Hsum.
  { clear Hfit. induction (deviceList hm) as [|dev devs IH]; simpl; [lia|].
    assert (0 ≤ getAvailableMemory dev ≤ getMaximumMemory dev)
      by (apply Hdev; left).
    assert (0 ≤ total getAvailableMemory devs ≤ total getMaximumMemory devs).
    { apply IH. intros d Hd. apply Hdev. by right. }
    lia. }
  destruct (exportMemoryCounters_counters hm) as (Hmax & Havail & Hused).
  destruct (exportMemoryCounters_balanced hm) as [_ Hexact].
  simpl in *. rewrite wrap64_small in Hmax by lia.
  rewrite wrap64_small in Havail by lia.
  split; [done|]. split; [done|]. apply Hexact. lia.
Qed.

(** *** Which fields the helpers leave alone *)

Lemma exportMemoryCounters_fields hm :
  let hm' := exportMemoryCounters hm in
  config_ hm' = config_ hm ∧ networks_ hm' = networks_ hm ∧
  processingNetworks_ hm' = processingNetworks_ hm ∧
  devices_ hm' = devices_ hm ∧ inferQueue_ hm' = inferQueue_ hm ∧
  activeRequestCount_ hm' = activeRequestCount_ hm ∧
  totalRequestCount_ hm' = totalRequestCount_ hm ∧
  provisioner_ hm' = provisioner_ hm ∧ executor_ hm' = executor_ hm.
Proof.
  unfold exportMemoryCounters. simpl.
  destruct (foldl _ _ _). simpl. done.
Qed.

Lemma cleanupAddNetwork_fields hm names :
  let hm' := cleanupAddNetwork hm names in
  config_ hm' = config_ hm ∧ networks_ hm' = networks_ hm ∧
  devices_ hm' = devices_ hm ∧ inferQueue_ hm' = inferQueue_ hm ∧
  activeRequestCount_ hm' = activeRequestCount_ hm ∧
  totalRequestCount_ hm' = totalRequestCount_ hm ∧
  provisioner_ hm' = provisioner_ hm ∧ executor_ hm' = executor_ hm.
Proof.
  unfold cleanupAddNetwork. simpl.
  destruct (exportMemoryCounters_fields
              (foldl (fun h nm => with_processing (fun p => p ∖ {[nm]}) h) hm names))
    as (-> & -> & _ & -> & -> & -> & -> & -> & ->).
  clear. revert hm. induction names as [|nm names IH]; intros hm; simpl; [done|].
  destruct (IH (with_processing (fun p => p ∖ {[nm]}) hm))
    as (-> & -> & -> & -> & -> & -> & -> & ->). done.
Qed.

Lemma cleanupAddNetwork_processing hm names :
  processingNetworks_ (cleanupAddNetwork hm names) =
  processingNetworks_ hm ∖ list_to_set names.
Proof.
  unfold cleanupAddNetwork.
  destruct (exportMemoryCounters_fields
              (foldl (fun h nm => with_processing (fun p => p ∖ {[nm]}) h) hm names))
    as (_ & _ & -> & _).
  revert hm. induction names as [|nm names IH]; intros hm; simpl.
  - set_solver.
  - rewrite IH. simpl. set_solver.
Qed.

Lemma evictNode_fields acc node :
  let hm := acc.2 in
  let hm' := (evictNode ext acc node).2 in
  config_ hm' = config_ hm ∧ networks_ hm' = networks_ hm ∧
  processingNetworks_ hm' = processingNetworks_ hm ∧
  inferQueue_ hm' = inferQueue_ hm ∧
  activeRequestCount_ hm' = activeRequestCount_ hm ∧
  totalRequestCount_ hm' = totalRequestCount_ hm ∧
  statsExporterRegistry_ hm' = statsExporterRegistry_ hm ∧
  executor_ hm' = executor_ hm.
Proof.
  unfold evictNode. simpl.
  assert (∀ devs acc,
    let r := foldl (fun '(err, hm) device =>
               let '(evictErr, devs') :=
                 evictFunctionOn ext (devices_ hm) (name node) device in
               (OneErrOnly_set err evictErr,
                with_provisioner (fun p => p ++ [evictFunction (name node) device])
                  (with_devices (fun _ => devs') hm))) acc devs in
    config_ r.2 = config_ acc.2 ∧ networks_ r.2 = networks_ acc.2 ∧
    processingNetworks_ r.2 = processingNetworks_ acc.2 ∧
    inferQueue_ r.2 = inferQueue_ acc.2 ∧
    activeRequestCount_ r.2 = activeRequestCount_ acc.2 ∧
    totalRequestCount_ r.2 = totalRequestCount_ acc.2 ∧
    statsExporterRegistry_ r.2 = statsExporterRegistry_ acc.2 ∧
    executor_ r.2 = executor_ acc.2) as Hloop.
  { clear. intros devs. induction devs as [|d devs IH]; intros [err hm]; simpl; [done|].
    destruct (evictFunctionOn ext (devices_ hm) (name node) d) as [evictErr devs'].
    specialize (IH (OneErrOnly_set err evictErr,
                with_provisioner (fun p => p ++ [evictFunction (name node) d])
                  (with_devices (fun _ => devs') hm))).
    simpl in IH. destruct IH as (-> & -> & -> & -> & -> & -> & -> & ->). done. }
  specialize (Hloop (deviceRuntimeInfos node) acc). simpl in Hloop.
  destruct (foldl _ acc (deviceRuntimeInfos node)) as [err hm1]. simpl in *.
  done.
Qed.

Lemma evictNodes_fields nodes acc :
  let hm := acc.2 in
  let hm' := (foldl (evictNode ext) acc nodes).2 in
  config_ hm' = config_ hm ∧ networks_ hm' = networks_ hm ∧
  processingNetworks_ hm' = processingNetworks_ hm ∧
  inferQueue_ hm' = inferQueue_ hm ∧
  activeRequestCount_ hm' = activeRequestCount_ hm ∧
  totalRequestCount_ hm' = totalRequestCount_ hm ∧
  statsExporterRegistry_ hm' = statsExporterRegistry_ hm ∧
  executor_ hm' = executor_ hm.
Proof.
  revert acc. induction nodes as [|node nodes IH]; intros acc; simpl; [done|].
  destruct (IH (evictNode ext acc node)) as (-> & -> & -> & -> & -> & -> & -> & ->).
  apply evictNode_fields.
Qed.

(** *** removeNetwork *)

Lemma removeNetwork_busy networkName hm network :
  networks_ hm !! networkName = Some network →
  networkName ∈ processingNetworks_ hm ∨ refcount network ≠ 0 →
  ∃ msg, removeNetwork ext networkName hm =
           (MAKE_ERR RUNTIME_NET_BUSY msg, hm).
Proof.
  intros Hnet Hbusy. unfold removeNetwork. rewrite Hnet.
  case_bool_decide; [eauto|]. case_bool_decide; [eauto|]. naive_solver.
Qed.

Lemma removeNetwork_erases networkName hm network :
  networks_ hm !! networkName = Some network →
  networkName ∉ processingNetworks_ hm → refcount network = 0 →
  ∃ err hm1,
    removeNetwork ext networkName hm = (err, exportMemoryCounters hm1) ∧
    networks_ hm1 = delete networkName (networks_ hm) ∧
    inferQueue_ hm1 = inferQueue_ hm ∧
    executor_ hm1 = executor_ hm ++ [freePool (root (dag network))] ∧
    totalRequestCount_ hm1 = totalRequestCount_ hm.
Proof.
  intros Hnet Hproc Href. unfold removeNetwork. rewrite Hnet.
  rewrite bool_decide_false by done. rewrite bool_decide_false by naive_solver.
  pose proof (evictNodes_fields (nodes (dag network))
    (success, with_executor (fun e => e ++ [freePool (root (dag network))]) hm))
    as Hf. simpl in Hf.
  destruct (foldl (evictNode ext) _ (nodes (dag network))) as [err hm1].
  simpl in Hf. destruct Hf as (_ & Hn & _ & Hq & _ & Ht & _ & He).
  eexists _, _. split; [reflexivity|]. simpl. by rewrite Hn, Hq, He, Ht.
Qed.

Lemma removeNetwork_networks networkName hm :
  let hm' := (removeNetwork ext networkName hm).2 in
  (networks_ hm' = networks_ hm ∨
   ∃ network, networks_ hm !! networkName = Some network ∧
              refcount network = 0 ∧
              networks_ hm' = delete networkName (networks_ hm)) ∧
  inferQueue_ hm' = inferQueue_ hm ∧
  totalRequestCount_ hm' = totalRequestCount_ hm.
Proof.
  simpl. destruct (networks_ hm !! networkName) as [network|] eqn:Hnet.
  - destruct (decide (networkName ∈ processingNetworks_ hm)) as [Hp|Hp].
    { destruct (removeNetwork_busy _ _ _ Hnet (or_introl Hp)) as [msg ->]. auto. }
    destruct (decide (refcount network = 0)) as [Hr|Hr].
    2: { destruct (removeNetwork_busy _ _ _ Hnet (or_intror Hr)) as [msg ->]. auto. }
    destruct (removeNetwork_erases _ _ _ Hnet Hp Hr)
      as (err & hm1 & -> & Hn & Hq & _ & Ht).
    simpl. destruct (exportMemoryCounters_fields hm1)
      as (_ & -> & _ & _ & -> & _ & -> & _).
    split; [right; eauto | done].
  - unfold removeNetwork. rewrite Hnet. auto.
Qed.

Lemma removeNetwork_absent networkName hm :
  networks_ hm !! networkName = None →
  removeNetwork ext networkName hm = (success, hm).
Proof. intros Hnet. unfold removeNetwork. by rewrite Hnet. Qed.

(** C8. Removing a name that is not in the registry succeeds and changes
    nothing in the host manager: no pool is freed, nothing is evicted, no
    counter is written. *)
Theorem removeNetwork_unknown networkName hm :
  networks_ hm !! networkName = None →
  removeNetwork ext networkName hm = (success, hm).
Proof. apply removeNetwork_absent. Qed.

(** *** init *)

Lemma initDevices_outcome configs deviceCount hm :
  match initDevices ext configs deviceCount hm with
  | Next _ _ => True
  | Return e _ => isErr e = true
  | Undefined => False
  end.
Proof.
  revert deviceCount hm. induction configs as [|config configs IH];
    intros deviceCount hm; simpl; [done|].
  unfold bind, modify, RETURN_IF_ERR. simpl.
  destruct (isErr (dmInit _)) eqn:Herr; simpl; [done|]. apply IH.
Qed.

Lemma init_success configs hm hm' :
  runBody (init ext configs) hm = Some (success, hm') →
  ∃ hm1, hm' = exportMemoryCounters hm1.
Proof.
  unfold runBody, init, bind, modify, ret.
  pose proof (initDevices_outcome configs 0%N hm) as Hout.
  destruct (initDevices ext configs 0%N hm) as [[] hm1|e hm1|]; simpl.
  - intros [= <-]. eauto.
  - intros [= -> <-]. done.
  - done.
Qed.

(** What the wrap-around does to the balance: the three counters add up in
    the integers exactly when the available memory is not above the
    maximum. *)
Lemma exportMemoryCounters_wraps hm :
  let reg := statsExporterRegistry_ (exportMemoryCounters hm) in
  reg kDeviceMemoryUsed + reg kDeviceMemoryAvailable = reg kDeviceMemoryMax ↔
  reg kDeviceMemoryAvailable ≤ reg kDeviceMemoryMax.
Proof.
  destruct (exportMemoryCounters_counters hm) as (Hmax & Havail & Hused).
  destruct (exportMemoryCounters_balanced hm) as [_ Hexact].
  simpl in *.
  set (m := statsExporterRegistry_ (exportMemoryCounters hm) kDeviceMemoryMax) in *.
  set (a := statsExporterRegistry_ (exportMemoryCounters hm) kDeviceMemoryAvailable) in *.
  set (u := statsExporterRegistry_ (exportMemoryCounters hm) kDeviceMemoryUsed) in *.
  assert (0 ≤ m < 2 ^ 64) as Hm by (rewrite Hmax; apply wrap64_range).
  assert (0 ≤ a < 2 ^ 64) as Ha by (rewrite Havail; apply wrap64_range).
  assert (0 ≤ u < 2 ^ 64) as Hu by (rewrite Hused; apply wrap64_range).
  split; [lia | exact Hexact].
Qed.

(** C9, as the code has it.  Whenever [exportMemoryCounters] has run, the
    maximum and the available memory are the sums over the entries of
    [devices_] and the used memory is their difference, all three in the
    64-bit arithmetic of the counters; there the used and the available
    memory add up to the maximum, and in the integers they do exactly when
    the available memory is not above the maximum (as when every device
    reports no more than it has and the total fits in 64 bits).  This is
    the state after [init], after the cleanup of [addNetwork] and after a
    [removeNetwork] that erases; a [removeNetwork] that erases nothing
    leaves the counters as they were, and they start balanced. *)
Theorem memory_counters_balanced hm :
  (let reg := statsExporterRegistry_ (exportMemoryCounters hm) in
   reg kDeviceMemoryMax = wrap64 (sumOver getMaximumMemory (devices_ hm)) ∧
   reg kDeviceMemoryAvailable =
     wrap64 (sumOver getAvailableMemory (devices_ hm)) ∧
   reg kDeviceMemoryUsed =
     wrap64 (reg kDeviceMemoryMax - reg kDeviceMemoryAvailable) ∧
   wrap64 (reg kDeviceMemoryUsed + reg kDeviceMemoryAvailable)
     = reg kDeviceMemoryMax ∧
   (reg kDeviceMemoryUsed + reg kDeviceMemoryAvailable = reg kDeviceMemoryMax
    ↔ reg kDeviceMemoryAvailable ≤ reg kDeviceMemoryMax)) ∧
  ((∀ k dev, devices_ hm !! k = Some dev →
      0 ≤ getAvailableMemory dev ≤ getMaximumMemory dev) →
   sumOver getMaximumMemory (devices_ hm) < 2 ^ 64 →
   let reg := statsExporterRegistry_ (exportMemoryCounters hm) in
   reg kDeviceMemoryMax = sumOver getMaximumMemory (devices_ hm) ∧
   reg kDeviceMemoryAvailable = sumOver getAvailableMemory (devices_ hm) ∧
   reg kDeviceMemoryUsed + reg kDeviceMemoryAvailable = reg kDeviceMemoryMax) ∧
  (∀ configs hm',
     runBody (init ext configs) hm = Some (success, hm') →
     ∃ hm1, hm' = exportMemoryCounters hm1) ∧
  (∀ names, ∃ hm1, cleanupAddNetwork hm names = exportMemoryCounters hm1) ∧
  (∀ networkName network,
     networks_ hm !! networkName = Some network →
     networkName ∉ processingNetworks_ hm → refcount network = 0 →
     ∃ hm1, (removeNetwork ext networkName hm).2 = exportMemoryCounters hm1) ∧
  (balanced (statsExporterRegistry_ hm) →
   ∀ networkName,
     balanced (statsExporterRegistry_ (removeNetwork ext networkName hm).2)) ∧
  (∀ hostConfig,
     balanced (statsExporterRegistry_ (newHostManager hostConfig))).
Proof.
  split; [|split; [|split; [|split; [|split; [|split]]]]].
  - destruct (exportMemoryCounters_counters hm) as (Hmax & Havail & Hused).
    destruct (exportMemoryCounters_balanced hm) as [Hbal _].
    simpl. rewrite <- !total_devices.
    split; [done|]. split; [done|]. split; [done|]. split; [done|].
    apply exportMemoryCounters_wraps.
  - intros Hdev. rewrite <- !total_devices. apply exportMemoryCounters_exact.
    intros dev [k Hk]%elem_of_deviceList. by apply (Hdev k).
  - intros configs hm' Hinit. by apply init_success in Hinit.
  - intros names. unfold cleanupAddNetwork. eauto.
  - intros networkName network Hnet Hp Hr.
    destruct (removeNetwork_erases _ _ _ Hnet Hp Hr) as (err & hm1 & -> & _).
    simpl. eauto.
  - intros Hbal networkName.
    destruct (networks_ hm !! networkName) as [network|] eqn:Hnet.
    + destruct (decide (networkName ∈ processingNetworks_ hm)) as [Hp|Hp].
      { by destruct (removeNetwork_busy _ _ _ Hnet (or_introl Hp)) as [msg ->]. }
      destruct (decide (refcount network = 0)) as [Hr|Hr].
      2: { by destruct (removeNetwork_busy _ _ _ Hnet (or_intror Hr)) as [msg ->]. }
      destruct (removeNetwork_erases _ _ _ Hnet Hp Hr) as (err & hm1 & -> & _).
      apply exportMemoryCounters_balanced.
    + by rewrite removeNetwork_absent.
  - intros hostConfig. split; [done|]. simpl. lia.
Qed.

(** *** The admission queue *)

Lemma InferRequest_lt_true a b :
  InferRequest_lt a b = true →
  priority a < priority b ∨
  (priority a = priority b ∧ (requestID b < requestID a)%N).
Proof.
  unfold InferRequest_lt. repeat case_bool_decide; naive_solver.
Qed.

Lemma InferRequest_lt_false a b :
  InferRequest_lt a b = false → notBefore b a.
Proof.
  unfold InferRequest_lt, notBefore.
  repeat case_bool_decide; try done; intros _; lia.
Qed.

Lemma takeTop_nonempty q : q ≠ [] → is_Some (takeTop q).
Proof.
  destruct q as [|rq rest]; [done|]. intros _. simpl.
  destruct (takeTop rest) as [[best rest']|]; [|eauto].
  destruct (InferRequest_lt rq best); eauto.
Qed.

Lemma takeTop_Permutation q rq rest :
  takeTop q = Some (rq, rest) → q ≡ₚ rq :: rest.
Proof.
  revert rq rest. induction q as [|x q IH]; intros rq rest; simpl; [done|].
  destruct (takeTop q) as [[best rest']|] eqn:Htop.
  - specialize (IH _ _ eq_refl).
    destruct (InferRequest_lt x best); intros [= <- <-].
    + rewrite IH. apply Permutation_swap.
    + done.
  - intros [= <- <-]. destruct q as [|y q]; [done|].
    simpl in Htop. destruct (takeTop q) as [[? ?]|]; [|done].
    by destruct (InferRequest_lt y _).
Qed.

Lemma takeTop_highest q rq rest :
  takeTop q = Some (rq, rest) → ∀ r, r ∈ rest → notBefore r rq.
Proof.
  revert rq rest. induction q as [|x q IH]; intros rq rest; simpl; [done|].
  destruct (takeTop q) as [[best rest']|] eqn:Htop.
  - specialize (IH _ _ eq_refl).
    destruct (InferRequest_lt x best) eqn:Hlt; intros [= <- <-] r Hr.
    + apply elem_of_cons in Hr as [->|Hr]; [|by apply IH].
      apply InferRequest_lt_true in Hlt. unfold notBefore. lia.
    + apply InferRequest_lt_false in Hlt.
      apply (takeTop_Permutation _ _ _) in Htop. rewrite Htop in Hr.
      apply elem_of_cons in Hr as [->|Hr]; [done|].
      specialize (IH r Hr). unfold notBefore in *. lia.
  - intros [= <- <-] r Hr. by apply elem_of_nil in Hr.
Qed.





(** *** Rules for bodies with early returns *)

Lemma hoare_ret {A} (P : HostManager → Prop) (a : A) Q E :
  (∀ hm, P hm → Q a hm) → hoare P (ret a) Q E.
Proof. intros H hm HP. simpl. auto. Qed.

Lemma hoare_bind {A B} P (m : M A) (k : A → M B) R Q E :
  hoare P m R E → (∀ a, hoare (R a) (k a) Q E) → hoare P (bind m k) Q E.
Proof.
  intros Hm Hk hm HP. unfold bind. specialize (Hm hm HP).
  destruct (m hm) as [a hm1|e hm1|]; [|done|done]. by apply Hk.
Qed.

Lemma hoare_get P E : hoare P get (fun a hm => a = hm ∧ P hm) E.
Proof. intros hm HP. simpl. auto. Qed.

Lemma hoare_modify (P : HostManager → Prop) f Q E :
  (∀ hm, P hm → Q tt (f hm)) → hoare P (modify f) Q E.
Proof. intros H hm HP. simpl. auto. Qed.

Lemma hoare_returnErr {A} (P : HostManager → Prop) e (Q : A → _) (E : Error → _) :
  (∀ hm, P hm → E e hm) → hoare P (returnErr e) Q E.
Proof. intros H hm HP. simpl. auto. Qed.

Lemma hoare_undefined {A} P (Q : A → _) E : hoare P undefined Q E.
Proof. by intros hm HP. Qed.

Lemma hoare_consequence {A} (P P' : HostManager → Prop) (m : M A)
    (Q Q' : A → _) (E E' : Error → _) :
  hoare P' m Q' E' →
  (∀ hm, P hm → P' hm) → (∀ a hm, Q' a hm → Q a hm) →
  (∀ e hm, E' e hm → E e hm) → hoare P m Q E.
Proof.
  intros Hm HP HQ HE hm Hhm. specialize (Hm hm (HP _ Hhm)).
  destruct (m hm); auto.
Qed.

Lemma hoare_RETURN_IF_ERR (P : HostManager → Prop) e Q (E : Error → _) :
  (isErr e = true → ∀ hm, P hm → E e hm) →
  (isErr e = false → ∀ hm, P hm → Q tt hm) →
  hoare P (RETURN_IF_ERR e) Q E.
Proof.
  intros HE HQ. unfold RETURN_IF_ERR. destruct (isErr e).
  - apply hoare_returnErr. auto.
  - apply hoare_ret. auto.
Qed.

Lemma hoare_RETURN_ERR_IF_NOT (P : HostManager → Prop) cond msg Q (E : Error → _) :
  (cond = false → ∀ hm, P hm → E (MAKE_ERR UNKNOWN msg) hm) →
  (cond = true → ∀ hm, P hm → Q tt hm) →
  hoare P (RETURN_ERR_IF_NOT cond msg) Q E.
Proof.
  intros HE HQ. unfold RETURN_ERR_IF_NOT. destruct cond.
  - apply hoare_ret. auto.
  - apply hoare_returnErr. auto.
Qed.

Lemma hoare_forEach {A} (Inv : HostManager → Prop) (xs : list A) body E :
  (∀ x, x ∈ xs → hoare Inv (body x) (fun _ => Inv) E) →
  hoare Inv (forEach xs body) (fun _ => Inv) E.
Proof.
  induction xs as [|x xs IH]; intros Hbody; simpl.
  - by apply hoare_ret.
  - eapply hoare_bind; [apply Hbody; left|]. intros []. apply IH.
    intros y Hy. apply Hbody. by right.
Qed.

Lemma hoare_seq {A B} P (m : M A) (k : A → M B) (R : HostManager → Prop) Q E :
  hoare P m (fun _ => R) E → (∀ a, hoare R (k a) Q E) →
  hoare P (bind m k) Q E.
Proof. intros Hm Hk. by apply (hoare_bind _ _ _ (fun _ => R)). Qed.

Lemma hoare_after_get {B} P (k : HostManager → M B) Q E :
  (∀ hm, hoare P (k hm) Q E) → hoare P (bind get k) Q E.
Proof. intros Hk hm HP. unfold bind. simpl. by apply Hk. Qed.


(** *** addNetwork *)

(** The pools [addNetwork] asks for: one per DAG, of [maxActiveRequests]
    execution states. *)
Lemma createPools_outcome cctx nodeList hm :
  match createPools ext cctx nodeList hm with
  | Next _ hm' =>
      executor_ hm' = executor_ hm ++
        ((fun node => createPool (root node) (maxActiveRequests (config_ hm))
                        (enableP2P cctx || GlowEnableP2P ext)
                        (enableDRT cctx || GlowEnableDRT ext)) <$> nodeList) ∧
      config_ hm' = config_ hm ∧ networks_ hm' = networks_ hm ∧
      processingNetworks_ hm' = processingNetworks_ hm ∧
      inferQueue_ hm' = inferQueue_ hm ∧
      provisioner_ hm' = provisioner_ hm ∧
      totalRequestCount_ hm' = totalRequestCount_ hm ∧
      executorSet hm' = executorSet hm
  | Return _ _ => False
  | Undefined => executorSet hm = false ∧ nodeList ≠ []
  end.
Proof.
  revert hm. induction nodeList as [|node nodeList IH]; intros hm.
  - simpl. by rewrite app_nil_r.
  - unfold createPools in *. simpl. unfold bind at 1 2. simpl.
    destruct (executorSet hm) eqn:Hset; simpl; [|done].
    unfold bind at 1. simpl.
    match goal with |- context [forEach nodeList ?f ?h] =>
      specialize (IH h); change (forEach nodeList _ h)
        with (forEach nodeList f h) in IH;
      destruct (forEach nodeList f h) as [[] hm'|e hm'|]
    end; [|done|destruct IH as [IH _]; simpl in IH; congruence].
    destruct IH as (He & Hc & Hn & Hp & Hq & Hpr & Ht & Hs).
    rewrite He, Hc, Hn, Hp, Hq, Hpr, Ht, Hs. simpl.
    by rewrite <- app_assoc.
Qed.

Lemma createPools_spec cctx nodeList hm hm' :
  createPools ext cctx nodeList hm = Next tt hm' →
  executor_ hm' = executor_ hm ++
    ((fun node => createPool (root node) (maxActiveRequests (config_ hm))
                    (enableP2P cctx || GlowEnableP2P ext)
                    (enableDRT cctx || GlowEnableDRT ext)) <$> nodeList) ∧
  config_ hm' = config_ hm ∧ networks_ hm' = networks_ hm ∧
  processingNetworks_ hm' = processingNetworks_ hm ∧
  inferQueue_ hm' = inferQueue_ hm ∧
  provisioner_ hm' = provisioner_ hm ∧
  totalRequestCount_ hm' = totalRequestCount_ hm.
Proof.
  intros Hrun. pose proof (createPools_outcome cctx nodeList hm) as Hout.
  rewrite Hrun in Hout. tauto.
Qed.

Lemma poolSizeOf_created calls (nodeList : DAGListTy) poolSize p2p drt node :
  node ∈ nodeList →
  poolSizeOf (calls ++ ((fun node => createPool (root node) poolSize p2p drt)
                          <$> nodeList)) (root node) = Some poolSize.
Proof.
  unfold poolSizeOf. rewrite foldl_app. generalize (foldl
    (fun pool call => match call with
       | createPool r poolSize _ _ =>
           if decide (r = root node) then Some poolSize else pool
       | freePool r => if decide (r = root node) then None else pool
       | _ => pool end) None calls) as acc.
  induction nodeList as [|x nodeList IH] using rev_ind; intros acc Hin.
  - by apply elem_of_nil in Hin.
  - rewrite fmap_app, foldl_app. simpl. case_decide as Hx; [done|].
    apply IH. apply elem_of_app in Hin as [Hin|Hin]; [done|].
    apply list_elem_of_singleton in Hin. by subst.
Qed.

(** [addNetwork] returns early with errors only, and up to the provisioning
    it keeps every property that neither the reserved names, nor the
    devices, nor the counters, nor a fresh provisioner and executor can
    break. *)
Section EarlyPart.

Variable Inv : HostManager → Prop.
Hypothesis Inv_processing : ∀ f hm, Inv hm → Inv (with_processing f hm).
Hypothesis Inv_devices : ∀ f hm, Inv hm → Inv (with_devices f hm).
Hypothesis Inv_stats : ∀ f hm, Inv hm → Inv (with_stats f hm).
Hypothesis Inv_provisioner : ∀ f hm, Inv hm → Inv (with_provisioner f hm).
Hypothesis Inv_resetProvisioner : ∀ hm, Inv hm → Inv (resetProvisioner hm).
Hypothesis Inv_resetExecutor : ∀ hm, Inv hm → Inv (resetExecutor hm).

Local Notation "'failing'" :=
  (fun (e : Error) (hm : HostManager) => isErr e = true ∧ Inv hm).

Lemma Inv_exportMemoryCounters hm : Inv hm → Inv (exportMemoryCounters hm).
Proof.
  intros H. unfold exportMemoryCounters. destruct (foldl _ _ _). by apply Inv_stats.
Qed.

Lemma Inv_cleanupAddNetwork hm names : Inv hm → Inv (cleanupAddNetwork hm names).
Proof.
  intros H. unfold cleanupAddNetwork. apply Inv_exportMemoryCounters.
  revert hm H. induction names as [|nm names IH]; intros hm H; simpl; [done|].
  apply IH. by apply Inv_processing.
Qed.

Lemma reserveNames_early functions names :
  hoare Inv (reserveNames functions names) (fun _ => Inv) failing.
Proof.
  revert names. induction functions as [|fname rest IH]; intros names; simpl.
  - by apply hoare_ret.
  - apply hoare_after_get. intros hm.
    destruct (_ || _).
    + eapply (hoare_seq _ _ _ Inv).
      * apply hoare_modify. intros h Hh. apply (Inv_cleanupAddNetwork _ names Hh).
      * intros []. apply hoare_returnErr. auto.
    + eapply (hoare_seq _ _ _ Inv).
      * apply hoare_modify. intros h Hh. apply (Inv_processing _ _ Hh).
      * intros []. apply IH.
Qed.

Lemma optimizeFunctions_early module cctx names :
  hoare Inv (optimizeFunctions ext module cctx names) (fun _ => Inv) failing.
Proof.
  unfold optimizeFunctions. apply hoare_forEach. intros F _.
  destruct (isErr _) eqn:Herr.
  - eapply (hoare_seq _ _ _ Inv).
    + apply hoare_modify. intros h Hh. apply (Inv_cleanupAddNetwork _ names Hh).
    + intros []. apply hoare_returnErr. auto.
  - by apply hoare_ret.
Qed.

Lemma rebuildDevice_early i :
  hoare Inv (rebuildDevice ext i) (fun _ => Inv) failing.
Proof.
  unfold rebuildDevice. apply hoare_after_get. intros hm.
  destruct (devices_ hm !! i); [|apply hoare_undefined].
  eapply (hoare_seq _ _ _ Inv).
  - apply hoare_modify. intros h Hh. apply (Inv_devices _ _ Hh).
  - intros []. apply hoare_RETURN_IF_ERR; auto.
Qed.

Lemma profilingOverride_early cctx :
  hoare Inv (profilingOverride ext cctx) (fun _ => Inv) failing.
Proof.
  unfold profilingOverride. case_bool_decide; [|by apply hoare_ret].
  apply hoare_after_get. intros hm.
  eapply (hoare_seq _ _ _ Inv).
  { case_bool_decide.
    - apply hoare_returnErr. intros h Hh. split; [done | exact Hh].
    - apply hoare_ret. intros h Hh. exact Hh. }
  intros []. eapply (hoare_seq _ _ _ Inv).
  { apply hoare_forEach. intros i _. apply rebuildDevice_early. }
  intros []. eapply (hoare_seq _ _ _ Inv).
  { apply hoare_modify. intros h Hh. apply (Inv_resetProvisioner _ Hh). }
  intros []. apply hoare_modify. intros h Hh. apply (Inv_resetExecutor _ Hh).
Qed.

Lemma foldConstants_early module cctx nodeList :
  hoare Inv (foldConstants ext module cctx nodeList) (fun _ => Inv) failing.
Proof.
  unfold foldConstants. destruct (delayAndRecordConstantModification cctx);
    [|by apply hoare_ret].
  eapply (hoare_seq _ _ _ Inv).
  { apply hoare_RETURN_ERR_IF_NOT; [intros _ h Hh; split; [done | exact Hh] | intros _ h Hh; exact Hh]. }
  intros []. destruct nodeList as [|dag ?]; [by apply hoare_ret|].
  apply hoare_forEach. intros dagNode _.
  eapply (hoare_seq _ _ _ Inv).
  { apply hoare_RETURN_ERR_IF_NOT; [intros _ h Hh; split; [done | exact Hh] | intros _ h Hh; exact Hh]. }
  intros []. apply hoare_after_get. intros hm.
  eapply (hoare_seq _ _ _ Inv).
  { destruct (provisionerSet hm); [by apply hoare_ret | apply hoare_undefined]. }
  intros [].
  apply hoare_RETURN_ERR_IF_NOT; [intros _ h Hh; split; [done | exact Hh] | intros _ h Hh; exact Hh].
Qed.

Lemma serializeDAG_early cctx nodeList :
  hoare Inv (serializeDAG ext cctx nodeList) (fun _ => Inv) failing.
Proof.
  unfold serializeDAG. destruct (serializeCompiledDAG cctx); [|by apply hoare_ret].
  destruct nodeList as [|[[rootNode|] ?] ?]; try apply hoare_undefined.
  apply hoare_RETURN_IF_ERR; auto.
Qed.

(** [publish] goes on or is undefined; it never returns early. *)
Lemma publish_keeps (Inv2 : HostManager → Prop) sharedModule nodeList names :
  (∀ f hm, Inv2 hm → Inv2 (with_processing f hm)) →
  (∀ f hm, Inv2 hm → Inv2 (with_stats f hm)) →
  (∀ (node : DAG) rootNode hm, Inv2 hm →
     Inv2 (with_networks (fun nets =>
             let networkData := default emptyNetworkData (nets !! name rootNode) in
             <[name rootNode :=
                 {| dag := node; module := Some sharedModule;
                    refcount := refcount networkData |}]> nets) hm)) →
  hoare Inv2 (publish sharedModule nodeList names) (fun _ => Inv2)
    (fun _ _ => False).
Proof.
  intros Hp Hs Hn. unfold publish. eapply (hoare_seq _ _ _ Inv2).
  - apply hoare_forEach. intros node _.
    destruct (root node) as [rootNode|]; [|apply hoare_undefined].
    apply hoare_modify. intros h Hh. by apply Hn.
  - intros []. apply hoare_modify. intros h Hh.
    unfold cleanupAddNetwork, exportMemoryCounters. destruct (foldl _ (0, 0) _).
    apply Hs. clear -Hp Hh. revert h Hh.
    induction names as [|nm names IH]; intros h Hh; simpl; [done|].
    apply IH. by apply Hp.
Qed.

Lemma addNetwork_outcome module cctx :
  hoare Inv (addNetwork ext module cctx)
    (fun e hm' => e = success ∧
       ∃ names nodeList sharedModule hm1 devs hm3,
         Inv hm1 ∧
         createPools ext (mergeBackendOptions ext cctx) nodeList
           (with_provisioner (fun p => p ++ [provision nodeList])
              (with_devices (fun _ => devs) hm1)) = Next tt hm3 ∧
         publish sharedModule nodeList names hm3 = Next tt hm')
    failing.
Proof.
  unfold addNetwork.
  eapply hoare_bind; [apply reserveNames_early|]. intros names. simpl.
  apply hoare_after_get. intros hm0.
  eapply (hoare_seq _ _ _ Inv).
  { destruct (negb _); [apply optimizeFunctions_early | by apply hoare_ret]. }
  intros [].
  destruct (partition ext module _ _ _ _) as [[nodeList|code msg] module'].
  2: { eapply (hoare_seq _ _ _ Inv).
       - apply hoare_modify. intros h Hh. by apply Inv_cleanupAddNetwork.
       - intros []. apply hoare_returnErr. auto. }
  eapply (hoare_seq _ _ _ Inv); [apply profilingOverride_early|]. intros [].
  eapply (hoare_seq _ _ _ Inv); [apply foldConstants_early|]. intros [].
  eapply (hoare_seq _ _ _ Inv); [apply serializeDAG_early|]. intros [].
  apply hoare_after_get. intros hm1'.
  eapply (hoare_seq _ _ _ Inv).
  { destruct (provisionerSet hm1'); [by apply hoare_ret|apply hoare_undefined]. }
  intros [].
  destruct (provisionOn ext _ _ _ _) as [[err nodeList'] devs].
  intros h1 Hh1. unfold bind, modify. simpl.
  destruct (isErr err) eqn:Herr; simpl.
  { split; [done|]. apply Inv_cleanupAddNetwork.
    by apply Inv_provisioner, Inv_devices. }
  pose proof (createPools_outcome (mergeBackendOptions ext cctx) nodeList'
                (with_provisioner (fun p => p ++ [provision nodeList'])
                   (with_devices (fun _ => devs) h1))) as Hpools.
  destruct (createPools ext _ nodeList' _) as [[] hm3|e hm3|] eqn:Hrun;
    [|done|done].
  pose proof (publish_keeps (fun _ => True) module' nodeList' names
                (fun _ _ _ => I) (fun _ _ _ => I) (fun _ _ _ _ => I) hm3 I) as Hpub.
  destruct (publish module' nodeList' names hm3) as [[] hm4|e hm4|] eqn:Hp;
    [|done|done].
  simpl. split; [done|]. eauto 10.
Qed.

End EarlyPart.

(** [addNetwork] reports success only at its end. *)
Lemma addNetwork_success (Inv : HostManager → Prop) module cctx hm hm' :
  (∀ f hm, Inv hm → Inv (with_processing f hm)) →
  (∀ f hm, Inv hm → Inv (with_devices f hm)) →
  (∀ f hm, Inv hm → Inv (with_stats f hm)) →
  (∀ f hm, Inv hm → Inv (with_provisioner f hm)) →
  (∀ hm, Inv hm → Inv (resetProvisioner hm)) →
  (∀ hm, Inv hm → Inv (resetExecutor hm)) →
  Inv hm →
  runBody (addNetwork ext module cctx) hm = Some (success, hm') →
  ∃ names nodeList sharedModule hm1 devs hm3,
    Inv hm1 ∧
    createPools ext (mergeBackendOptions ext cctx) nodeList
      (with_provisioner (fun p => p ++ [provision nodeList])
         (with_devices (fun _ => devs) hm1)) = Next tt hm3 ∧
    publish sharedModule nodeList names hm3 = Next tt hm'.
Proof.
  intros H1 H2 H3 H4 H5 H6 HI Hrun.
  pose proof (addNetwork_outcome Inv H1 H2 H3 H4 H5 H6 module cctx hm HI)
    as Hout.
  unfold runBody in Hrun.
  destruct (addNetwork ext module cctx hm) as [e hm2|e hm2|]; simplify_eq.
  - by destruct Hout as [_ Hout].
  - by destruct Hout as [Herr _].
Qed.

Lemma bind_congr {A B} (m : M A) (k1 k2 : A → M B) hm :
  (∀ a hm', m hm = Next a hm' → k1 a hm' = k2 a hm') →
  bind m k1 hm = bind m k2 hm.
Proof. intros Hk. unfold bind. destruct (m hm); auto. Qed.

Lemma mergeBackendOptions_flags cctx :
  enableP2P (mergeBackendOptions ext cctx) = enableP2P cctx ∧
  enableDRT (mergeBackendOptions ext cctx) = enableDRT cctx.
Proof. unfold mergeBackendOptions. by repeat case_match. Qed.

(** [addNetwork] asks the partitioner for one context count only: what the
    partitioner would answer for another count does not matter. *)
Lemma addNetwork_partition_at module cctx hm partition' :
  (∀ module' deviceInfo skipOptimizations cctx',
     partition' module' deviceInfo skipOptimizations
       (setContextCount cctx hm) cctx'
     = partition ext module' deviceInfo skipOptimizations
         (setContextCount cctx hm) cctx') →
  addNetwork (with_partition partition' ext) module cctx hm
    = addNetwork ext module cctx hm.
Proof.
  intros Hagree. unfold addNetwork.
  assert (hoare (fun h => config_ h = config_ hm)
            (reserveNames (getFunctions module) [])
            (fun _ h => config_ h = config_ hm)
            (fun _ h => config_ h = config_ hm)) as Hres.
  { eapply hoare_consequence;
      [eapply (reserveNames_early (fun h => config_ h = config_ hm))| | |];
      try done. by intros ? ? []. }
  specialize (Hres hm eq_refl).
  apply bind_congr. intros names hm0 Hrun. rewrite Hrun in Hres.
  apply bind_congr. intros ? ? [= <- <-].
  apply bind_congr. intros [] hm1 _.
  change (mergeBackendOptions (with_partition partition' ext) cctx)
    with (mergeBackendOptions ext cctx).
  change (partition (with_partition partition' ext)) with partition'.
  assert (setContextCount (mergeBackendOptions ext cctx) hm0
          = setContextCount cctx hm) as ->.
  { unfold setContextCount.
    destruct (mergeBackendOptions_flags cctx) as [-> ->]. by rewrite Hres. }
  rewrite Hagree. reflexivity.
Qed.

(** C5, as the code has it.  After a successful [addNetwork], the pool of
    every DAG root it provisioned has [maxActiveRequests] execution states,
    whether or not P2P or DRT is enabled.  What depends on the two flags of
    the compilation context is the context count given to the partitioner:
    [maxActiveRequests] when one of them is set and 2 otherwise; it is the
    only count the partitioner is asked about. *)
Theorem addNetwork_pool_size module cctx hm :
  (∀ hm',
     runBody (addNetwork ext module cctx) hm = Some (success, hm') →
     ∃ nodeList,
       last (provisioner_ hm') = Some (provision nodeList) ∧
       ∀ node, node ∈ nodeList →
         poolSizeOf (executor_ hm') (root node)
           = Some (maxActiveRequests (config_ hm))) ∧
  (enableP2P cctx = false → enableDRT cctx = false →
   setContextCount cctx hm = 2) ∧
  (enableP2P cctx = true ∨ enableDRT cctx = true →
   setContextCount cctx hm = maxActiveRequests (config_ hm)) ∧
  (∀ partition',
     (∀ module' deviceInfo skipOptimizations cctx',
        partition' module' deviceInfo skipOptimizations
          (setContextCount cctx hm) cctx'
        = partition ext module' deviceInfo skipOptimizations
            (setContextCount cctx hm) cctx') →
     runBody (addNetwork (with_partition partition' ext) module cctx) hm
       = runBody (addNetwork ext module cctx) hm).
Proof.
  split; [|split; [|split]].
  - intros hm' Hrun.
    destruct (addNetwork_success (fun h => config_ h = config_ hm)
                module cctx hm hm') as
      (names & nodeList & sharedModule & hm1 & devs & hm3 & Hc & Hpools & Hpub);
      try done.
    destruct (createPools_spec _ _ _ _ Hpools)
      as (He & Hc3 & _ & _ & _ & Hpr & _).
    simpl in He, Hc3, Hpr. rewrite Hc in He.
    pose proof (publish_keeps
      (fun h => executor_ h = executor_ hm3 ∧ provisioner_ h = provisioner_ hm3)
      sharedModule nodeList names
      (fun _ _ H => H) (fun _ _ H => H) (fun _ _ _ H => H) hm3
      (conj eq_refl eq_refl)) as Hkeep.
    rewrite Hpub in Hkeep. destruct Hkeep as [He' Hpr'].
    exists nodeList. split.
    + rewrite Hpr', Hpr. apply last_snoc.
    + intros node Hnode. rewrite He', He. by apply poolSizeOf_created.
  - intros Hp2p Hdrt. unfold setContextCount. by rewrite Hp2p, Hdrt.
  - intros Hflag. unfold setContextCount.
    destruct Hflag as [-> | ->]; [done|]. by rewrite orb_true_r.
  - intros partition' Hagree. unfold runBody.
    by rewrite addNetwork_partition_at.
Qed.

End HostManagerFacts.

(** ** The host manager under concurrent calls *)

Section SystemFacts.

Import Runtime.

Variable ext : Externals.

(** *** The ledger *)

Lemma eventsOf_app r events more :
  eventsOf r (events ++ more) = eventsOf r events ++ eventsOf r more.
Proof. apply filter_app. Qed.

Lemma eventsOf_same r events :
  Forall (fun ev => eventRun ev = r) events → eventsOf r events = events.
Proof.
  induction 1 as [|ev events Hev _ IH]; [done|].
  unfold eventsOf in *. rewrite filter_cons. rewrite decide_True by done.
  by rewrite IH.
Qed.

Lemma eventsOf_other r r' events :
  Forall (fun ev => eventRun ev = r') events → r ≠ r' → eventsOf r events = [].
Proof.
  intros Hall Hne. induction Hall as [|ev events Hev _ IH]; [done|].
  unfold eventsOf in *. rewrite filter_cons. rewrite decide_False by congruence.
  done.
Qed.

Lemma holdersIn_app nm es es' :
  holdersIn nm (es ++ es') = (holdersIn nm es + holdersIn nm es')%nat.
Proof. unfold holdersIn. by rewrite filter_app, length_app. Qed.

Lemma holdersIn_cons nm e es :
  holdersIn nm (e :: es) = (holdersIn nm [e] + holdersIn nm es)%nat.
Proof. apply (holdersIn_app nm [e] es). Qed.

Lemma holdersIn_single nm e :
  holdersIn nm [e] =
  if decide (eHeld e = true ∧ eNet e = nm) then 1%nat else 0%nat.
Proof.
  unfold holdersIn. rewrite filter_cons, filter_nil. by case_decide.
Qed.

Lemma holdersIn_not_held nm e : eHeld e = false → holdersIn nm [e] = 0%nat.
Proof.
  intros H. rewrite holdersIn_single. rewrite decide_False; [done|].
  rewrite H. naive_solver.
Qed.

Lemma holdersIn_Permutation nm es es' :
  es ≡ₚ es' → holdersIn nm es = holdersIn nm es'.
Proof. intros H. unfold holdersIn. by rewrite H. Qed.

Lemma ledger_Permutation es es' total events nets :
  es ≡ₚ es' → ledger es total events nets → ledger es' total events nets.
Proof.
  intros Hperm [He Hu Hf Hd Hc]. split.
  - intros e Hin. apply He. by rewrite Hperm.
  - by rewrite <- Hperm.
  - done.
  - intros r Hr. apply Hd. by rewrite Hperm.
  - intros nm. specialize (Hc nm). by rewrite <- (holdersIn_Permutation nm _ _ Hperm).
Qed.

(** A new run: [runNetwork] takes the next identifier. *)
Lemma ledger_spawn es total events nets nm :
  ledger es total events nets →
  ledger ({| eRun := total; eNet := nm; eHeld := false; eEvents := [] |} :: es)
         (N.succ total) events nets.
Proof.
  intros [He Hu Hf Hd Hc]. split.
  - intros e Hin. apply elem_of_cons in Hin as [->|Hin]; simpl.
    + split; [lia|]. apply Hf. lia.
    + destruct (He e Hin). split; [lia | done].
  - rewrite fmap_cons. simpl. constructor; [|done].
    intros Hin. apply list_elem_of_fmap in Hin as (e & Hr & Hin).
    destruct (He e Hin). lia.
  - intros r Hr. apply Hf. lia.
  - intros r Hr. rewrite fmap_cons in Hr. apply not_elem_of_cons in Hr as [_ Hr].
    by apply Hd.
  - intros nm'. specialize (Hc nm'). rewrite holdersIn_cons.
    rewrite holdersIn_not_held by done. simpl.
    destruct (nets !! nm'); done.
Qed.

(** A run moves on: its entry is replaced ([Some]) or, when its callback
    has been invoked, dropped ([None]); the new events are all its own, and
    the count of its network moves with the references the entry holds. *)
Lemma ledger_change e new es total events more nets nets' :
  ledger (e :: es) total events nets →
  Forall (fun ev => eventRun ev = eRun e) more →
  match new with
  | Some e' => eRun e' = eRun e ∧ eEvents e' = eEvents e ++ more
  | None => concluded (eRun e) (eEvents e ++ more)
  end →
  (∀ nm, match nets !! nm, nets' !! nm with
         | Some network, Some network' =>
             refcount network' =
               refcount network + Z.of_nat (holdersIn nm (option_list new))
                                - Z.of_nat (holdersIn nm [e])
         | None, None => holdersIn nm (option_list new) = 0%nat
         | _, _ => False
         end) →
  ledger (option_list new ++ es) total (events ++ more) nets'.
Proof.
  intros [He Hu Hf Hd Hc] Hmore Hnew Hnets.
  rewrite fmap_cons in Hu. apply NoDup_cons in Hu as [Hfresh Hu].
  destruct (He e) as [Hlt Hev]; [left|].
  assert (∀ x, x ∈ es → eRun x ≠ eRun e) as Hother.
  { intros x Hx Heq. apply Hfresh. apply list_elem_of_fmap. eauto. }
  split.
  - intros x Hin. apply elem_of_app in Hin as [Hin|Hin].
    + destruct new as [e'|]; simpl in Hin; [|by apply elem_of_nil in Hin].
      apply list_elem_of_singleton in Hin as ->. destruct Hnew as [Hr Hevs].
      rewrite Hr. split; [done|].
      by rewrite eventsOf_app, Hev, (eventsOf_same _ more), Hevs.
    + destruct (He x) as [Hxlt Hxev]; [by right|]. split; [done|].
      rewrite eventsOf_app, Hxev, (eventsOf_other _ (eRun e) more); try done.
      * by rewrite app_nil_r.
      * by apply Hother.
  - rewrite fmap_app. destruct new as [e'|]; simpl; [|done].
    destruct Hnew as [-> _]. by constructor.
  - intros r Hr. rewrite eventsOf_app, (Hf r Hr).
    rewrite (eventsOf_other _ (eRun e) more); [done|done|lia].
  - intros r Hr. rewrite eventsOf_app. destruct (decide (r = eRun e)) as [->|Hne].
    + destruct new as [e'|]; simpl in *.
      * exfalso. destruct Hnew as [Heq _]. rewrite Heq in Hr. apply Hr. left.
      * right. by rewrite Hev, (eventsOf_same _ more).
    + rewrite (eventsOf_other _ (eRun e) more), app_nil_r by done.
      apply Hd. rewrite fmap_cons. apply not_elem_of_cons. split; [done|].
      rewrite fmap_app in Hr. apply not_elem_of_app in Hr. tauto.
  - intros nm. specialize (Hc nm). specialize (Hnets nm).
    rewrite holdersIn_cons in Hc. rewrite holdersIn_app.
    destruct (nets !! nm), (nets' !! nm); try done; lia.
Qed.

(** The registry changes, but no count of a referenced network does. *)
Lemma ledger_registry es total events nets nets' :
  ledger es total events nets →
  (∀ nm, refcount <$> nets' !! nm = refcount <$> nets !! nm ∨
         (default 0 (refcount <$> nets !! nm) = 0 ∧
          default 0 (refcount <$> nets' !! nm) = 0)) →
  ledger es total events nets'.
Proof.
  intros [He Hu Hf Hd Hc] Hnets. split; try done.
  intros nm. specialize (Hc nm). specialize (Hnets nm).
  destruct (nets !! nm) as [n|], (nets' !! nm) as [n'|]; simpl in *;
    destruct Hnets as [Heq|[H0 H0']]; simplify_eq; try lia.
Qed.

(** *** Every step keeps the ledger *)

Lemma entries_split (s : System) before th after :
  threads s = before ++ th :: after →
  entries s ≡ₚ
    option_list (threadEntry th) ++
    (omap threadEntry (before ++ after) ++
     (heldEntry <$> inferQueue_ (host s))).
Proof.
  intros Hth. unfold entries. rewrite Hth, !omap_app. simpl.
  destruct (threadEntry th); simpl; solve_Permutation.
Qed.

Lemma atRest_consistent s : atRest s → consistent s.
Proof.
  intros (Hth & Htr & Hq & Hnets). unfold consistent, entries.
  rewrite Hth, Hq, Htr. simpl. split.
  - intros e He. by apply elem_of_nil in He.
  - constructor.
  - done.
  - by left.
  - intros nm. destruct (networks_ (host s) !! nm) as [network|] eqn:Hnm; [|done].
    by rewrite (Hnets _ _ Hnm).
Qed.

Lemma hoare_stateAfter {A} (P Q : HostManager → Prop) (m : M A) hm hm' :
  hoare P m (fun _ => Q) (fun _ => Q) → P hm →
  stateAfter (m hm) = Some hm' → Q hm'.
Proof.
  intros Hm HP Hs. specialize (Hm hm HP).
  destruct (m hm); simplify_eq; simpl in *; by simplify_eq.
Qed.

(** What a section of [addNetwork] or [clearHost] can do to the queue, to
    the request counter and to the registry: it may add entries without
    references, and it keeps the count of every entry. *)
Lemma hostSection_frame hm hm' :
  hostSection ext hm hm' →
  inferQueue_ hm' = inferQueue_ hm ∧
  totalRequestCount_ hm' = totalRequestCount_ hm ∧
  ∀ nm, refcount <$> networks_ hm' !! nm = refcount <$> networks_ hm !! nm ∨
        (networks_ hm !! nm = None ∧
         refcount <$> networks_ hm' !! nm = Some 0).
Proof.
  set (same := fun h : HostManager =>
    inferQueue_ h = inferQueue_ hm ∧
    totalRequestCount_ h = totalRequestCount_ hm ∧
    networks_ h = networks_ hm).
  assert (∀ h, same h →
    inferQueue_ h = inferQueue_ hm ∧
    totalRequestCount_ h = totalRequestCount_ hm ∧
    ∀ nm, refcount <$> networks_ h !! nm = refcount <$> networks_ hm !! nm ∨
          (networks_ hm !! nm = None ∧
           refcount <$> networks_ h !! nm = Some 0)) as Hsame.
  { intros h (-> & -> & ->). auto. }
  assert (same hm) as H0 by done.
  intros Hsec. destruct Hsec as
    [hm functions hm' Hs | hm names | hm cctx hm' Hs | hm nodeList devs
    | hm cctx nodeList hm' Hs | hm sharedModule nodeList names hm' Hs | hm].
  - apply Hsame. revert Hs. apply (hoare_stateAfter same same); [|exact H0].
    eapply hoare_consequence; [eapply (reserveNames_early same)| | |];
      try done; try (by intros ? ? []).
  - apply Hsame. by apply (Inv_cleanupAddNetwork same).
  - apply Hsame. revert Hs. apply (hoare_stateAfter same same); [|exact H0].
    eapply hoare_consequence; [eapply (profilingOverride_early ext same)| | |];
      try done; try (by intros ? ? []).
  - by apply Hsame.
  - pose proof (createPools_outcome ext cctx nodeList hm) as Hout.
    destruct (createPools ext cctx nodeList hm) as [[] hm2|e hm2|];
      [|done|done].
    destruct Hout as (_ & _ & Hn & _ & Hq & _ & Ht & _).
    simpl in Hs. simplify_eq. by apply Hsame.
  - set (counts := fun h : HostManager =>
      inferQueue_ h = inferQueue_ hm ∧
      totalRequestCount_ h = totalRequestCount_ hm ∧
      ∀ nm, refcount <$> networks_ h !! nm = refcount <$> networks_ hm !! nm ∨
            (networks_ hm !! nm = None ∧
             refcount <$> networks_ h !! nm = Some 0)).
    revert Hs. apply (hoare_stateAfter counts counts).
    2: { split; [done|]. split; [done|]. intros nm. by left. }
    eapply hoare_consequence; [eapply (publish_keeps counts)| | |]; try done.
    intros node rootNode h (Hq & Ht & Hn). split; [done|]. split; [done|].
    intros nm. simpl. destruct (decide (name rootNode = nm)) as [<-|Hne].
    + rewrite lookup_insert_eq. simpl. specialize (Hn (name rootNode)).
      destruct (networks_ h !! name rootNode) as [network|]; simpl in *.
      * done.
      * destruct Hn as [Hn|[Hn _]]; [|by right].
        destruct (networks_ hm !! name rootNode); [done | by right].
    + rewrite lookup_insert_ne by done. apply Hn.
  - by apply Hsame.
Qed.

Local Ltac entries_moved :=
  match goal with
  | Hc : ledger _ _ _ _ |- ledger _ _ (_ ++ []) _ =>
      rewrite app_nil_r; refine (ledger_Permutation _ _ _ _ _ _ Hc);
      subst; simpl; rewrite ?fmap_app; simpl; solve_Permutation
  end.

Local Ltac entry_changed new :=
  match goal with
  | Hc : ledger (_ :: ?others) _ _ _ |- _ =>
      apply (ledger_Permutation (option_list new ++ others));
      [ simpl; solve_Permutation
      | apply (ledger_change _ new _ _ _ _ _ _ Hc) ]
  end.

Local Ltac counts rq nm :=
  destruct (decide (networkName rq = nm)) as [<-|?];
  [ rewrite ?lookup_insert_eq, ?lookup_alter_eq
  | rewrite ?lookup_insert_ne, ?lookup_alter_ne by done ];
  repeat match goal with
  | H : networks_ _ !! _ = _ |- _ => rewrite H
  end;
  repeat match goal with
  | |- context [networks_ ?h !! ?k] => destruct (networks_ h !! k)
  end;
  simpl; rewrite ?holdersIn_single; unfold holdersIn; simpl;
  repeat case_decide; simpl; try done; try lia; naive_solver.

Lemma advance_consistent s before th after hm' next events :
  consistent s →
  threads s = before ++ th :: after →
  advance (host s) th = Some (hm', next, events) →
  consistent {| host := hm'; threads := before ++ next ++ after;
                trace := trace s ++ events |}.
Proof.
  intros Hc Hth Hadv. unfold consistent in *.
  apply (ledger_Permutation _ _ _ _ _ (entries_split s _ _ _ Hth)) in Hc.
  unfold entries. simpl. rewrite !omap_app. rewrite omap_app in Hc.
  set (rest := omap threadEntry before ++ omap threadEntry after) in *.
  destruct th as [rq|rq|rq| | | |rq|rq err|rq err|global rq err|rq err|rq err];
    simpl in Hadv, Hc.
  - (* AtLookup *)
    destruct (networks_ (host s) !! networkName rq) as [network|] eqn:Hnet;
      simplify_eq; simpl.
    + entry_changed (Some (heldEntry rq)).
      * by repeat constructor.
      * done.
      * intros nm. counts rq nm.
    + entry_changed (@None Entry).
      * by repeat constructor.
      * left. eauto.
      * intros nm. counts rq nm.
  - (* AtQueueCheck *)
    case_bool_decide; simplify_eq; simpl.
    + entry_changed (@None Entry).
      * by repeat constructor.
      * right. left. eauto.
      * intros nm. counts rq nm.
    + entries_moved.
  - (* AtPush *)
    simplify_eq; simpl. unfold push. entries_moved.
  - (* AtActiveInc *)
    case_bool_decide; simplify_eq; simpl; entries_moved.
  - (* AtActiveDec *)
    simplify_eq; simpl; entries_moved.
  - (* AtDispatch *)
    destruct (takeTop (inferQueue_ (host s))) as [[request queue']|] eqn:Htop;
      simplify_eq; simpl.
    + apply takeTop_Permutation in Htop.
      apply (ledger_registry _ _ _ (networks_ (host s))).
      * rewrite app_nil_r. refine (ledger_Permutation _ _ _ _ _ _ Hc).
        rewrite Htop. subst rest. simpl. solve_Permutation.
      * intros nm. destruct (networks_ (host s) !! networkName request) eqn:Hnet;
          [by left|].
        destruct (decide (networkName request = nm)) as [<-|Hne].
        -- right. by rewrite Hnet, lookup_insert_eq.
        -- left. by rewrite lookup_insert_ne.
    + entries_moved.
  - (* InExecutor *)
    done.
  - (* AtCompletion *)
    destruct (networks_ (host s) !! networkName rq) as [network|] eqn:Hnet;
      simplify_eq; simpl.
    + entry_changed (Some {| eRun := requestID rq; eNet := networkName rq;
                             eHeld := false;
                             eEvents := [RefInc (requestID rq) (networkName rq);
                                         RefDec (requestID rq) (networkName rq)] |}).
      * by repeat constructor.
      * done.
      * intros nm. counts rq nm.
    + exfalso. pose proof (ledger_counts _ _ _ _ Hc (networkName rq)) as Hcount.
      rewrite Hnet, holdersIn_cons, holdersIn_single in Hcount.
      simpl in Hcount. rewrite decide_True in Hcount by done. lia.
  - (* AtCallback *)
    simplify_eq; simpl. entries_moved.
  - (* AtOutcomeCount *)
    simplify_eq; simpl. unfold countOutcome.
    destruct global, (isErr err); simpl; entries_moved.
  - (* AtGlobalCount *)
    simplify_eq; simpl. entries_moved.
  - (* AtInvoke *)
    simplify_eq; simpl.
    entry_changed (@None Entry).
    + by repeat constructor.
    + right. right. eauto.
    + intros nm. counts rq nm.
Qed.

(** Every step of the system keeps the ledger. *)
Lemma step_consistent s s' : consistent s → step ext s s' → consistent s'.
Proof.
  intros Hc Hstep.
  destruct Hstep as
    [s nm ctx cb prio now | s before th after hm' next events Hth Hadv
    | s before rq after err Hth | s nm | s hm' Hsec].
  - unfold consistent, entries in *. simpl. rewrite omap_app. simpl.
    refine (ledger_Permutation _ _ _ _ _ _ (ledger_spawn _ _ _ _ nm Hc)).
    solve_Permutation.
  - by eapply advance_consistent.
  - unfold consistent in *.
    refine (ledger_Permutation _ _ _ _ _ _ Hc).
    unfold entries. simpl. rewrite Hth, !omap_app. done.
  - unfold consistent in *. unfold entries in *. simpl.
    destruct (removeNetwork_networks ext nm (host s)) as (Hn & Hq & Ht).
    simpl in Hn. rewrite Hq, Ht.
    apply (ledger_registry _ _ _ _ _ Hc). intros nm'.
    destruct Hn as [->|(network & Hnet & Hr & ->)]; [by left|].
    destruct (decide (nm = nm')) as [<-|Hne].
    + right. rewrite Hnet, lookup_delete_eq. simpl. auto.
    + left. by rewrite lookup_delete_ne.
  - unfold consistent in *. unfold entries in *. simpl.
    destruct (hostSection_frame _ _ Hsec) as (Hq & Ht & Hn).
    rewrite Hq, Ht. apply (ledger_registry _ _ _ _ _ Hc). intros nm.
    destruct (Hn nm) as [->|[-> ->]]; [by left | by right].
Qed.

Lemma reachable_consistent s : reachable ext s → consistent s.
Proof.
  induction 1 as [s Hrest | s s' _ IH Hstep].
  - by apply atRest_consistent.
  - by apply (step_consistent s).
Qed.

(** *** Schedules are runs of the system *)

Lemma act_step a s s' : act ext a s = Some s' → step ext s s'.
Proof.
  destruct a as [nm ctx cb prio now | position | position err | nm]; simpl.
  - intros [= <-]. apply step_runNetwork.
  - destruct (threads s !! position) as [th|] eqn:Hth; [|done].
    destruct (advance (host s) th) as [[[hm' next] events]|] eqn:Hadv; [|done].
    intros [= <-]. eapply step_advance; [|exact Hadv].
    by rewrite <- (take_drop_middle _ _ _ Hth) at 1.
  - destruct (threads s !! position) as [[]|] eqn:Hth; try done.
    intros [= <-]. eapply step_executor.
    by rewrite <- (take_drop_middle _ _ _ Hth) at 1.
  - intros [= <-]. apply step_removeNetwork.
Qed.

Lemma runSchedule_reachable schedule s s' :
  reachable ext s → runSchedule ext schedule s = Some s' → reachable ext s'.
Proof.
  revert s. induction schedule as [|a schedule IH]; intros s Hs; simpl.
  - by intros [= <-].
  - destruct (act ext a s) as [s1|] eqn:Hact; [|done].
    intros Hrun. apply (IH s1); [|exact Hrun].
    eapply reachable_step; [exact Hs|]. by apply (act_step a).
Qed.

(** *** The reference counts *)

(** The events of one run are a prefix of: increment, decrement,
    callback; or, for a network that is not found, the callback alone. *)
Lemma run_events s r :
  consistent s →
  eventsOf r (trace s) = [] ∨
  (∃ nm, eventsOf r (trace s) = [RefInc r nm]) ∨
  (∃ nm, eventsOf r (trace s) = [RefInc r nm; RefDec r nm]) ∨
  concluded r (eventsOf r (trace s)).
Proof.
  intros Hc. destruct (decide (r ∈ eRun <$> entries s)) as [Hin|Hout].
  - apply list_elem_of_fmap in Hin as (e & -> & Hin).
    destruct (ledger_entries _ _ _ _ Hc e Hin) as [_ ->].
    unfold entries in Hin. apply elem_of_app in Hin as [Hin|Hin].
    + apply list_elem_of_omap in Hin as (th & _ & Hth).
      destruct th; simpl in Hth; simplify_eq; simpl; eauto.
    + apply list_elem_of_fmap in Hin as (rq & -> & _). simpl. eauto.
  - destruct (ledger_done _ _ _ _ Hc r Hout); auto.
Qed.

(** C1. In every run of the system, when the callback of a run is invoked
    the reference count has been changed for that run either not at all
    (the network was not found) or by one increment followed by one
    decrement (the queue was full, or the request went through the
    executor and its completion); and the count of a network is at every
    moment the number of runs between their increment and their
    decrement. *)
Theorem refcount_balance s :
  reachable ext s →
  (∀ before site cb r err after,
     trace s = before ++ Callback site cb r err :: after →
     (site = InRunNetwork ∧
      (∃ msg, err = MAKE_ERR RUNTIME_NET_NOT_FOUND msg) ∧
      eventsOf r before = []) ∨
     (site = InRunNetwork ∧
      (∃ msg, err = MAKE_ERR RUNTIME_REQUEST_REFUSED msg) ∧
      ∃ nm, eventsOf r before = [RefInc r nm; RefDec r nm]) ∨
     (site = InCompletion ∧
      ∃ nm, eventsOf r before = [RefInc r nm; RefDec r nm])) ∧
  (∀ nm network,
     networks_ (host s) !! nm = Some network →
     refcount network = Z.of_nat (holders nm s)).
Proof.
  intros Hreach. apply reachable_consistent in Hreach as Hc. split.
  - intros before site cb r err after Htrace.
    pose proof (run_events s r Hc) as Hshape.
    rewrite Htrace, eventsOf_app in Hshape. unfold eventsOf at 2 4 6 8 in Hshape.
    rewrite filter_cons in Hshape. simpl in Hshape.
    rewrite decide_True in Hshape by done.
    fold (eventsOf r after) in Hshape.
    destruct Hshape as [H|[[nm H]|[[nm H]|[(c & msg & H)|[(nm & c & msg & H)|(nm & c & e & H)]]]]];
      destruct (eventsOf r before) as [|x1 [|x2 [|x3 l]]];
      simpl in H; simplify_eq; eauto 10;
      try (by destruct l; simplify_eq).
  - intros nm network Hnet.
    pose proof (ledger_counts _ _ _ _ Hc nm) as Hcount. by rewrite Hnet in Hcount.
Qed.

(** *** Removal *)

Lemma advance_keeps_networks hm th hm' next events nm :
  advance hm th = Some (hm', next, events) →
  is_Some (networks_ hm !! nm) → is_Some (networks_ hm' !! nm).
Proof.
  intros Hadv Hnm.
  destruct th as [rq|rq|rq| | | |rq|rq err|rq err|global rq err|rq err|rq err];
    simpl in Hadv; unfold countOutcome in Hadv;
    repeat case_match; simplify_eq; simpl; try done;
    repeat case_match; try done;
    match goal with
    | |- is_Some (<[?k := _]> _ !! nm) =>
        destruct (decide (k = nm)) as [<-|?];
          [by rewrite lookup_insert_eq | by rewrite lookup_insert_ne]
    | |- is_Some (alter _ ?k _ !! nm) =>
        destruct (decide (k = nm)) as [<-|?];
          [rewrite lookup_alter_eq; by apply fmap_is_Some
          | by rewrite lookup_alter_ne]
    end.
Qed.

Lemma step_keeps_referenced s s' nm network :
  step ext s s' →
  networks_ (host s) !! nm = Some network → refcount network ≠ 0 →
  is_Some (networks_ (host s') !! nm).
Proof.
  intros Hstep Hnet Href.
  destruct Hstep as
    [s nm0 ctx cb prio now | s before th after hm' next events Hth Hadv
    | s before rq after err Hth | s nm0 | s hm' Hsec]; simpl.
  - by rewrite Hnet.
  - eapply advance_keeps_networks; [exact Hadv | by rewrite Hnet].
  - by rewrite Hnet.
  - destruct (removeNetwork_networks ext nm0 (host s)) as (Hn & _).
    simpl in Hn. destruct Hn as [->|(network0 & Hnet0 & Hr0 & ->)].
    + by rewrite Hnet.
    + destruct (decide (nm0 = nm)) as [->|Hne]; [congruence|].
      by rewrite lookup_delete_ne, Hnet.
  - destruct (hostSection_frame _ _ Hsec) as (_ & _ & Hn).
    destruct (Hn nm) as [Heq|[Hnone _]]; [|congruence].
    rewrite Hnet in Heq. simpl in Heq.
    destruct (networks_ hm' !! nm); [done | discriminate].
Qed.

Lemma addNetwork_keeps_networks module cctx hm e hm' nm :
  runBody (addNetwork ext module cctx) hm = Some (e, hm') →
  is_Some (networks_ hm !! nm) → is_Some (networks_ hm' !! nm).
Proof.
  intros Hrun Hnm.
  pose proof (addNetwork_outcome ext (fun h => networks_ h = networks_ hm)
                (fun _ _ H => H) (fun _ _ H => H) (fun _ _ H => H)
                (fun _ _ H => H) (fun _ H => H) (fun _ H => H)
                module cctx hm eq_refl) as Hout.
  unfold runBody in Hrun.
  destruct (addNetwork ext module cctx hm) as [e1 hm1|e1 hm1|]; simplify_eq.
  - destruct Hout as
      (_ & names & nodeList & sharedModule & hm2 & devs & hm3 & Hn & Hpools & Hpub).
    destruct (createPools_spec ext _ _ _ _ Hpools) as (_ & _ & Hn3 & _).
    simpl in Hn3.
    assert (hoare (fun h => is_Some (networks_ h !! nm))
              (publish sharedModule nodeList names)
              (fun _ h => is_Some (networks_ h !! nm)) (fun _ _ => False))
      as Hkeep.
    { apply publish_keeps; try done. intros node rootNode h Hh. simpl.
      destruct (decide (name rootNode = nm)) as [<-|?];
        [by rewrite lookup_insert_eq | by rewrite lookup_insert_ne]. }
    specialize (Hkeep hm3). rewrite Hpub in Hkeep. apply Hkeep.
    by rewrite Hn3, Hn.
  - destruct Hout as [_ Hn]. by rewrite Hn.
Qed.

Lemma removeAll_keeps_referenced fuel nm network :
  refcount network ≠ 0 →
  hoare (fun h => networks_ h !! nm = Some network) (removeAll ext fuel)
        (fun _ h => networks_ h !! nm = Some network)
        (fun _ h => networks_ h !! nm = Some network).
Proof.
  intros Href. induction fuel as [|fuel IH]; simpl.
  - by apply hoare_ret.
  - eapply hoare_bind; [apply hoare_get|]. intros hm0.
    destruct (map_to_list (networks_ hm0)) as [|[first ?] ?].
    { apply hoare_ret. by intros h [_ Hh]. }
    pose proof (removeNetwork_networks ext first hm0) as (Hn & _).
    simpl in Hn. destruct (removeNetwork ext first hm0) as [err hm1]. simpl in Hn.
    eapply (hoare_seq _ _ _ (fun h => networks_ h !! nm = Some network)).
    + apply hoare_modify. intros h [<- Hh].
      destruct Hn as [->|(network0 & Hnet0 & Hr0 & ->)]; [done|].
      destruct (decide (first = nm)) as [->|Hne]; [congruence|].
      by rewrite lookup_delete_ne.
    + intros []. eapply (hoare_seq _ _ _ (fun h => networks_ h !! nm = Some network)).
      * apply hoare_RETURN_IF_ERR; auto.
      * intros []. apply IH.
Qed.

Lemma clearHost_keeps_referenced hm e hm' nm network :
  runBody (clearHost ext) hm = Some (e, hm') →
  networks_ hm !! nm = Some network → refcount network ≠ 0 →
  networks_ hm' !! nm = Some network.
Proof.
  intros Hrun Hnet Href.
  assert (hoare (fun h => networks_ h !! nm = Some network) (clearHost ext)
            (fun _ h => networks_ h !! nm = Some network)
            (fun _ h => networks_ h !! nm = Some network)) as Hclear.
  { unfold clearHost. apply hoare_after_get. intros hm00.
    eapply (hoare_seq _ _ _ (fun h => networks_ h !! nm = Some network)).
    { destruct (executorSet hm00);
        [by apply hoare_modify | apply hoare_undefined]. }
    intros []. apply hoare_after_get. intros hm0.
    eapply (hoare_seq _ _ _ (fun h => networks_ h !! nm = Some network)).
    { case_bool_decide; [by apply hoare_ret | apply hoare_undefined]. }
    intros [].
    eapply (hoare_seq _ _ _ (fun h => networks_ h !! nm = Some network)).
    { by apply removeAll_keeps_referenced. }
    intros []. apply hoare_after_get. intros hm1.
    eapply (hoare_seq _ _ _ (fun h => networks_ h !! nm = Some network)).
    { by apply hoare_modify. }
    intros []. by apply hoare_ret. }
  specialize (Hclear hm Hnet). unfold runBody in Hrun.
  destruct (clearHost ext hm); by simplify_eq.
Qed.

(** C2, as the code has it.  For a name that is in the registry,
    [removeNetwork] returns [RUNTIME_NET_BUSY] when the name is being added
    or the reference count is not zero, and then changes nothing: nothing
    is erased or evicted.  For a name that is not in the registry, being
    added or not, it succeeds and changes nothing.  No operation erases a
    [NetworkData] whose reference count is not zero: no step of the
    system, no [addNetwork], no [clearHost]. *)
Theorem removeNetwork_busy_or_absent :
  (∀ hm nm network,
     networks_ hm !! nm = Some network →
     nm ∈ processingNetworks_ hm ∨ refcount network ≠ 0 →
     ∃ msg, removeNetwork ext nm hm = (MAKE_ERR RUNTIME_NET_BUSY msg, hm)) ∧
  (∀ hm nm,
     networks_ hm !! nm = None →
     removeNetwork ext nm hm = (success, hm)) ∧
  (∀ s s' nm network,
     step ext s s' →
     networks_ (host s) !! nm = Some network → refcount network ≠ 0 →
     is_Some (networks_ (host s') !! nm)) ∧
  (∀ module cctx hm e hm' nm network,
     runBody (addNetwork ext module cctx) hm = Some (e, hm') →
     networks_ hm !! nm = Some network → refcount network ≠ 0 →
     is_Some (networks_ hm' !! nm)) ∧
  (∀ hm e hm' nm network,
     runBody (clearHost ext) hm = Some (e, hm') →
     networks_ hm !! nm = Some network → refcount network ≠ 0 →
     is_Some (networks_ hm' !! nm)).
Proof.
  split; [|split; [|split; [|split]]].
  - intros hm nm network. apply removeNetwork_busy.
  - intros hm nm. apply removeNetwork_absent.
  - intros s s' nm network. apply step_keeps_referenced.
  - intros module cctx hm e hm' nm network Hrun Hnet _.
    eapply addNetwork_keeps_networks; [exact Hrun | by rewrite Hnet].
  - intros hm e hm' nm network Hrun Hnet Href.
    by rewrite (clearHost_keeps_referenced _ _ _ _ _ Hrun Hnet Href).
Qed.

(** A call that sees the queue full refuses the request: it gives its
    reference back, invokes the callback and pushes nothing. *)
Lemma full_queue_refused hm rq :
  maxQueueSize (config_ hm) ≤ Z.of_nat (length (inferQueue_ hm)) →
  ∃ hm' msg,
    advance hm (AtQueueCheck rq) =
      Some (hm', [],
            [RefDec (requestID rq) (networkName rq);
             Callback InRunNetwork (callback rq) (requestID rq)
               (MAKE_ERR RUNTIME_REQUEST_REFUSED msg)]) ∧
    inferQueue_ hm' = inferQueue_ hm.
Proof.
  intros Hfull. simpl. rewrite bool_decide_true by done. eauto.
Qed.

(** *** The order of dispatch *)





End SystemFacts.

(** ** The properties on the sample host manager *)

Import Runtime.

Lemma idle_sampleHostB_atRest : atRest (idle sampleHostB).
Proof.
  split; [done|]. split; [done|]. split; [by vm_compute|].
  apply (bool_decide_unpack
           (map_Forall (fun _ network => refcount network = 0)
                       (networks_ sampleHostB))).
  vm_compute. exact I.
Qed.

Lemma afterSchedule_reachable schedule :
  is_Some (runSchedule sampleExt schedule (idle sampleHostB)) →
  reachable sampleExt (afterSchedule schedule (idle sampleHostB)).
Proof.
  intros [s Hs]. unfold afterSchedule. rewrite Hs. simpl.
  eapply runSchedule_reachable; [|exact Hs].
  apply reachable_start, idle_sampleHostB_atRest.
Qed.

(** One request for B goes through the executor: when its callback is
    invoked, its increment and its decrement are behind it. *)
Lemma refcount_balance_witness :
  reachable sampleExt (afterSchedule oneRun (idle sampleHostB)) ∧
  ((InCompletion = InRunNetwork ∧
    (∃ msg, success = MAKE_ERR RUNTIME_NET_NOT_FOUND msg) ∧
    eventsOf 0%N [RefInc 0%N "B"; RefDec 0%N "B"] = []) ∨
   (InCompletion = InRunNetwork ∧
    (∃ msg, success = MAKE_ERR RUNTIME_REQUEST_REFUSED msg) ∧
    ∃ nm, eventsOf 0%N [RefInc 0%N "B"; RefDec 0%N "B"]
            = [RefInc 0%N nm; RefDec 0%N nm]) ∨
   (InCompletion = InCompletion ∧
    ∃ nm, eventsOf 0%N [RefInc 0%N "B"; RefDec 0%N "B"]
            = [RefInc 0%N nm; RefDec 0%N nm])).
Proof.
  assert (reachable sampleExt (afterSchedule oneRun (idle sampleHostB)))
    as Hreach.
  { apply afterSchedule_reachable. vm_compute. eauto. }
  split; [exact Hreach|].
  apply (proj1 (refcount_balance sampleExt _ Hreach)
           [RefInc 0%N "B"; RefDec 0%N "B"] InCompletion 0%N 0%N success []).
  vm_compute. reflexivity.
Defined.

(** While A is being added its name is reserved and not yet in the
    registry; [removeNetwork] then succeeds instead of reporting
    [RUNTIME_NET_BUSY]. *)
Lemma removeNetwork_while_adding :
  "A" ∈ processingNetworks_ sampleHostAddingA ∧
  (removeNetwork sampleExt "A" sampleHostAddingA).1 = success ∧
  ¬ ∃ msg, (removeNetwork sampleExt "A" sampleHostAddingA).1
             = MAKE_ERR RUNTIME_NET_BUSY msg.
Proof.
  split; [apply (bool_decide_unpack _); vm_compute; exact I|].
  assert ((removeNetwork sampleExt "A" sampleHostAddingA).1 = success) as Hrm
    by (vm_compute; reflexivity).
  split; [exact Hrm|]. intros [msg Hmsg]. rewrite Hrm in Hmsg. discriminate.
Qed.

(** With one run holding a reference to B, [removeNetwork] reports
    [RUNTIME_NET_BUSY] and changes nothing. *)
Lemma removeNetwork_busy_witness :
  ∃ msg,
    removeNetwork sampleExt "B"
      (host (afterSchedule oneLookup (idle sampleHostB)))
    = (MAKE_ERR RUNTIME_NET_BUSY msg,
       host (afterSchedule oneLookup (idle sampleHostB))).
Proof.
  eapply (proj1 (removeNetwork_busy_or_absent sampleExt)).
  - vm_compute. reflexivity.
  - right. vm_compute. discriminate.
Defined.

(** C3, where the code departs from it.  A call that sees the queue full
    invokes the callback with [RUNTIME_REQUEST_REFUSED] and pushes
    nothing; but two calls of [runNetwork] that both read the length of the
    queue before either pushes leave two requests in a queue whose bound is
    one. *)
Theorem queue_overrun :
  (∀ hm rq,
     maxQueueSize (config_ hm) ≤ Z.of_nat (length (inferQueue_ hm)) →
     ∃ hm' msg,
       advance hm (AtQueueCheck rq) =
         Some (hm', [],
               [RefDec (requestID rq) (networkName rq);
                Callback InRunNetwork (callback rq) (requestID rq)
                  (MAKE_ERR RUNTIME_REQUEST_REFUSED msg)]) ∧
       inferQueue_ hm' = inferQueue_ hm) ∧
  reachable sampleExt (afterSchedule racingCalls (idle sampleHostB)) ∧
  maxQueueSize (config_ (host (afterSchedule racingCalls (idle sampleHostB))))
    = 1 ∧
  length (inferQueue_ (host (afterSchedule racingCalls (idle sampleHostB))))
    = 2%nat.
Proof.
  split; [apply full_queue_refused|]. split.
  - apply afterSchedule_reachable. vm_compute. eauto.
  - split; vm_compute; reflexivity.
Qed.

(** C4, where the code departs from it.  Three error returns of
    [addNetwork] leave the reserved name in [processingNetworks_]: the
    profiling precondition (after which A cannot be added any more), the
    backend check after constant folding, and the serialization of the
    DAG.  The error return for a failed partitioning releases the name. *)
Theorem addNetwork_keeps_names_reserved :
  (∃ msg hm',
     runBody (addNetwork sampleExt {| getFunctions := ["A"] |} profilingContext)
             sampleHostB = Some (MAKE_ERR RUNTIME_ERROR msg, hm') ∧
     "A" ∈ processingNetworks_ hm' ∧
     ∃ msg' hm'',
       runBody (addNetwork sampleExt {| getFunctions := ["A"] |} sampleContext)
               hm' = Some (MAKE_ERR RUNTIME_ERROR msg', hm'')) ∧
  (∃ msg hm',
     runBody (addNetwork (sampleExtWith true false true)
                {| getFunctions := ["A"] |} foldingContext)
             sampleHost = Some (MAKE_ERR UNKNOWN msg, hm') ∧
     "A" ∈ processingNetworks_ hm') ∧
  (∃ code msg hm',
     runBody (addNetwork (sampleExtWith true true false)
                {| getFunctions := ["A"] |} serializingContext)
             sampleHost = Some (MAKE_ERR code msg, hm') ∧
     "A" ∈ processingNetworks_ hm') ∧
  (∃ code msg hm',
     runBody (addNetwork (sampleExtWith false true true)
                {| getFunctions := ["A"] |} sampleContext)
             sampleHost = Some (MAKE_ERR code msg, hm') ∧
     "A" ∉ processingNetworks_ hm').
Proof.
  split; [|split; [|split]].
  - eexists _, _. split; [vm_compute; reflexivity|].
    split; [apply (bool_decide_unpack _); vm_compute; exact I|].
    eexists _, _. vm_compute. reflexivity.
  - eexists _, _. split; [vm_compute; reflexivity|].
    apply (bool_decide_unpack _); vm_compute; exact I.
  - eexists _, _, _. split; [vm_compute; reflexivity|].
    apply (bool_decide_unpack _); vm_compute; exact I.
  - eexists _, _, _. split; [vm_compute; reflexivity|].
    apply (bool_decide_unpack _); vm_compute; exact I.
Qed.

(** With neither P2P nor DRT, the pool of B has the 8 execution states of
    [maxActiveRequests], not 2. *)
Lemma pool_size_without_p2p :
  runBody (addNetwork sampleExt {| getFunctions := ["B"] |} sampleContext)
          sampleHost = Some (success, sampleHostB) ∧
  (enableP2P sampleContext || GlowEnableP2P sampleExt) = false ∧
  (enableDRT sampleContext || GlowEnableDRT sampleExt) = false ∧
  poolSizeOf (executor_ sampleHostB) (root (sampleDAG "B")) = Some 8 ∧
  poolSizeOf (executor_ sampleHostB) (root (sampleDAG "B")) ≠ Some 2.
Proof.
  split; [vm_compute; reflexivity|]. split; [done|]. split; [done|].
  assert (poolSizeOf (executor_ sampleHostB) (root (sampleDAG "B")) = Some 8)
    as Hpool by (vm_compute; reflexivity).
  split; [exact Hpool|]. rewrite Hpool. discriminate.
Qed.

(** B is added with neither P2P nor DRT: its pool has the 8 execution
    states of [maxActiveRequests], and the partitioner is asked for 2
    contexts, so that a partitioner which works with 2 contexts only is as
    good. *)
Lemma addNetwork_pool_size_witness :
  (∃ nodeList,
     last (provisioner_ sampleHostB) = Some (provision nodeList) ∧
     ∀ node, node ∈ nodeList →
       poolSizeOf (executor_ sampleHostB) (root node)
         = Some (maxActiveRequests (config_ sampleHost))) ∧
  maxActiveRequests (config_ sampleHost) = 8 ∧
  setContextCount sampleContext sampleHost = 2 ∧
  runBody (addNetwork twoContextsExt {| getFunctions := ["B"] |} sampleContext)
          sampleHost = Some (success, sampleHostB).
Proof.
  pose proof (addNetwork_pool_size sampleExt {| getFunctions := ["B"] |}
                sampleContext sampleHost) as (Hpool & Htwo & _ & Hat).
  split; [apply Hpool; vm_compute; reflexivity|].
  split; [reflexivity|]. split; [by apply Htwo|].
  change twoContextsExt
    with (with_partition (partition twoContextsExt) sampleExt).
  rewrite Hat; [vm_compute; reflexivity|]. intros. reflexivity.
Defined.



Lemma isOpSupported_table_witness :
  CPUBackend.decides
    (CPUBackend.isOpSupported sampleSlots sampleQuantized sampleAdd)
    (CPUBackend.allShareOneOf sampleAdd [FloatTy; Int8QTy; Int32ITy; Int64ITy]).
Proof.
  apply (proj1 (isOpSupported_table sampleSlots sampleQuantized sampleAdd)).
  left. reflexivity.
Defined.

Lemma removeNetwork_unknown_witness :
  removeNetwork sampleExt "C" sampleHostB = (success, sampleHostB).
Proof.
  apply (removeNetwork_unknown sampleExt "C" sampleHostB).
  vm_compute. reflexivity.
Defined.

(** Three devices with 8 units of memory each, of which 5 are free: the
    counters are 24, 15 and 9. *)
Lemma memory_counters_balanced_witness :
  statsExporterRegistry_ (exportMemoryCounters sampleHostThree)
    kDeviceMemoryMax = 24 ∧
  statsExporterRegistry_ (exportMemoryCounters sampleHostThree)
    kDeviceMemoryAvailable = 15 ∧
  statsExporterRegistry_ (exportMemoryCounters sampleHostThree)
    kDeviceMemoryUsed = 9 ∧
  statsExporterRegistry_ (exportMemoryCounters sampleHostThree)
    kDeviceMemoryUsed +
  statsExporterRegistry_ (exportMemoryCounters sampleHostThree)
    kDeviceMemoryAvailable =
  statsExporterRegistry_ (exportMemoryCounters sampleHostThree)
    kDeviceMemoryMax.
Proof.
  destruct (memory_counters_balanced sampleExt sampleHostThree)
    as [(Hmax & Havail & Hused & _ & Hexact) _].
  cbv zeta in Hmax, Havail, Hused, Hexact.
  assert (sumOver getMaximumMemory (devices_ sampleHostThree) = 24) as Em
    by (vm_compute; reflexivity).
  assert (sumOver getAvailableMemory (devices_ sampleHostThree) = 15) as Ea
    by (vm_compute; reflexivity).
  rewrite Em in Hmax. rewrite Ea in Havail.
  change (wrap64 24) with 24 in Hmax. change (wrap64 15) with 15 in Havail.
  rewrite Hmax, Havail in Hused. change (wrap64 (24 - 15)) with 9 in Hused.
  split; [exact Hmax|]. split; [exact Havail|]. split; [exact Hused|].
  apply Hexact. rewrite Hmax, Havail. lia.
Defined.

(** A device that reports 8 units of available memory out of 5: the used
    memory is exported as 5 - 8 in [uint64_t], and the three counters do
    not add up.  This is so after [init] and after any later call of
    [exportMemoryCounters]. *)
Lemma memory_counters_overdrawn :
  statsExporterRegistry_ overdrawnHost kDeviceMemoryMax = 5 ∧
  statsExporterRegistry_ overdrawnHost kDeviceMemoryAvailable = 8 ∧
  statsExporterRegistry_ overdrawnHost kDeviceMemoryUsed
    = 18446744073709551613 ∧
  statsExporterRegistry_ overdrawnHost kDeviceMemoryUsed +
  statsExporterRegistry_ overdrawnHost kDeviceMemoryAvailable
    ≠ statsExporterRegistry_ overdrawnHost kDeviceMemoryMax ∧
  statsExporterRegistry_ (exportMemoryCounters overdrawnHost)
    kDeviceMemoryUsed +
  statsExporterRegistry_ (exportMemoryCounters overdrawnHost)
    kDeviceMemoryAvailable
    ≠ statsExporterRegistry_ (exportMemoryCounters overdrawnHost)
        kDeviceMemoryMax.
Proof.
  assert (statsExporterRegistry_ overdrawnHost kDeviceMemoryMax = 5) as Hm
    by (vm_compute; reflexivity).
  assert (statsExporterRegistry_ overdrawnHost kDeviceMemoryAvailable = 8)
    as Ha by (vm_compute; reflexivity).
  assert (statsExporterRegistry_ overdrawnHost kDeviceMemoryUsed
          = 18446744073709551613) as Hu by (vm_compute; reflexivity).
  split; [exact Hm|]. split; [exact Ha|]. split; [exact Hu|].
  split; [rewrite Hm, Ha, Hu; lia|].
  assert (statsExporterRegistry_ (exportMemoryCounters overdrawnHost)
            kDeviceMemoryMax = 5) as ->
    by (vm_compute; reflexivity).
  assert (statsExporterRegistry_ (exportMemoryCounters overdrawnHost)
            kDeviceMemoryAvailable = 8) as ->
    by (vm_compute; reflexivity).
  assert (statsExporterRegistry_ (exportMemoryCounters overdrawnHost)
            kDeviceMemoryUsed = 18446744073709551613) as ->
    by (vm_compute; reflexivity).
  lia.
Qed.

Lemma quantize_verification_witness :
  CPUBackend.isOpSupported sampleSlots sampleQuantized sampleQuantize
    = Some true ∧
  Instrs.QuantizeInst_verify sampleQuantizeInst = false.
Proof.
  eapply (proj2 (proj2 (quantize_verification sampleSlots sampleQuantized)));
    reflexivity.
Defined.

(* ===================================================================== *)
(** ** More on instruction verification *)
(* ===================================================================== *)

Section InstructionFacts.

Import Instrs.

Lemma withinBounds_spec inner offsets outer numDims :
  withinBounds inner offsets outer numDims = true ↔
  ∀ i, (i < numDims)%nat →
    ∃ n o m, inner !! i = Some n ∧ offsets !! i = Some o ∧
             outer !! i = Some m ∧ ((n + o) mod 2 ^ 64 ≤ m)%N.
Proof.
  unfold withinBounds. rewrite forallb_forall. split.
  - intros H i Hi. specialize (H i). rewrite in_seq in H.
    specialize (H ltac:(lia)).
    destruct (inner !! i), (offsets !! i), (outer !! i); try done.
    apply bool_decide_eq_true in H. eauto 10.
  - intros H i Hi. apply in_seq in Hi.
    destruct (H i ltac:(lia)) as (n & o & m & -> & -> & -> & Hle).
    by apply bool_decide_eq_true.
Qed.

(** Extraction and insertion are checked by the same conditions with the
    roles of the two tensors exchanged: a slice passes the check of
    [ExtractTensorInst] exactly when putting it back at the same offsets
    passes the check of [InsertTensorInst].  And a check that passes places
    every dimension of the slice, shifted by its offset (in [size_t]),
    inside the tensor. *)
Theorem insert_extract_dual (tensor slice : Value) (offsets : list N) :
  (N.of_nat (length (dims (getType tensor))) < 2 ^ 32)%N →
  (N.of_nat (length (dims (getType slice))) < 2 ^ 32)%N →
  InsertTensorInst_verify tensor slice offsets =
    ExtractTensorInst_verify slice tensor offsets ∧
  (ExtractTensorInst_verify slice tensor offsets = true ↔
     length (dims (getType slice)) = length (dims (getType tensor)) ∧
     length offsets = length (dims (getType tensor)) ∧
     ∀ i n o m,
       dims (getType slice) !! i = Some n → offsets !! i = Some o →
       dims (getType tensor) !! i = Some m → ((n + o) mod 2 ^ 64 ≤ m)%N).
Proof.
  intros Ht Hs.
  assert (∀ l : list N, (N.of_nat (length l) < 2 ^ 32)%N →
            (N.of_nat (length l) mod 2 ^ 32)%N = N.of_nat (length l)) as Hsmall.
  { intros l Hl. by apply N.mod_small. }
  assert (ExtractTensorInst_verify slice tensor offsets = true ↔
     length (dims (getType slice)) = length (dims (getType tensor)) ∧
     length offsets = length (dims (getType tensor)) ∧
     ∀ i n o m,
       dims (getType slice) !! i = Some n → offsets !! i = Some o →
       dims (getType tensor) !! i = Some m → ((n + o) mod 2 ^ 64 ≤ m)%N)
    as Hextract.
  { unfold ExtractTensorInst_verify. rewrite (Hsmall _ Hs), Nat2N.id.
    rewrite !andb_true_iff, !bool_decide_eq_true, withinBounds_spec. split.
    - intros [[H1 H2] H3]. apply Nat2N.inj in H1, H2.
      split; [done|]. split; [lia|].
      intros i n o m Hn Ho Hm.
      destruct (H3 i) as (n' & o' & m' & ? & ? & ? & ?);
        [by eapply lookup_lt_Some | by simplify_eq].
    - intros (H1 & H2 & H3). split; [split; f_equal; lia|].
      intros i Hi.
      destruct (lookup_lt_is_Some_2 (dims (getType slice)) i Hi) as [n Hn].
      destruct (lookup_lt_is_Some_2 offsets i ltac:(lia)) as [o Ho].
      destruct (lookup_lt_is_Some_2 (dims (getType tensor)) i ltac:(lia))
        as [m Hm].
      exists n, o, m. eauto. }
  split; [|exact Hextract].
  apply eq_true_iff_eq. rewrite Hextract.
  unfold InsertTensorInst_verify. rewrite (Hsmall _ Ht), Nat2N.id.
  rewrite !andb_true_iff, !bool_decide_eq_true, withinBounds_spec. split.
  - intros [[H1 H2] H3]. apply Nat2N.inj in H1, H2.
    split; [done|]. split; [lia|].
    intros i n o m Hn Ho Hm.
    destruct (H3 i) as (n' & o' & m' & ? & ? & ? & ?);
      [by eapply lookup_lt_Some | by simplify_eq].
  - intros (H1 & H2 & H3). split; [split; f_equal; lia|].
    intros i Hi.
    destruct (lookup_lt_is_Some_2 (dims (getType slice)) i ltac:(lia)) as [n Hn].
    destruct (lookup_lt_is_Some_2 offsets i ltac:(lia)) as [o Ho].
    destruct (lookup_lt_is_Some_2 (dims (getType tensor)) i Hi) as [m Hm].
    exists n, o, m. eauto.
Qed.

(** With a shuffle that is a permutation of the positions of the source
    shape, [TransposeInst::verify] has a value, and when it passes the
    destination shape is a rearrangement of the source shape: the same
    extents, hence the same number of elements.  The identity shuffle
    passes exactly for equal shapes. *)
Theorem transpose_rearranges (I : Instruction) (Shuffle_ : list nat)
    (dest src : Operand) :
  getOperand I 0 = Some dest → getOperand I 1 = Some src →
  Shuffle_ ≡ₚ seq 0 (length (dims (getType src.1))) →
  ∃ b, TransposeInst_verify I Shuffle_ = Some b ∧
       (b = true →
          dims (getType dest.1) ≡ₚ dims (getType src.1) ∧
          foldr N.mul 1%N (dims (getType dest.1)) =
            foldr N.mul 1%N (dims (getType src.1))) ∧
       (Shuffle_ = seq 0 (length (dims (getType src.1))) →
          (b = true ↔ dims (getType dest.1) = dims (getType src.1))).
Proof.
  intros Hd Hs Hperm. unfold TransposeInst_verify. rewrite Hd, Hs. simpl.
  set (d := dims (getType src.1)) in *.
  assert (length Shuffle_ = length d) as Hlen.
  { by rewrite Hperm, length_seq. }
  set (g := fun k => default 0%N (d !! k)).
  assert (mapM (fun i => k ← Shuffle_ !! i; d !! k) (seq 0 (length d))
          = Some (g <$> Shuffle_)) as ->.
  { apply mapM_Some. apply Forall2_same_length_lookup.
    split; [by rewrite length_seq, length_fmap|].
    intros i x y Hx Hy. apply lookup_seq in Hx as [-> Hi]. simpl in *.
    rewrite list_lookup_fmap in Hy.
    destruct (Shuffle_ !! i) as [k|] eqn:Hk; simplify_eq; simpl.
    assert (k ∈ Shuffle_) as Hin by (by eapply list_elem_of_lookup_2).
    rewrite Hperm in Hin. apply elem_of_seq in Hin.
    destruct (lookup_lt_is_Some_2 d k ltac:(lia)) as [z Hz].
    simpl in Hy. injection Hy as <-. unfold g. by rewrite Hz. }
  assert (g <$> seq 0 (length d) = d) as Hid.
  { apply list_eq. intros i. rewrite list_lookup_fmap.
    destruct (decide (i < length d)%nat) as [Hi|Hi].
    - rewrite lookup_seq_lt by done. simpl. unfold g.
      by destruct (lookup_lt_is_Some_2 d i Hi) as [x ->].
    - rewrite lookup_seq_ge by lia. simpl. symmetry.
      apply lookup_ge_None. lia. }
  simpl. eexists. split; [reflexivity|]. split.
  - intros Hb. apply bool_decide_eq_true in Hb. rewrite Hb.
    assert (g <$> Shuffle_ ≡ₚ d) as Hp by (by rewrite Hperm, Hid).
    split; [done|].
    clear -Hp. induction Hp; simpl; try lia; congruence.
  - intros ->. rewrite Hid. apply bool_decide_eq_true.
Qed.

(** The checks of the three quantization instructions fit together.
    [DequantizeInst] accepts exactly the operands that [QuantizeInst]
    accepts in the opposite direction; [RescaleQuantizedInst] does not
    depend on the direction; and a rescaling can be put after a
    quantization or before a dequantization without breaking either check.
    In particular, a value that is quantized and then dequantized comes
    back with the element kind and the shape it had. *)
Theorem quantization_checks_compose (a b c : Operand) (rest : list Operand) :
  DequantizeInst_verify {| operands := a :: b :: rest |}
    = QuantizeInst_verify {| operands := b :: a :: rest |} ∧
  RescaleQuantizedInst_verify {| operands := a :: b :: rest |}
    = RescaleQuantizedInst_verify {| operands := b :: a :: rest |} ∧
  (QuantizeInst_verify {| operands := b :: a :: rest |} = true →
   RescaleQuantizedInst_verify {| operands := c :: b :: rest |} = true →
   QuantizeInst_verify {| operands := c :: a :: rest |} = true) ∧
  (RescaleQuantizedInst_verify {| operands := b :: a :: rest |} = true →
   DequantizeInst_verify {| operands := c :: b :: rest |} = true →
   DequantizeInst_verify {| operands := c :: a :: rest |} = true) ∧
  (QuantizeInst_verify {| operands := b :: a :: rest |} = true →
   DequantizeInst_verify {| operands := c :: b :: rest |} = true →
   getElementType (getType c.1) = getElementType (getType a.1) ∧
   dims (getType c.1) = dims (getType a.1)).
Proof.
  unfold DequantizeInst_verify, QuantizeInst_verify,
    RescaleQuantizedInst_verify, verify2, checkType, checkSameDims. simpl.
  split; [|split; [|split; [|split]]].
  - apply eq_true_iff_eq. rewrite !andb_true_iff, !bool_decide_eq_true.
    intuition congruence.
  - apply eq_true_iff_eq. rewrite !andb_true_iff, !bool_decide_eq_true.
    intuition congruence.
  - rewrite !andb_true_iff, !bool_decide_eq_true. intuition congruence.
  - rewrite !andb_true_iff, !bool_decide_eq_true. intuition congruence.
  - rewrite !andb_true_iff, !bool_decide_eq_true.
    intros [[H1 H2] H3] [[H4 H5] H6]. split; congruence.
Qed.

End InstructionFacts.

(* ===================================================================== *)
(** ** More on the CPU operator table *)
(* ===================================================================== *)

Section OperatorTableFacts.

Import CPUBackend.

Variable idx : Slot -> nat.
Variable isQuantizedType : Ty -> bool.

Local Notation "'isOpSupported'" :=
  (CPUBackend.isOpSupported idx isQuantizedType).

Lemma checked_same_kinds ignore pos (tys tys' : list Ty) :
  getElementType <$> tys = getElementType <$> tys' →
  getElementType <$> checked ignore pos tys =
  getElementType <$> checked ignore pos tys'.
Proof.
  revert pos tys'. induction tys as [|t tys IH]; intros pos [|t' tys'] H;
    simpl in *; try done.
  injection H as Ht Htys. case_bool_decide; simpl; [by apply IH|].
  rewrite Ht. f_equal. by apply IH.
Qed.

Lemma forallb_kind k (tys : list Ty) :
  forallb (fun t => bool_decide (getElementType t = k)) tys =
  forallb (fun e => bool_decide (e = k)) (getElementType <$> tys).
Proof. induction tys as [|t tys IH]; simpl; [done|]. by rewrite IH. Qed.

Lemma allSame_same_kinds NI NI' allowed ignoreIn ignoreOut :
  getElementType <$> inTys NI = getElementType <$> inTys NI' →
  getElementType <$> outTys NI = getElementType <$> outTys NI' →
  allInputsAndOutputsHaveSameElemKind idx NI allowed ignoreIn ignoreOut =
  allInputsAndOutputsHaveSameElemKind idx NI' allowed ignoreIn ignoreOut.
Proof.
  intros Hin Hout. unfold allInputsAndOutputsHaveSameElemKind. f_equal.
  induction allowed as [|k allowed IH]; simpl; [done|]. rewrite IH. f_equal.
  rewrite !forallb_kind, !fmap_app.
  by rewrite (checked_same_kinds _ _ _ _ Hin), (checked_same_kinds _ _ _ _ Hout).
Qed.

(** Whether the CPU backend supports a node depends on the kind of the node
    and on the element kinds of its inputs and outputs only, never on their
    shapes: two nodes of one kind whose slots carry the same element kinds
    get the same answer (or both have none).  [isQuantizedType] is assumed
    to look at the element kind only. *)
Theorem isOpSupported_ignores_shapes (NI NI' : NodeInfo) :
  (∀ t t', getElementType t = getElementType t' →
           isQuantizedType t = isQuantizedType t') →
  getKind NI = getKind NI' →
  getElementType <$> inTys NI = getElementType <$> inTys NI' →
  getElementType <$> outTys NI = getElementType <$> outTys NI' →
  isOpSupported NI = isOpSupported NI'.
Proof.
  intros HQ Hkind Hin Hout.
  pose proof (fun a i o => allSame_same_kinds NI NI' a i o Hin Hout) as Hall.
  assert (∀ s, getInElemTy idx NI s = getInElemTy idx NI' s) as HinE.
  { intros s. unfold getInElemTy. by rewrite <- !list_lookup_fmap, Hin. }
  assert (∀ s, getOutElemTy idx NI s = getOutElemTy idx NI' s) as HoutE.
  { intros s. unfold getOutElemTy. by rewrite <- !list_lookup_fmap, Hout. }
  assert (∀ s, match getInTy idx NI s, getInTy idx NI' s with
               | Some t, Some t' => isQuantizedType t = isQuantizedType t'
               | None, None => True
               | _, _ => False
               end) as HinT.
  { intros s. specialize (HinE s). unfold getInElemTy, getInTy in *.
    destruct (inTys NI !! idx s), (inTys NI' !! idx s); simplify_eq; simpl in *;
      try done. apply HQ. congruence. }
  unfold CPUBackend.isOpSupported. rewrite <- Hkind.
  destruct (getKind NI); rewrite ?Hall, ?HinE, ?HoutE; try reflexivity.
  - specialize (HinT ConvolutionNode_InputIdx).
    destruct (getInTy idx NI _), (getInTy idx NI' _); try done.
    by rewrite HinT.
  - specialize (HinT BatchedAddNode_BatchIdx).
    destruct (getInTy idx NI _), (getInTy idx NI' _); try done.
    by rewrite HinT.
Qed.

(** [canDoIndexTypeDemotion] allows the demotion from Int64I to Int32I only,
    and whatever its answer it adds the same five node kinds to the kinds
    that are kept out of the conversion, removing none.  Of those five, the
    operator table supports three at all; among these, an [EmbeddingBag] and
    an [EmbeddingBagByteRowwiseOffsets] node is supported with Int64I
    indices and offsets only, so it would be lost by the demotion, while a
    [FusedRowwiseQuantizedSparseLengthsWeightedSum] node takes indices of
    either kind. *)
Theorem index_demotion_exclusions (fromTy toTy : ElemKind)
    (precisionModeKindSet : listset Kind) :
  ((canDoIndexTypeDemotion fromTy toTy precisionModeKindSet).1 = true ↔
     fromTy = Int64ITy ∧ toTy = Int32ITy) ∧
  (∀ k, k ∈ (canDoIndexTypeDemotion fromTy toTy precisionModeKindSet).2 ↔
        k ∈ precisionModeKindSet ∨
        k ∈ [EmbeddingBagNodeKind; EmbeddingBagByteRowwiseOffsetsNodeKind;
             FusedRowwiseQuantizedSparseLengthsSumNodeKind;
             FusedRowwiseQuantizedSparseLengthsWeightedSumNodeKind;
             SparseToDenseMaskNodeKind]) ∧
  (∀ NI,
     getKind NI ∈ (canDoIndexTypeDemotion fromTy toTy ∅).2 →
     isOpSupported NI = Some true →
     (getKind NI = EmbeddingBagNodeKind ∧
      getInElemTy idx NI EmbeddingBagNode_IndicesIdx = Some Int64ITy ∧
      getInElemTy idx NI EmbeddingBagNode_OffsetsIdx = Some Int64ITy) ∨
     (getKind NI = EmbeddingBagByteRowwiseOffsetsNodeKind ∧
      getInElemTy idx NI EmbeddingBagByteRowwiseOffsetsNode_IndicesIdx
        = Some Int64ITy ∧
      getInElemTy idx NI EmbeddingBagByteRowwiseOffsetsNode_OffsetsIdx
        = Some Int64ITy) ∨
     (getKind NI = FusedRowwiseQuantizedSparseLengthsWeightedSumNodeKind ∧
      (getInElemTy idx NI
         FusedRowwiseQuantizedSparseLengthsWeightedSumNode_IndicesIdx
         = Some Int64ITy ∨
       getInElemTy idx NI
         FusedRowwiseQuantizedSparseLengthsWeightedSumNode_IndicesIdx
         = Some Int32ITy))).
Proof.
  split; [|split].
  - unfold canDoIndexTypeDemotion. simpl.
    by rewrite andb_true_iff, !bool_decide_eq_true.
  - intros k. unfold canDoIndexTypeDemotion. simpl.
    rewrite !elem_of_union, !elem_of_singleton, !elem_of_cons, elem_of_nil.
    tauto.
  - intros NI Hk Hsup. unfold canDoIndexTypeDemotion in Hk. simpl in Hk.
    rewrite !elem_of_union, !elem_of_singleton, elem_of_empty in Hk.
    unfold CPUBackend.isOpSupported in Hsup.
    destruct Hk as [E|[E|[E|[E|[E|[]]]]]]; rewrite E in Hsup; try discriminate.
    + right. right. split; [done|].
      rewrite !andM_true, orM_true_of_kinds in Hsup. tauto.
    + right. left. split; [done|].
      rewrite !andM_true, !isKind_true in Hsup. tauto.
    + left. split; [done|].
      rewrite !andM_true, !isKind_true in Hsup. tauto.
Qed.

End OperatorTableFacts.

(* ===================================================================== *)
(** ** More on the host manager, one call at a time *)
(* ===================================================================== *)

Section HostManagerCalls.

Variable ext : Externals.

(** *** States that agree field by field *)

Lemma HostManager_eq (a b : HostManager) :
  config_ a = config_ b → networks_ a = networks_ b →
  processingNetworks_ a = processingNetworks_ b → devices_ a = devices_ b →
  inferQueue_ a = inferQueue_ b →
  activeRequestCount_ a = activeRequestCount_ b →
  totalRequestCount_ a = totalRequestCount_ b →
  statsExporterRegistry_ a = statsExporterRegistry_ b →
  provisioner_ a = provisioner_ b → executor_ a = executor_ b →
  provisionerSet a = provisionerSet b → executorSet a = executorSet b →
  a = b.
Proof. destruct a, b; simpl; intros; by subst. Qed.

Lemma cleanupAddNetwork_unfold hm names :
  cleanupAddNetwork hm names =
  exportMemoryCounters
    (with_processing (fun p => p ∖ list_to_set names) hm).
Proof.
  unfold cleanupAddNetwork. f_equal.
  revert hm. induction names as [|nm names IH]; intros hm; simpl.
  - apply HostManager_eq; simpl; try done. set_solver.
  - rewrite IH. apply HostManager_eq; simpl; try done. set_solver.
Qed.

(** *** Reserving the names *)

Lemma reserveNames_outcome functions names hm :
  match reserveNames functions names hm with
  | Next names' hm' =>
      names' = names ++ functions ∧
      hm' = with_processing (fun p => list_to_set functions ∪ p) hm ∧
      NoDup functions ∧
      ∀ f, f ∈ functions →
           networks_ hm !! f = None ∧ f ∉ processingNetworks_ hm
  | Return e hm' =>
      ∃ reserved fname later,
        functions = reserved ++ fname :: later ∧
        NoDup reserved ∧
        (∀ f, f ∈ reserved →
              networks_ hm !! f = None ∧ f ∉ processingNetworks_ hm) ∧
        (is_Some (networks_ hm !! fname) ∨ fname ∈ processingNetworks_ hm ∨
         fname ∈ reserved) ∧
        e = MAKE_ERR RUNTIME_ERROR
              ("Failed to add network: already have a function called " +:+
               fname) ∧
        hm' = cleanupAddNetwork
                (with_processing (fun p => list_to_set reserved ∪ p) hm)
                (names ++ reserved)
  | Undefined => False
  end.
Proof.
  revert names hm. induction functions as [|fname rest IH]; intros names hm.
  - simpl. rewrite app_nil_r. split; [done|]. split.
    + apply HostManager_eq; simpl; try done. set_solver.
    + split; [constructor|]. intros f Hf. by apply elem_of_nil in Hf.
  - simpl. unfold bind at 1. simpl.
    destruct (bool_decide (is_Some (networks_ hm !! fname)) ||
              bool_decide (fname ∈ processingNetworks_ hm)) eqn:Hdup.
    + unfold bind, modify, returnErr. simpl.
      exists [], fname, rest. simpl. rewrite app_nil_r.
      split; [done|]. split; [constructor|]. split.
      { intros f Hf. by apply elem_of_nil in Hf. }
      split.
      { apply orb_true_iff in Hdup as [H|H]; apply bool_decide_eq_true in H;
          auto. }
      split; [done|]. f_equal. apply HostManager_eq; simpl; try done. set_solver.
    + apply orb_false_iff in Hdup as [Hn Hp].
      apply bool_decide_eq_false in Hn, Hp.
      assert (networks_ hm !! fname = None) as Hnone.
      { destruct (networks_ hm !! fname); [|done]. exfalso. apply Hn. eauto. }
      unfold bind at 1. simpl.
      specialize (IH (names ++ [fname])
                     (with_processing (fun p => {[fname]} ∪ p) hm)).
      destruct (reserveNames rest (names ++ [fname]) _)
        as [names' hm'|e hm'|]; [| |done].
      * destruct IH as (-> & -> & Hnd & Hfresh). simpl in Hfresh.
        split; [by rewrite <- app_assoc|]. split.
        { apply HostManager_eq; simpl; try done. set_solver. }
        split.
        { constructor; [|done]. intros Hin.
          destruct (Hfresh _ Hin) as [_ Hf]. set_solver. }
        intros f Hf. apply elem_of_cons in Hf as [->|Hf]; [done|].
        destruct (Hfresh _ Hf) as [? ?]. split; [done|]. set_solver.
      * destruct IH as (reserved & f0 & later & -> & Hnd & Hfresh & Hwhy & -> & ->).
        simpl in Hfresh, Hwhy.
        exists (fname :: reserved), f0, later. split; [done|]. split.
        { constructor; [|done]. intros Hin.
          destruct (Hfresh _ Hin) as [_ Hf]. set_solver. }
        split.
        { intros f Hf. apply elem_of_cons in Hf as [->|Hf]; [done|].
          destruct (Hfresh _ Hf) as [? ?]. split; [done|]. set_solver. }
        split.
        { destruct Hwhy as [H|[H|H]]; [by left| |right; right; by right].
          apply elem_of_union in H as [H|H]; [|by right; left].
          apply elem_of_singleton in H as ->. right; right; by left. }
        split; [done|].
        rewrite <- app_assoc. simpl. f_equal.
        apply HostManager_eq; simpl; try done. set_solver.
Qed.

(** A module that brings a function name which is already registered, or is
    being added by another call, or which the module itself has twice, is
    turned away with [RUNTIME_ERROR]; the names reserved before the clash
    are given back, so that the host manager is as it was, but for the
    memory counters, which are exported anew. *)
Theorem addNetwork_rejects_duplicates module cctx hm :
  (∃ fname, fname ∈ getFunctions module ∧
            (is_Some (networks_ hm !! fname) ∨
             fname ∈ processingNetworks_ hm)) ∨
  ¬ NoDup (getFunctions module) →
  ∃ fname,
    fname ∈ getFunctions module ∧
    runBody (addNetwork ext module cctx) hm =
      Some (MAKE_ERR RUNTIME_ERROR
              ("Failed to add network: already have a function called " +:+
               fname),
            exportMemoryCounters hm).
Proof.
  intros Hclash. unfold runBody, addNetwork. unfold bind at 1.
  pose proof (reserveNames_outcome (getFunctions module) [] hm) as Hres.
  destruct (reserveNames (getFunctions module) [] hm) as [names hm'|e hm'|];
    [|clear Hclash|done].
  - exfalso. destruct Hres as (_ & _ & Hnd & Hfresh).
    destruct Hclash as [(fname & Hin & [Hn|Hp])|Hdup]; [| |done].
    + destruct (Hfresh _ Hin) as [Hnone _]. rewrite Hnone in Hn.
      by destruct Hn.
    + by destruct (Hfresh _ Hin) as [_ ?].
  - destruct Hres as (reserved & fname & later & Hf & Hnd & Hfresh & _ & -> & ->).
    exists fname. split.
    { rewrite Hf. apply elem_of_app. right. by left. }
    f_equal. f_equal. simpl. rewrite cleanupAddNetwork_unfold. f_equal.
    apply HostManager_eq; simpl; try done.
    apply set_eq. intros x. rewrite elem_of_difference, elem_of_union.
    rewrite !elem_of_list_to_set. split; [tauto|]. intros Hx.
    split; [by right|]. intros Hr. by destruct (Hfresh _ Hr).
Qed.


(** *** The path of [addNetwork] that does not return early *)

Section NormalPath.

Variable Inv : HostManager → Prop.
Hypothesis Inv_devices : ∀ f hm, Inv hm → Inv (with_devices f hm).
Hypothesis Inv_provisioner : ∀ f hm, Inv hm → Inv (with_provisioner f hm).
Hypothesis Inv_executor : ∀ f hm, Inv hm → Inv (with_executor f hm).
Hypothesis Inv_resetProvisioner : ∀ hm, Inv hm → Inv (resetProvisioner hm).
Hypothesis Inv_resetExecutor : ∀ hm, Inv hm → Inv (resetExecutor hm).

Local Notation "'anError'" :=
  (fun (e : Error) (_ : HostManager) => isErr e = true).

Lemma optimizeFunctions_normal module cctx names :
  hoare Inv (optimizeFunctions ext module cctx names) (fun _ => Inv) anError.
Proof.
  unfold optimizeFunctions. apply hoare_forEach. intros F _.
  destruct (isErr _) eqn:Herr.
  - eapply (hoare_seq _ _ _ (fun _ => True)).
    + by apply hoare_modify.
    + intros []. by apply hoare_returnErr.
  - by apply hoare_ret.
Qed.

Lemma rebuildDevice_normal i :
  hoare Inv (rebuildDevice ext i) (fun _ => Inv) anError.
Proof.
  unfold rebuildDevice. apply hoare_after_get. intros hm.
  destruct (devices_ hm !! i); [|apply hoare_undefined].
  eapply (hoare_seq _ _ _ Inv).
  - apply hoare_modify. intros h Hh. apply (Inv_devices _ _ Hh).
  - intros []. apply hoare_RETURN_IF_ERR; auto.
Qed.

Lemma profilingOverride_normal cctx :
  hoare Inv (profilingOverride ext cctx) (fun _ => Inv) anError.
Proof.
  unfold profilingOverride. case_bool_decide; [|by apply hoare_ret].
  apply hoare_after_get. intros hm.
  eapply (hoare_seq _ _ _ Inv).
  { case_bool_decide.
    - by apply hoare_returnErr.
    - by apply hoare_ret. }
  intros []. eapply (hoare_seq _ _ _ Inv).
  { apply hoare_forEach. intros i _. apply rebuildDevice_normal. }
  intros []. eapply (hoare_seq _ _ _ Inv).
  { apply hoare_modify. intros h Hh. apply (Inv_resetProvisioner _ Hh). }
  intros []. apply hoare_modify. intros h Hh. apply (Inv_resetExecutor _ Hh).
Qed.

Lemma foldConstants_normal module cctx nodeList :
  hoare Inv (foldConstants ext module cctx nodeList) (fun _ => Inv) anError.
Proof.
  unfold foldConstants. destruct (delayAndRecordConstantModification cctx);
    [|by apply hoare_ret].
  eapply (hoare_seq _ _ _ Inv).
  { by apply hoare_RETURN_ERR_IF_NOT. }
  intros []. destruct nodeList as [|dag ?]; [by apply hoare_ret|].
  apply hoare_forEach. intros dagNode _.
  eapply (hoare_seq _ _ _ Inv).
  { by apply hoare_RETURN_ERR_IF_NOT. }
  intros []. apply hoare_after_get. intros hm.
  eapply (hoare_seq _ _ _ Inv).
  { destruct (provisionerSet hm); [by apply hoare_ret | apply hoare_undefined]. }
  intros []. by apply hoare_RETURN_ERR_IF_NOT.
Qed.

Lemma serializeDAG_normal cctx nodeList :
  hoare Inv (serializeDAG ext cctx nodeList) (fun _ => Inv) anError.
Proof.
  unfold serializeDAG. destruct (serializeCompiledDAG cctx); [|by apply hoare_ret].
  destruct nodeList as [|[[rootNode|] ?] ?]; try apply hoare_undefined.
  apply hoare_RETURN_IF_ERR; auto.
Qed.

End NormalPath.

(** What the state is when a successful [addNetwork] comes to its last two
    blocks. *)
Lemma addNetwork_success_path module cctx hm hm' :
  runBody (addNetwork ext module cctx) hm = Some (success, hm') →
  NoDup (getFunctions module) ∧
  (∀ f, f ∈ getFunctions module →
        networks_ hm !! f = None ∧ f ∉ processingNetworks_ hm) ∧
  ∃ nodeList sharedModule hm1 devs hm3,
    config_ hm1 = config_ hm ∧ networks_ hm1 = networks_ hm ∧
    processingNetworks_ hm1 =
      list_to_set (getFunctions module) ∪ processingNetworks_ hm ∧
    inferQueue_ hm1 = inferQueue_ hm ∧
    activeRequestCount_ hm1 = activeRequestCount_ hm ∧
    totalRequestCount_ hm1 = totalRequestCount_ hm ∧
    createPools ext (mergeBackendOptions ext cctx) nodeList
      (with_provisioner (fun p => p ++ [provision nodeList])
         (with_devices (fun _ => devs) hm1)) = Next tt hm3 ∧
    publish sharedModule nodeList (getFunctions module) hm3 = Next tt hm'.
Proof.
  intros Hrun. unfold runBody, addNetwork in Hrun. unfold bind at 1 in Hrun.
  pose proof (reserveNames_outcome (getFunctions module) [] hm) as Hres.
  destruct (reserveNames (getFunctions module) [] hm) as [names hm0|e hm0|];
    [| |done].
  2: { destruct Hres as (? & ? & ? & _ & _ & _ & _ & -> & _). by simplify_eq. }
  destruct Hres as (-> & -> & Hnd & Hfresh). simpl in Hrun.
  split; [done|]. split; [done|].
  set (Inv := fun h : HostManager =>
    config_ h = config_ hm ∧ networks_ h = networks_ hm ∧
    processingNetworks_ h =
      list_to_set (getFunctions module) ∪ processingNetworks_ hm ∧
    inferQueue_ h = inferQueue_ hm ∧
    activeRequestCount_ h = activeRequestCount_ hm ∧
    totalRequestCount_ h = totalRequestCount_ hm).
  assert (Inv (with_processing
                 (fun p => list_to_set (getFunctions module) ∪ p) hm)) as H0.
  { by repeat split. }
  remember (with_processing
              (fun p => list_to_set (getFunctions module) ∪ p) hm) as h0 eqn:Hh0.
  clear Hh0. revert Hrun. unfold bind at 1. simpl.
  match goal with
  | |- context [bind ?m _] =>
      assert (hoare Inv m (fun _ => Inv) (fun e _ => isErr e = true)) as Hopt
  end.
  { destruct (negb _); [by apply optimizeFunctions_normal | by apply hoare_ret]. }
  unfold bind at 1. specialize (Hopt h0 H0).
  destruct (if negb _ then _ else _) as [[] h1|e h1|]; [| |done].
  2: { intros [= -> _]. done. }
  destruct (partition ext module _ _ _ _) as [[nodeList|code msg] module'].
  2: { unfold bind, modify, returnErr. simpl. by intros [= ?]. }
  unfold bind at 1.
  pose proof (profilingOverride_normal Inv
    (fun _ _ H => H) (fun _ H => H) (fun _ H => H)
    (mergeBackendOptions ext cctx) h1 Hopt) as Hprof.
  destruct (profilingOverride ext _ h1) as [[] h2|e h2|]; [| |done].
  2: { intros [= -> _]. done. }
  unfold bind at 1.
  pose proof (foldConstants_normal Inv module'
    (mergeBackendOptions ext cctx) nodeList h2 Hprof) as Hfold.
  destruct (foldConstants ext _ _ _ h2) as [[] h3|e h3|]; [| |done].
  2: { intros [= -> _]. done. }
  unfold bind at 1.
  pose proof (serializeDAG_normal Inv
    (mergeBackendOptions ext cctx) nodeList h3 Hfold) as Hser.
  destruct (serializeDAG ext _ _ h3) as [[] h4|e h4|]; [| |done].
  2: { intros [= -> _]. done. }
  unfold bind at 1. simpl. unfold bind at 1.
  destruct (provisionerSet h4); simpl; [|done].
  destruct (provisionOn ext _ _ _ _) as [[err nodeList'] devs].
  unfold bind, modify. simpl.
  destruct (isErr err) eqn:Herr; simpl.
  { intros [= -> _]. done. }
  pose proof (createPools_outcome ext (mergeBackendOptions ext cctx) nodeList'
                (with_provisioner (fun p => p ++ [provision nodeList'])
                   (with_devices (fun _ => devs) h4))) as Hout.
  destruct (createPools ext _ nodeList' _) as [[] hm3|e hm3|] eqn:Hpools;
    [|done|done].
  destruct (publish module' nodeList' (getFunctions module) hm3)
    as [[] hm4|e hm4|] eqn:Hpub; simpl; [| |done].
  2: { pose proof (publish_keeps (fun _ => True) module' nodeList'
         (getFunctions module) (fun _ _ _ => I) (fun _ _ _ => I)
         (fun _ _ _ _ => I) hm3 I) as Hp. by rewrite Hpub in Hp. }
  intros [= <-]. destruct Hser as (? & ? & ? & ? & ? & ?).
  exists nodeList', module', h4, devs, hm3. done.
Qed.


(** *** Publishing *)

Lemma publish_outcome sharedModule nodeList names hm hm' :
  publish sharedModule nodeList names hm = Next tt hm' →
  (∀ node, node ∈ nodeList → is_Some (root node)) ∧
  hm' = cleanupAddNetwork
          (with_networks (fun nets => published sharedModule nets nodeList) hm)
          names.
Proof.
  unfold publish. unfold bind at 1.
  assert (∀ h,
    match forEach nodeList (fun node =>
            match root node with
            | None => undefined
            | Some rootNode =>
                modify (with_networks (fun nets =>
                  let networkData :=
                    default emptyNetworkData (nets !! name rootNode) in
                  <[name rootNode :=
                      {| dag := node; module := Some sharedModule;
                         refcount := refcount networkData |}]> nets))
            end) h with
    | Next _ h' =>
        (∀ node, node ∈ nodeList → is_Some (root node)) ∧
        h' = with_networks
               (fun nets => published sharedModule nets nodeList) h
    | Return _ _ => False
    | Undefined => True
    end) as Hloop.
  { induction nodeList as [|node nodeList IH]; intros h; simpl.
    - split; [by intros ? ?%elem_of_nil|]. by apply HostManager_eq.
    - unfold bind at 1. destruct (root node) as [rootNode|] eqn:Hroot; [|done].
      simpl. specialize (IH (with_networks (fun nets =>
          <[name rootNode :=
              {| dag := node; module := Some sharedModule;
                 refcount := refcount (default emptyNetworkData
                                         (nets !! name rootNode)) |}]> nets) h)).
      destruct (forEach nodeList _ _) as [[] h'|e h'|]; [|done|done].
      destruct IH as [Hroots ->]. split.
      + intros n Hn. apply elem_of_cons in Hn as [->|Hn]; [by rewrite Hroot|].
        by apply Hroots.
      + apply HostManager_eq; simpl; try done;
          unfold published; simpl; by rewrite Hroot. }
  specialize (Hloop hm).
  destruct (forEach nodeList _ hm) as [[] h'|e h'|]; [|done|done].
  destruct Hloop as [Hroots ->]. unfold modify. simpl. by intros [= <-].
Qed.

Lemma published_lookup sharedModule nodeList nets nm :
  match published sharedModule nets nodeList !! nm with
  | Some data =>
      (nets !! nm = Some data ∧
       ∀ node rootNode, node ∈ nodeList → root node = Some rootNode →
                        name rootNode ≠ nm) ∨
      (∃ rootNode, dag data ∈ nodeList ∧ root (dag data) = Some rootNode ∧
                   name rootNode = nm ∧ module data = Some sharedModule ∧
                   refcount data =
                     refcount (default emptyNetworkData (nets !! nm)))
  | None =>
      nets !! nm = None ∧
      ∀ node rootNode, node ∈ nodeList → root node = Some rootNode →
                       name rootNode ≠ nm
  end.
Proof.
  revert nets. induction nodeList as [|node nodeList IH]; intros nets.
  - unfold published. simpl. destruct (nets !! nm) eqn:E.
    + left. split; [done|]. by intros ? ? ?%elem_of_nil.
    + split; [done|]. by intros ? ? ?%elem_of_nil.
  - change (published sharedModule nets (node :: nodeList))
      with (published sharedModule
              (match root node with
               | Some rootNode =>
                   <[name rootNode :=
                       {| dag := node; module := Some sharedModule;
                          refcount := refcount (default emptyNetworkData
                                                  (nets !! name rootNode)) |}]>
                     nets
               | None => nets
               end) nodeList).
    set (nets1 := match root node with
                  | Some rootNode => _
                  | None => nets
                  end).
    specialize (IH nets1).
    assert (match root node with
            | Some rootNode =>
                if decide (name rootNode = nm)
                then ∃ data, nets1 !! nm = Some data ∧ dag data = node ∧
                       module data = Some sharedModule ∧
                       refcount data =
                         refcount (default emptyNetworkData (nets !! nm))
                else nets1 !! nm = nets !! nm
            | None => nets1 !! nm = nets !! nm
            end) as H1.
    { subst nets1. destruct (root node) as [rootNode|]; [|done].
      case_decide as Hnm.
      - subst nm. rewrite lookup_insert_eq. eauto.
      - by rewrite lookup_insert_ne. }
    destruct (published sharedModule nets1 nodeList !! nm) as [data|].
    + destruct IH as [[Hold Hnot]|(rootNode & Hin & Hroot & Hname & Hmod & Hrc)].
      * destruct (root node) as [rootNode|] eqn:Hroot.
        -- case_decide as Hnm.
           ++ destruct H1 as (data1 & Hd1 & Hdag & Hmod & Hrc).
              rewrite Hold in Hd1. injection Hd1 as <-.
              right. exists rootNode. subst node. rewrite Hroot.
              repeat split; try done. by left.
           ++ left. rewrite <- H1. split; [done|].
              intros n r Hn Hr. apply elem_of_cons in Hn as [->|Hn].
              ** congruence.
              ** by eapply Hnot.
        -- left. rewrite <- H1. split; [done|].
           intros n r Hn Hr. apply elem_of_cons in Hn as [->|Hn].
           ** congruence.
           ** by eapply Hnot.
      * right. exists rootNode. split; [by right|]. repeat split; try done.
        rewrite Hrc. destruct (root node) as [r0|] eqn:Hr0; [|by rewrite H1].
        case_decide; [|by rewrite H1].
        destruct H1 as (data1 & -> & _ & _ & Hrc1). done.
    + destruct IH as [Hnone Hnot].
      destruct (root node) as [rootNode|] eqn:Hroot.
      * case_decide as Hnm.
        -- destruct H1 as (data1 & Hd1 & _). congruence.
        -- rewrite <- H1. split; [done|].
           intros n r Hn Hr. apply elem_of_cons in Hn as [->|Hn].
           ++ congruence.
           ++ by eapply Hnot.
      * rewrite <- H1. split; [done|].
        intros n r Hn Hr. apply elem_of_cons in Hn as [->|Hn].
        -- congruence.
        -- by eapply Hnot.
Qed.


(** A successful [addNetwork] has registered every DAG the provisioner
    returned under the name of its root: [networkAdded] answers yes for the
    name and [getNetworkDAG] gives a DAG of the list with that root name
    (the last one, should two roots share a name).  Every entry of the
    registry is then an entry from before or one of these DAGs, and it has
    the reference count its name had before (zero for a new name).  The
    reserved names are all released: the set of names being added is what
    it was before the call. *)
Theorem addNetwork_publishes module cctx hm hm' :
  runBody (addNetwork ext module cctx) hm = Some (success, hm') →
  processingNetworks_ hm' = processingNetworks_ hm ∧
  ∃ nodeList,
    last (provisioner_ hm') = Some (provision nodeList) ∧
    (∀ node, node ∈ nodeList →
       ∃ rootNode entry,
         root node = Some rootNode ∧
         networkAdded (name rootNode) hm' = true ∧
         getNetworkDAG (name rootNode) hm' = Value entry ∧
         entry ∈ nodeList ∧ name <$> root entry = Some (name rootNode)) ∧
    (∀ nm data, networks_ hm' !! nm = Some data →
       refcount data
         = refcount (default emptyNetworkData (networks_ hm !! nm)) ∧
       (networks_ hm !! nm = Some data ∨ dag data ∈ nodeList)).
Proof.
  intros Hrun.
  destruct (addNetwork_success_path _ _ _ _ Hrun) as
    (Hnd & Hfresh & nodeList & sharedModule & hm1 & devs & hm3 &
     Hc & Hn & Hp & Hq & _ & _ & Hpools & Hpub).
  destruct (createPools_spec ext _ _ _ _ Hpools)
    as (_ & _ & Hn3 & Hp3 & _ & Hpr3 & _).
  simpl in Hn3, Hp3, Hpr3.
  apply publish_outcome in Hpub as [Hroots ->].
  rewrite cleanupAddNetwork_unfold.
  destruct (exportMemoryCounters_fields
    (with_processing (fun p => p ∖ list_to_set (getFunctions module))
       (with_networks (fun nets => published sharedModule nets nodeList) hm3)))
    as (_ & Hn' & Hp' & _ & _ & _ & _ & Hpr' & _).
  simpl in Hn', Hp', Hpr'. rewrite Hp3, Hp in Hp'. rewrite Hn3, Hn in Hn'.
  rewrite Hpr3 in Hpr'.
  split.
  { rewrite Hp'. apply set_eq. intros x.
    rewrite elem_of_difference, elem_of_union, elem_of_list_to_set.
    split; [tauto|]. intros Hx. split; [by right|].
    intros Hin. by destruct (Hfresh _ Hin). }
  exists nodeList. split; [rewrite Hpr'; apply last_snoc|]. split.
  - intros node Hnode. destruct (Hroots _ Hnode) as [rootNode Hroot].
    pose proof (published_lookup sharedModule nodeList (networks_ hm)
                  (name rootNode)) as Hl.
    unfold networkAdded, getNetworkDAG. rewrite Hn'.
    destruct (published sharedModule (networks_ hm) nodeList !! name rootNode)
      as [data|] eqn:Hdata.
    + destruct Hl as [[_ Hnot]|(r & Hin & Hr & Hname & _)].
      { by destruct (Hnot _ _ Hnode Hroot). }
      exists rootNode, (dag data). rewrite Hdata. split; [done|].
      split; [rewrite bool_decide_eq_true; eauto|]. split; [done|].
      split; [done|]. by rewrite Hr, <- Hname.
    + destruct Hl as [_ Hnot]. by destruct (Hnot _ _ Hnode Hroot).
  - intros nm data Hdata. rewrite Hn' in Hdata.
    pose proof (published_lookup sharedModule nodeList (networks_ hm) nm) as Hl.
    rewrite Hdata in Hl.
    destruct Hl as [[Hold _]|(r & Hin & _ & _ & _ & Hrc)].
    + rewrite Hold. auto.
    + auto.
Qed.

(** An [addNetwork] that returns an error has registered nothing: the
    registry and the queue are what they were.  (Whether its names are
    still reserved is another matter.) *)
Theorem addNetwork_failure_registers_nothing module cctx hm e hm' :
  runBody (addNetwork ext module cctx) hm = Some (e, hm') →
  e ≠ success →
  networks_ hm' = networks_ hm ∧ inferQueue_ hm' = inferQueue_ hm ∧
  totalRequestCount_ hm' = totalRequestCount_ hm ∧ config_ hm' = config_ hm.
Proof.
  intros Hrun He.
  pose proof (addNetwork_outcome ext
    (fun h => networks_ h = networks_ hm ∧ inferQueue_ h = inferQueue_ hm ∧
              totalRequestCount_ h = totalRequestCount_ hm ∧
              config_ h = config_ hm)
    (fun _ _ H => H) (fun _ _ H => H) (fun _ _ H => H)
    (fun _ _ H => H) (fun _ H => H) (fun _ H => H) module cctx hm
    (conj eq_refl (conj eq_refl (conj eq_refl eq_refl)))) as Hout.
  unfold runBody in Hrun.
  destruct (addNetwork ext module cctx hm) as [e1 hm1|e1 hm1|]; simplify_eq.
  - by destruct Hout as [-> _].
  - by destruct Hout as [_ ?].
Qed.

(** After a [removeNetwork] that reports no error the name is not in the
    registry: [networkAdded] answers no and [getNetworkDAG] fails with
    [RUNTIME_ERROR].  If the name is still registered afterwards, the call
    has returned [RUNTIME_NET_BUSY] and changed nothing.  Entries under
    other names are never touched. *)
Theorem removeNetwork_then_absent networkName hm :
  (isErr (removeNetwork ext networkName hm).1 = false →
   networkAdded networkName (removeNetwork ext networkName hm).2 = false ∧
   getNetworkDAG networkName (removeNetwork ext networkName hm).2
     = Failure RUNTIME_ERROR "Network not found.") ∧
  (networkAdded networkName (removeNetwork ext networkName hm).2 = true →
   (removeNetwork ext networkName hm).2 = hm ∧
   ∃ msg, (removeNetwork ext networkName hm).1
            = MAKE_ERR RUNTIME_NET_BUSY msg) ∧
  (∀ other, other ≠ networkName →
     networks_ (removeNetwork ext networkName hm).2 !! other
       = networks_ hm !! other).
Proof.
  unfold networkAdded, getNetworkDAG.
  destruct (networks_ hm !! networkName) as [network|] eqn:Hnet.
  - destruct (decide (networkName ∈ processingNetworks_ hm ∨
                      refcount network ≠ 0)) as [Hbusy|Hfree].
    + destruct (removeNetwork_busy ext _ _ _ Hnet Hbusy) as [msg ->]. simpl.
      split; [done|]. split; [eauto|done].
    + destruct (removeNetwork_erases ext networkName hm network Hnet)
        as (err & hm1 & -> & Hn & _); [tauto| |].
      { destruct (decide (refcount network = 0)); tauto. }
      simpl. destruct (exportMemoryCounters_fields hm1) as (_ & -> & _).
      rewrite Hn, lookup_delete_eq. split; [done|]. split.
      * intros H. apply bool_decide_eq_true in H. by destruct H.
      * intros other Hne. by rewrite lookup_delete_ne.
  - rewrite (removeNetwork_absent ext _ _ Hnet). simpl. rewrite Hnet.
    split; [done|]. split; [|done].
    intros H. apply bool_decide_eq_true in H. by destruct H.
Qed.


(** *** clearHost and the destructor *)









(** *** init *)

Lemma exportMemoryCounters_pointers hm :
  provisionerSet (exportMemoryCounters hm) = provisionerSet hm ∧
  executorSet (exportMemoryCounters hm) = executorSet hm.
Proof. unfold exportMemoryCounters. by destruct (foldl _ _ _). Qed.

Lemma initDevices_run configs deviceCount hm :
  match initDevices ext configs deviceCount hm with
  | Next _ hm' =>
      (∀ i config, configs !! i = Some config →
         dmInit (createDeviceManager ext
                   (namedConfig (deviceCount + N.of_nat i) config)) = success) ∧
      (∀ i config, configs !! i = Some config →
         devices_ hm' !! (deviceCount + N.of_nat i)%N =
           Some (createDeviceManager ext
                   (namedConfig (deviceCount + N.of_nat i) config))) ∧
      (∀ k, (k < deviceCount ∨ deviceCount + N.of_nat (length configs) ≤ k)%N →
            devices_ hm' !! k = devices_ hm !! k) ∧
      hm' = with_devices (fun _ => devices_ hm') hm
  | Return e hm' =>
      ∃ i config,
        configs !! i = Some config ∧
        e = dmInit (createDeviceManager ext
                      (namedConfig (deviceCount + N.of_nat i) config)) ∧
        e ≠ success ∧
        (∀ j c, (j < i)%nat → configs !! j = Some c →
           dmInit (createDeviceManager ext
                     (namedConfig (deviceCount + N.of_nat j) c)) = success) ∧
        (∀ j c, (j ≤ i)%nat → configs !! j = Some c →
           devices_ hm' !! (deviceCount + N.of_nat j)%N =
             Some (createDeviceManager ext
                     (namedConfig (deviceCount + N.of_nat j) c))) ∧
        (∀ k, (k < deviceCount ∨ deviceCount + N.of_nat i < k)%N →
              devices_ hm' !! k = devices_ hm !! k) ∧
        hm' = with_devices (fun _ => devices_ hm') hm
  | Undefined => False
  end.
Proof.
  revert deviceCount hm. induction configs as [|config configs IH];
    intros deviceCount hm.
  - simpl. split; [by intros ? ? ?|]. split; [by intros ? ? ?|].
    split; [done|]. by apply HostManager_eq.
  - simpl. unfold bind at 1. simpl. unfold bind at 1.
    change (match cfgName config with
            | Some _ => config
            | None => {| cfgBackendName := cfgBackendName config;
                         cfgName := Some ("config" +:+ pretty deviceCount) |}
            end) with (namedConfig deviceCount config).
    set (dev := createDeviceManager ext (namedConfig deviceCount config)).
    unfold RETURN_IF_ERR.
    destruct (isErr (dmInit dev)) eqn:Herr; simpl.
    + exists 0%nat, config. rewrite N.add_0_r. fold dev.
      split; [done|]. split; [done|].
      split; [by destruct (dmInit dev)|].
      split; [intros; lia|]. split.
      { intros j c Hj Hc. assert (j = 0%nat) as -> by lia. simpl in Hc.
        injection Hc as <-. rewrite N.add_0_r. apply lookup_insert_eq. }
      split.
      { intros k Hk. apply lookup_insert_ne. lia. }
      by apply HostManager_eq.
    + specialize (IH (deviceCount + 1)%N
                     (with_devices <[deviceCount := dev]> hm)).
      assert (dmInit dev = success) as Hok by (by destruct (dmInit dev)).
      assert (∀ j, (deviceCount + 1 + N.of_nat j)%N
                   = (deviceCount + N.of_nat (S j))%N) as Hshift
        by (intros; lia).
      destruct (initDevices ext configs (deviceCount + 1) _)
        as [[] hm'|e hm'|]; [| |done].
      * destruct IH as (Hinit & Hdevs & Hrest & Heq). simpl in Hrest.
        split.
        { intros [|i] c Hc; simpl in Hc.
          - injection Hc as <-. by rewrite N.add_0_r.
          - rewrite <- Hshift. by apply Hinit. }
        split.
        { intros [|i] c Hc; simpl in Hc.
          - injection Hc as <-. rewrite N.add_0_r.
            rewrite Hrest by lia. apply lookup_insert_eq.
          - rewrite <- Hshift. by apply Hdevs. }
        split.
        { intros k Hk. rewrite Hrest by (simpl in Hk; lia).
          apply lookup_insert_ne. simpl in Hk. lia. }
        rewrite Heq at 1. by apply HostManager_eq.
      * destruct IH as (i & c & Hc & -> & Hne & Hbefore & Hdevs & Hrest & Heq).
        simpl in Hrest.
        exists (S i), c. rewrite <- Hshift.
        split; [done|]. split; [done|]. split; [done|]. split.
        { intros [|j] c' Hj Hc'; simpl in Hc'.
          - injection Hc' as <-. by rewrite N.add_0_r.
          - rewrite <- Hshift. apply Hbefore; [lia | done]. }
        split.
        { intros [|j] c' Hj Hc'; simpl in Hc'.
          - injection Hc' as <-. rewrite N.add_0_r.
            rewrite Hrest by lia. apply lookup_insert_eq.
          - rewrite <- Hshift. apply Hdevs; [lia | done]. }
        split.
        { intros k Hk. rewrite Hrest by lia. apply lookup_insert_ne. lia. }
        rewrite Heq at 1. by apply HostManager_eq.
Qed.

(** [init] creates the device managers in the order of the configurations
    and numbers them from zero; a configuration without a name is named
    ["config<n>"] after its number.  When every device initializes, [init]
    succeeds with a fresh provisioner and executor and with balanced
    memory counters.  When one fails, [init] returns that device's error at
    once: the failed device and the ones before it stay registered, the
    later configurations are not looked at, and neither the provisioner,
    nor the executor, nor the counters are set up.  Device managers that
    were registered under other numbers stay. *)
Theorem init_devices configs hm :
  ∃ e hm',
    runBody (init ext configs) hm = Some (e, hm') ∧
    ((∀ i config, configs !! i = Some config →
        dmInit (createDeviceManager ext (namedConfig (N.of_nat i) config))
          = success) →
     e = success ∧
     (∀ i config, configs !! i = Some config →
        devices_ hm' !! N.of_nat i =
          Some (createDeviceManager ext (namedConfig (N.of_nat i) config))) ∧
     (∀ k, (N.of_nat (length configs) ≤ k)%N →
           devices_ hm' !! k = devices_ hm !! k) ∧
     provisioner_ hm' = [] ∧ executor_ hm' = [] ∧
     provisionerSet hm' = true ∧ executorSet hm' = true ∧
     balanced (statsExporterRegistry_ hm')) ∧
    (∀ i config,
       configs !! i = Some config →
       dmInit (createDeviceManager ext (namedConfig (N.of_nat i) config))
         ≠ success →
       (∀ j c, (j < i)%nat → configs !! j = Some c →
          dmInit (createDeviceManager ext (namedConfig (N.of_nat j) c))
            = success) →
       e = dmInit (createDeviceManager ext (namedConfig (N.of_nat i) config)) ∧
       (∀ j c, (j ≤ i)%nat → configs !! j = Some c →
          devices_ hm' !! N.of_nat j =
            Some (createDeviceManager ext (namedConfig (N.of_nat j) c))) ∧
       (∀ k, (N.of_nat i < k)%N → devices_ hm' !! k = devices_ hm !! k) ∧
       provisioner_ hm' = provisioner_ hm ∧ executor_ hm' = executor_ hm ∧
       provisionerSet hm' = provisionerSet hm ∧
       executorSet hm' = executorSet hm ∧
       statsExporterRegistry_ hm' = statsExporterRegistry_ hm).
Proof.
  unfold runBody, init. unfold bind at 1.
  pose proof (initDevices_run configs 0%N hm) as Hrun.
  destruct (initDevices ext configs 0 hm) as [[] hm1|e hm1|]; [| |done].
  - destruct Hrun as (Hinit & Hdevs & Hrest & Heq).
    unfold bind, modify, ret. simpl. eexists _, _. split; [reflexivity|].
    split.
    + intros _. split; [done|].
      destruct (exportMemoryCounters_fields
        (resetExecutor (resetProvisioner hm1)))
        as (_ & _ & _ & Hd & _ & _ & _ & Hp & He).
      simpl in Hd, Hp, He. rewrite Hd, Hp, He.
      split; [intros i c Hc; by apply (Hdevs i c)|].
      split; [intros k Hk; apply Hrest; lia|].
      split; [done|]. split; [done|].
      split; [by rewrite (proj1 (exportMemoryCounters_pointers _))|].
      split; [by rewrite (proj2 (exportMemoryCounters_pointers _))|].
      apply exportMemoryCounters_balanced.
    + intros i c Hc Hne _. by destruct Hne; apply (Hinit i c).
  - destruct Hrun as (i & c & Hc & -> & Hne & Hbefore & Hdevs & Hrest & Heq).
    simpl in *. eexists _, _. split; [reflexivity|]. split.
    + intros Hall. by destruct Hne; apply Hall.
    + intros i' c' Hc' Hne' Hbefore'.
      assert (i' = i) as ->.
      { destruct (lt_eq_lt_dec i' i) as [[Hlt| ->]|Hgt]; [|done|].
        - by destruct Hne'; apply (Hbefore i' c').
        - by destruct Hne; apply (Hbefore' i c). }
      assert (c' = c) as -> by congruence.
      split; [done|]. split; [exact Hdevs|].
      split; [intros k Hk; apply Hrest; lia|].
      rewrite Heq. done.
Qed.

End HostManagerCalls.
(* ===================================================================== *)
(** ** The device configuration helpers *)
(* ===================================================================== *)

Section DeviceConfigFacts.

Lemma find_occurrences c s pos :
  match find c pos s with
  | Some p => (pos ≤ p)%nat ∧
              occurrences c pos s = S (occurrences c (S p) s)
  | None => occurrences c pos s = 0%nat
  end.
Proof.
  revert pos. induction s as [|a s IH]; intros pos; simpl; [done|].
  destruct pos as [|pos].
  - destruct (decide (a = c)) as [->|Hne]; simpl.
    + done.
    + specialize (IH 0%nat). destruct (find c 0 s) as [p|]; simpl.
      * destruct IH as [_ ->]. split; [lia|]. done.
      * done.
  - specialize (IH pos). destruct (find c pos s) as [p|]; simpl; [|done].
    destruct IH as [Hle ->]. split; [lia|]. done.
Qed.

Lemma backendParam_defined s :
  is_Some (backendParam s) ↔ (4 ≤ occurrences quote 0 s)%nat.
Proof.
  unfold backendParam.
  pose proof (find_occurrences quote s 0) as H1.
  destruct (find quote 0 s) as [pos1|]; simpl.
  2: { split; [by intros [? ?] | lia]. }
  destruct H1 as [_ H1]. rewrite Nat.add_1_r.
  pose proof (find_occurrences quote s (S pos1)) as H2.
  destruct (find quote (S pos1) s) as [pos2|]; simpl.
  2: { split; [by intros [? ?] | lia]. }
  destruct H2 as [_ H2]. rewrite Nat.add_1_r.
  pose proof (find_occurrences quote s (S pos2)) as H3.
  destruct (find quote (S pos2) s) as [pos3|]; simpl.
  2: { split; [by intros [? ?] | lia]. }
  destruct H3 as [_ H3]. rewrite Nat.add_1_r.
  pose proof (find_occurrences quote s (S pos3)) as H4.
  destruct (find quote (S pos3) s) as [pos4|]; simpl.
  2: { split; [by intros [? ?] | lia]. }
  destruct H4 as [_ H4]. split; [lia | eauto].
Qed.

(** [getBackendParams] has a result exactly when every line of its input
    has at least four double quotes; otherwise one of its assertions
    fails.  The input ends at its first NUL, an empty input gives the empty
    map, and two newlines in a row before any NUL make the call fail. *)
Theorem getBackendParams_defined (str : string) :
  (is_Some (getBackendParams str) ↔
     Forall (fun s => 4 ≤ occurrences quote 0 s)%nat (getlines (c_str str))) ∧
  getBackendParams EmptyString = Some ∅ ∧
  (∀ after,
     getBackendParams (str +:+ String nul after) = getBackendParams str) ∧
  (occurrences nul 0 str = 0%nat →
   ∀ after,
     getBackendParams (str +:+ String newline (String newline after)) = None).
Proof.
  assert (∀ lines (acc : option (gmap string string)),
    is_Some (foldl (fun ret s =>
               ret ← ret; '(key, value) ← backendParam s;
               Some (<[key := value]> ret)) acc lines) ↔
    is_Some acc ∧ Forall (fun s => 4 ≤ occurrences quote 0 s)%nat lines)
    as Hfold.
  { induction lines as [|s lines IH]; intros acc; simpl.
    - split; [by split | by intros []].
    - rewrite IH, Forall_cons, <- backendParam_defined.
      destruct acc as [ret|]; simpl.
      + destruct (backendParam s) as [[key value]|]; simpl.
        * split; [intros [? ?] | intros (? & ? & ?)]; eauto.
        * split; [by intros [[? ?] ?] | by intros [? [[? ?] ?]]].
      + split; [by intros [[? ?] ?] | by intros [[? ?] ?]]. }
  split; [|split; [|split]].
  - unfold getBackendParams. rewrite Hfold. split; [by intros [] | by split].
  - done.
  - intros after. unfold getBackendParams. f_equal. f_equal.
    induction str as [|a before IH]; simpl; [done|].
    destruct (decide (a = nul)); [done|]. by rewrite IH.
  - intros Hnul after.
    destruct (getBackendParams _) as [ret|] eqn:Hret; [|done]. exfalso.
    assert (is_Some (getBackendParams
              (str +:+ String newline (String newline after)))) as Hsome
      by (by rewrite Hret).
    unfold getBackendParams in Hsome. apply Hfold in Hsome as [_ Hall].
    assert (∃ s more,
              getlines (c_str (str +:+ String newline (String newline after)))
                = s :: more ∧ EmptyString ∈ more) as (s & more & Heq & Hin).
    { clear -Hnul. induction str as [|a before IH]; simpl.
      - eexists _, _. split; [reflexivity|]. by left.
      - simpl in Hnul. destruct (decide (a = nul)) as [->|Hn]; [done|].
        simpl in *. destruct (IH Hnul) as (s & more & -> & Hin).
        destruct (decide (a = newline)).
        + eexists _, _. split; [reflexivity|]. by right.
        + eexists _, _. split; [reflexivity|]. done. }
    rewrite Heq in Hall. apply Forall_cons in Hall as [_ Hall].
    rewrite Forall_forall in Hall. specialize (Hall _ Hin). simpl in Hall. lia.
Qed.


(** *** Reading back what was written *)

Lemma find_first c u r :
  occurrences c 0 u = 0%nat →
  find c 0 (u +:+ String c r) = Some (String.length u).
Proof.
  induction u as [|a u IH]; simpl.
  - by rewrite decide_True.
  - destruct (decide (a = c)); [done|]. simpl. intros H. by rewrite IH.
Qed.

Lemma find_after c u a r n :
  find c (String.length u + 1 + n) (u +:+ String a r) =
  (fun p => String.length u + 1 + p)%nat <$> find c n r.
Proof.
  induction u as [|b u IH]; simpl.
  - destruct (find c n r); done.
  - rewrite IH. by destruct (find c n r).
Qed.

Lemma substring_after u a r n m :
  String.substring (String.length u + 1 + n) m (u +:+ String a r) =
  String.substring n m r.
Proof. induction u as [|b u IH]; simpl; [done|]. apply IH. Qed.

Lemma substring_first u r :
  String.substring 0 (String.length u) (u +:+ r) = u.
Proof.
  induction u as [|b u IH]; simpl; [by destruct r|]. by rewrite IH.
Qed.

(** On a line, what stands before the first quote, between the second and
    the third, and after the fourth is not looked at. *)
Lemma backendParam_quoted pre key mid value post :
  occurrences quote 0 pre = 0%nat → occurrences quote 0 key = 0%nat →
  occurrences quote 0 mid = 0%nat → occurrences quote 0 value = 0%nat →
  backendParam
    (pre +:+ String quote (key +:+ String quote (mid +:+
       String quote (value +:+ String quote post)))) = Some (key, value).
Proof.
  intros Hpre Hkey Hmid Hvalue.
  set (r3 := value +:+ String quote post).
  set (r2 := mid +:+ String quote r3).
  set (r1 := key +:+ String quote r2).
  set (s := pre +:+ String quote r1).
  set (p1 := String.length pre).
  set (p2 := (p1 + 1 + String.length key)%nat).
  set (p3 := (p2 + 1 + String.length mid)%nat).
  set (p4 := (p3 + 1 + String.length value)%nat).
  assert (find quote 0 r3 = Some (String.length value)) as H3
    by (by apply find_first).
  assert (find quote 0 r2 = Some (String.length mid)) as H2
    by (by apply find_first).
  assert (find quote 0 r1 = Some (String.length key)) as H1
    by (by apply find_first).
  assert (find quote 0 s = Some p1) as E1 by (by apply find_first).
  assert (find quote (p1 + 1) s = Some p2) as E2.
  { replace (p1 + 1)%nat with (String.length pre + 1 + 0)%nat by (unfold p1; lia).
    unfold s. rewrite find_after, H1. done. }
  assert (find quote (p2 + 1) s = Some p3) as E3.
  { replace (p2 + 1)%nat
      with (String.length pre + 1 + (String.length key + 1 + 0))%nat
      by (unfold p2, p1; lia).
    unfold s. rewrite find_after. unfold r1. rewrite find_after, H2. simpl.
    f_equal. unfold p3, p2, p1. lia. }
  assert (find quote (p3 + 1) s = Some p4) as E4.
  { replace (p3 + 1)%nat
      with (String.length pre + 1 +
            (String.length key + 1 + (String.length mid + 1 + 0)))%nat
      by (unfold p3, p2, p1; lia).
    unfold s. rewrite find_after. unfold r1. rewrite find_after.
    unfold r2. rewrite find_after, H3. simpl.
    f_equal. unfold p4, p3, p2, p1. lia. }
  unfold backendParam. fold r3 r2 r1 s. rewrite E1. simpl.
  fold p1. rewrite E2. simpl. rewrite E3. simpl. rewrite E4. simpl.
  f_equal. f_equal.
  - replace (p2 - p1 - 1)%nat with (String.length key) by (unfold p2; lia).
    replace (p1 + 1)%nat with (String.length pre + 1 + 0)%nat by (unfold p1; lia).
    unfold s. rewrite substring_after. apply substring_first.
  - replace (p4 - p3 - 1)%nat with (String.length value) by (unfold p4; lia).
    replace (p3 + 1)%nat
      with (String.length pre + 1 +
            (String.length key + 1 + (String.length mid + 1 + 0)))%nat
      by (unfold p3, p2, p1; lia).
    unfold s. rewrite substring_after. unfold r1. rewrite substring_after.
    unfold r2. rewrite substring_after. apply substring_first.
Qed.


Lemma occurrences_app c u r :
  occurrences c 0 (u +:+ r) = (occurrences c 0 u + occurrences c 0 r)%nat.
Proof. induction u as [|a u IH]; simpl; [done|]. rewrite IH. lia. Qed.

Lemma plain_occurrences s :
  plain s = true →
  occurrences quote 0 s = 0%nat ∧ occurrences newline 0 s = 0%nat ∧
  occurrences nul 0 s = 0%nat.
Proof.
  induction s as [|a s IH]; simpl; [done|].
  rewrite !andb_true_iff, !negb_true_iff, !bool_decide_eq_false.
  intros [[[Hq Hl] Hn] Hs]. destruct (IH Hs) as (-> & -> & ->).
  by rewrite !decide_False by done.
Qed.

Lemma getlines_line u r :
  occurrences newline 0 u = 0%nat →
  getlines (u +:+ String newline r) = u :: getlines r.
Proof.
  induction u as [|a u IH]; simpl; [done|].
  destruct (decide (a = newline)); [done|]. simpl. intros H. by rewrite IH.
Qed.

Lemma getlines_last u :
  occurrences newline 0 u = 0%nat → u ≠ EmptyString → getlines u = [u].
Proof.
  induction u as [|a u IH]; simpl; [done|].
  destruct (decide (a = newline)); [done|]. simpl. intros H _.
  destruct u as [|b u]; [done|]. by rewrite IH.
Qed.

Lemma c_str_id s : occurrences nul 0 s = 0%nat → c_str s = s.
Proof.
  induction s as [|a s IH]; simpl; [done|].
  destruct (decide (a = nul)); [done|]. simpl. intros H. by rewrite IH.
Qed.

Lemma occurrences_cons c a s :
  occurrences c 0 (String a s) =
  ((if decide (a = c) then 1 else 0) + occurrences c 0 s)%nat.
Proof. done. Qed.

Lemma paramLine_occurrences c key value :
  c ≠ quote → occurrences c 0 " : " = 0%nat →
  occurrences c 0 key = 0%nat → occurrences c 0 value = 0%nat →
  occurrences c 0 (paramLine key value) = 0%nat.
Proof.
  intros Hc Hsep Hkey Hvalue. unfold paramLine.
  change (String quote (key +:+ String quote (" : " +:+
            String quote (value +:+ String quote EmptyString))))
    with ((String quote key) +:+ ((String quote " : ") +:+
            ((String quote value) +:+ String quote EmptyString))).
  rewrite !occurrences_app.
  rewrite (occurrences_cons c quote key), (occurrences_cons c quote " : "),
    (occurrences_cons c quote value), (occurrences_cons c quote EmptyString).
  rewrite !(decide_False (P := quote = c)) by done.
  by rewrite Hkey, Hvalue, Hsep.
Qed.

Lemma paramLines_lines (entries : list (string * string)) :
  Forall (fun entry => plain entry.1 = true ∧ plain entry.2 = true) entries →
  occurrences nul 0 (paramLines entries) = 0%nat ∧
  getlines (paramLines entries) = (fun entry => paramLine entry.1 entry.2)
                                  <$> entries.
Proof.
  induction entries as [|[key value] entries IH]; intros Hall; [done|].
  apply Forall_cons in Hall as [[Hkey Hvalue] Hall]. simpl in Hkey, Hvalue.
  destruct (plain_occurrences _ Hkey) as (_ & Hkl & Hkn).
  destruct (plain_occurrences _ Hvalue) as (_ & Hvl & Hvn).
  assert (occurrences newline 0 (paramLine key value) = 0%nat) as Hl
    by (by apply paramLine_occurrences).
  assert (occurrences nul 0 (paramLine key value) = 0%nat) as Hn
    by (by apply paramLine_occurrences).
  destruct (IH Hall) as [IHn IHl].
  destruct entries as [|entry entries].
  - change (paramLines [(key, value)]) with (paramLine key value).
    split; [done|]. by rewrite getlines_last.
  - change (paramLines ((key, value) :: entry :: entries))
      with (paramLine key value +:+
            String newline (paramLines (entry :: entries))).
    split.
    + rewrite occurrences_app, Hn.
      change (occurrences nul 0 (String newline (paramLines (entry :: entries))))
        with (occurrences nul 0 (paramLines (entry :: entries))).
      by rewrite IHn.
    + rewrite getlines_line by done. by rewrite IHl.
Qed.

(** [getBackendParams] reads back what is written in its format: from the
    lines ["key" : "value"] of a list of entries with plain keys and values
    it returns the map of the entries, a later entry overriding an earlier
    one with the same key.  What a line has before its first quote, between
    the second and the third, and after the fourth does not matter. *)
Theorem getBackendParams_round_trip (entries : list (string * string)) :
  Forall (fun entry => plain entry.1 = true ∧ plain entry.2 = true) entries →
  getBackendParams (paramLines entries)
    = Some (list_to_map (reverse entries)) ∧
  (∀ pre key mid value post,
     plain pre = true → plain key = true → plain mid = true →
     plain value = true → plain post = true →
     getBackendParams
       (pre +:+ String quote (key +:+ String quote (mid +:+
          String quote (value +:+ String quote post))))
       = Some {[ key := value ]}).
Proof.
  intros Hall. split.
  - destruct (paramLines_lines entries Hall) as [Hnul Hlines].
    unfold getBackendParams. rewrite (c_str_id _ Hnul), Hlines.
    rewrite <- (reverse_involutive entries) at 1.
    assert (Forall (fun entry => plain entry.1 = true ∧ plain entry.2 = true)
              (reverse entries)) as Hrev by (by apply Forall_reverse).
    clear Hall Hnul Hlines.
    induction Hrev as [|[key value] l [Hkey Hvalue] Hl IH]; [done|].
    rewrite reverse_cons, fmap_app, foldl_app, IH.
    destruct (plain_occurrences _ Hkey) as (Hk & _).
    destruct (plain_occurrences _ Hvalue) as (Hv & _).
    pose proof (backendParam_quoted EmptyString key " : " value EmptyString
                  eq_refl Hk eq_refl Hv) as Hline.
    change (backendParam (paramLine key value) = Some (key, value)) in Hline.
    cbn [fmap list_fmap foldl mbind option_bind fst snd]. by rewrite Hline.
  - intros pre key mid value post Hpre Hkey Hmid Hvalue Hpost.
    destruct (plain_occurrences _ Hpre) as (Hpq & Hpl & Hpn).
    destruct (plain_occurrences _ Hkey) as (Hkq & Hkl & Hkn).
    destruct (plain_occurrences _ Hmid) as (Hmq & Hml & Hmn).
    destruct (plain_occurrences _ Hvalue) as (Hvq & Hvl & Hvn).
    destruct (plain_occurrences _ Hpost) as (Hoq & Hol & Hon).
    set (line := pre +:+ _).
    assert (∀ c, c ≠ quote → occurrences c 0 pre = 0%nat →
              occurrences c 0 key = 0%nat → occurrences c 0 mid = 0%nat →
              occurrences c 0 value = 0%nat → occurrences c 0 post = 0%nat →
              occurrences c 0 line = 0%nat) as Hfree.
    { intros c Hc H1 H2 H3 H4 H5. unfold line.
      rewrite occurrences_app. simpl. rewrite decide_False by done.
      rewrite occurrences_app. simpl. rewrite decide_False by done.
      rewrite occurrences_app. simpl. rewrite decide_False by done.
      rewrite occurrences_app. simpl. rewrite decide_False by done.
      simpl. lia. }
    unfold getBackendParams.
    rewrite c_str_id by (by apply Hfree).
    rewrite getlines_last; [|by apply Hfree|by destruct pre].
    simpl. unfold line. rewrite backendParam_quoted by done. simpl.
    by rewrite insert_empty.
Qed.


(** *** Generating the configurations *)

Lemma loadDeviceConfigs_loop memSize (helpers : list DeviceConfigHelper)
    (configs : list NewDeviceConfig) :
  foldl (fun configs helper =>
           configs ← configs;
           parameters ← getBackendParams (parameters_ helper);
           Some (configs ++
                 [{| newBackendName := backendName_ helper;
                     newName := Some (name_ helper);
                     newParameters := Some parameters;
                     newDeviceMemory := memSize;
                     newDeviceID := None |}]))
        (Some configs) helpers =
  (fun more => configs ++ more) <$>
  mapM (fun helper =>
          parameters ← getBackendParams (parameters_ helper);
          Some {| newBackendName := backendName_ helper;
                  newName := Some (name_ helper);
                  newParameters := Some parameters;
                  newDeviceMemory := memSize;
                  newDeviceID := None |}) helpers.
Proof.
  revert configs. induction helpers as [|helper helpers IH]; intros configs.
  - simpl. by rewrite app_nil_r.
  - simpl. destruct (getBackendParams (parameters_ helper)) as [params|]; simpl.
    + rewrite IH. destruct (mapM _ helpers); simpl; [|done].
      by rewrite <- app_assoc.
    + clear. induction helpers as [|h helpers IH]; simpl; [done|]. apply IH.
Qed.

(** Without a configuration file [generateDeviceConfigs] makes [numDevices]
    configurations for the given backend, numbered from zero, without
    names.  With a file it makes one configuration per entry of the file,
    in order, with the entry's backend and name and the parsed parameters;
    [numDevices] and [backendName] are then not used and no device number
    is assigned.  It has no result exactly when the parameters of some
    entry do not parse.  In both cases every configuration gets the memory
    size of the call. *)
Theorem generateDeviceConfigs_spec
    (deserializeDeviceConfigFromYaml : string → list DeviceConfigHelper)
    (numDevices : N) (backendName : string) (memSize : N) :
  (∃ configs,
     generateDeviceConfigs None deserializeDeviceConfigFromYaml
       numDevices backendName memSize = Some configs ∧
     length configs = N.to_nat numDevices ∧
     ∀ i, (i < N.to_nat numDevices)%nat →
       configs !! i = Some {| newBackendName := backendName;
                              newName := None; newParameters := None;
                              newDeviceMemory := memSize;
                              newDeviceID := Some (N.of_nat i) |}) ∧
  (∀ file,
     (∀ numDevices' backendName',
        generateDeviceConfigs (Some file) deserializeDeviceConfigFromYaml
          numDevices' backendName' memSize =
        generateDeviceConfigs (Some file) deserializeDeviceConfigFromYaml
          numDevices backendName memSize) ∧
     (generateDeviceConfigs (Some file) deserializeDeviceConfigFromYaml
        numDevices backendName memSize = None ↔
      ∃ helper, helper ∈ deserializeDeviceConfigFromYaml file ∧
                getBackendParams (parameters_ helper) = None) ∧
     (∀ configs,
        generateDeviceConfigs (Some file) deserializeDeviceConfigFromYaml
          numDevices backendName memSize = Some configs →
        length configs = length (deserializeDeviceConfigFromYaml file) ∧
        ∀ i helper,
          deserializeDeviceConfigFromYaml file !! i = Some helper →
          ∃ parameters,
            getBackendParams (parameters_ helper) = Some parameters ∧
            configs !! i = Some {| newBackendName := backendName_ helper;
                                   newName := Some (name_ helper);
                                   newParameters := Some parameters;
                                   newDeviceMemory := memSize;
                                   newDeviceID := None |})).
Proof.
  split.
  - unfold generateDeviceConfigs, loadDeviceConfigsFromFile. simpl.
    eexists. split; [reflexivity|]. rewrite length_fmap, length_seq.
    split; [done|]. intros i Hi.
    by rewrite list_lookup_fmap, lookup_seq_lt.
  - intros file.
    assert (∀ n b,
      generateDeviceConfigs (Some file) deserializeDeviceConfigFromYaml
        n b memSize =
      mapM (fun helper =>
              parameters ← getBackendParams (parameters_ helper);
              Some {| newBackendName := backendName_ helper;
                      newName := Some (name_ helper);
                      newParameters := Some parameters;
                      newDeviceMemory := memSize;
                      newDeviceID := None |})
           (deserializeDeviceConfigFromYaml file)) as Heq.
    { intros n b. unfold generateDeviceConfigs, loadDeviceConfigsFromFile.
      rewrite loadDeviceConfigs_loop.
      by destruct (mapM _ (deserializeDeviceConfigFromYaml file)). }
    split; [|split].
    + intros n' b'. by rewrite !Heq.
    + rewrite Heq, mapM_None, Exists_exists. split.
      * intros (helper & Hin & Hnone). exists helper. split; [done|].
        by destruct (getBackendParams (parameters_ helper)).
      * intros (helper & Hin & Hnone). exists helper. split; [done|].
        by rewrite Hnone.
    + intros configs. rewrite Heq. intros Hsome.
      split; [symmetry; by eapply length_mapM|].
      apply mapM_Some in Hsome. intros i helper Hh.
      destruct (Forall2_lookup_l _ _ _ _ _ Hsome Hh) as (config & Hc & Hp).
      destruct (getBackendParams (parameters_ helper)) as [params|];
        simpl in Hp; [|done].
      exists params. split; [done|]. by injection Hp as <-.
Qed.

End DeviceConfigFacts.
(* ===================================================================== *)
(** ** More on the host manager under concurrent calls *)
(* ===================================================================== *)

Section SystemInvariants.

Variable ext : Externals.

(** *** What the calls other than [runNetwork] leave alone *)

Section Keeps.

Variable Inv : HostManager → Prop.
Hypothesis Inv_networks : ∀ f hm, Inv hm → Inv (with_networks f hm).
Hypothesis Inv_processing : ∀ f hm, Inv hm → Inv (with_processing f hm).
Hypothesis Inv_devices : ∀ f hm, Inv hm → Inv (with_devices f hm).
Hypothesis Inv_provisioner : ∀ f hm, Inv hm → Inv (with_provisioner f hm).
Hypothesis Inv_executor : ∀ f hm, Inv hm → Inv (with_executor f hm).
Hypothesis Inv_counter :
  ∀ key value hm, key ∈ [kDeviceMemoryUsed; kDeviceMemoryAvailable;
                         kDeviceMemoryMax] →
    Inv hm → Inv (with_stats (setCounter key value) hm).
Hypothesis Inv_resetProvisioner : ∀ hm, Inv hm → Inv (resetProvisioner hm).
Hypothesis Inv_resetExecutor : ∀ hm, Inv hm → Inv (resetExecutor hm).

Lemma with_stats_compose f g hm :
  with_stats f (with_stats g hm) = with_stats (fun reg => f (g reg)) hm.
Proof. done. Qed.

Lemma memoryCounters_keep a b c hm :
  Inv hm →
  Inv (with_stats (fun reg =>
         setCounter kDeviceMemoryMax a
           (setCounter kDeviceMemoryAvailable b
              (setCounter kDeviceMemoryUsed c reg))) hm).
Proof.
  intros H.
  change (Inv (with_stats (setCounter kDeviceMemoryMax a)
                 (with_stats (setCounter kDeviceMemoryAvailable b)
                    (with_stats (setCounter kDeviceMemoryUsed c) hm)))).
  repeat apply Inv_counter; try done; set_solver.
Qed.

Lemma exportMemoryCounters_keeps hm : Inv hm → Inv (exportMemoryCounters hm).
Proof.
  intros H. unfold exportMemoryCounters. destruct (foldl _ _ _).
  by apply memoryCounters_keep.
Qed.

Lemma cleanupAddNetwork_keeps hm names :
  Inv hm → Inv (cleanupAddNetwork hm names).
Proof.
  intros H. rewrite cleanupAddNetwork_unfold.
  by apply exportMemoryCounters_keeps, Inv_processing.
Qed.

Lemma removeNetwork_keeps networkName hm :
  Inv hm → Inv (removeNetwork ext networkName hm).2.
Proof.
  intros H. unfold removeNetwork.
  destruct (networks_ hm !! networkName) as [network|]; [|done].
  case_bool_decide; [done|]. case_bool_decide; [done|].
  assert (∀ (dagNodes : list DAGNode) acc,
            Inv acc.2 → Inv (foldl (evictNode ext) acc dagNodes).2)
    as Hevict.
  { clear -Inv_devices Inv_provisioner.
    intros dagNodes.
    induction dagNodes as [|node dagNodes IH]; intros acc Hacc; simpl; [done|].
    apply IH. unfold evictNode.
    assert (∀ devs acc, Inv acc.2 →
      Inv (foldl (fun '(err, hm) device =>
             let '(evictErr, devs') :=
               evictFunctionOn ext (devices_ hm) (name node) device in
             (OneErrOnly_set err evictErr,
              with_provisioner
                (fun p => p ++ [evictFunction (name node) device])
                (with_devices (fun _ => devs') hm))) acc devs).2) as Hloop.
    { clear acc Hacc. induction devs as [|d devs IHd]; intros [err h] Hh;
        simpl; [done|].
      destruct (evictFunctionOn ext (devices_ h) (name node) d)
        as [evictErr devs'].
      apply IHd. simpl. by apply Inv_provisioner, Inv_devices. }
    specialize (Hloop (deviceRuntimeInfos node) acc Hacc).
    destruct (foldl _ acc (deviceRuntimeInfos node)) as [err h]. simpl in *.
    by apply Inv_provisioner. }
  specialize (Hevict (nodes (dag network))
    (success, with_executor (fun e => e ++ [freePool (root (dag network))]) hm)
    (Inv_executor _ _ H)).
  destruct (foldl (evictNode ext) _ (nodes (dag network))) as [err hm1].
  simpl in *. by apply exportMemoryCounters_keeps, Inv_networks.
Qed.

Lemma profilingOverride_keeps cctx :
  hoare Inv (profilingOverride ext cctx) (fun _ => Inv) (fun _ => Inv).
Proof.
  unfold profilingOverride. case_bool_decide; [|by apply hoare_ret].
  apply hoare_after_get. intros hm.
  eapply (hoare_seq _ _ _ Inv).
  { case_bool_decide; [by apply hoare_returnErr | by apply hoare_ret]. }
  intros []. eapply (hoare_seq _ _ _ Inv).
  { apply hoare_forEach. intros i _. unfold rebuildDevice.
    apply hoare_after_get. intros h.
    destruct (devices_ h !! i); [|apply hoare_undefined].
    eapply (hoare_seq _ _ _ Inv).
    - apply hoare_modify. intros h' Hh. apply (Inv_devices _ _ Hh).
    - intros []. apply hoare_RETURN_IF_ERR; auto. }
  intros []. eapply (hoare_seq _ _ _ Inv).
  { apply hoare_modify. intros h Hh. apply (Inv_resetProvisioner _ Hh). }
  intros []. apply hoare_modify. intros h Hh. apply (Inv_resetExecutor _ Hh).
Qed.

Lemma createPools_keeps cctx nodeList :
  hoare Inv (createPools ext cctx nodeList) (fun _ => Inv) (fun _ => Inv).
Proof.
  unfold createPools. apply hoare_forEach. intros node _.
  apply hoare_after_get. intros hm.
  eapply (hoare_seq _ _ _ Inv).
  { destruct (executorSet hm); [by apply hoare_ret | apply hoare_undefined]. }
  intros []. apply hoare_modify.
  intros h Hh. apply (Inv_executor _ _ Hh).
Qed.

Lemma hostSection_keeps hm hm' : hostSection ext hm hm' → Inv hm → Inv hm'.
Proof.
  intros Hsec H. destruct Hsec as
    [hm functions hm' Hs | hm names | hm cctx hm' Hs | hm nodeList devs
    | hm cctx nodeList hm' Hs | hm sharedModule nodeList names hm' Hs | hm].
  - pose proof (reserveNames_outcome functions [] hm) as Hout.
    destruct (reserveNames functions [] hm) as [names h|e h|];
      simpl in Hs; simplify_eq.
    + destruct Hout as (_ & -> & _). by apply Inv_processing.
    + destruct Hout as (? & ? & ? & _ & _ & _ & _ & _ & ->).
      by apply cleanupAddNetwork_keeps, Inv_processing.
  - by apply cleanupAddNetwork_keeps.
  - revert Hs. apply (hoare_stateAfter Inv Inv); [|exact H].
    apply profilingOverride_keeps.
  - by apply Inv_provisioner, Inv_devices.
  - revert Hs. apply (hoare_stateAfter Inv Inv); [|exact H].
    apply createPools_keeps.
  - destruct (publish sharedModule nodeList names hm) as [[] h|e h|] eqn:Hp;
      simpl in Hs; simplify_eq.
    + apply publish_outcome in Hp as [_ ->].
      by apply cleanupAddNetwork_keeps, Inv_networks.
    + pose proof (publish_keeps (fun _ => True) sharedModule nodeList names
        (fun _ _ _ => I) (fun _ _ _ => I) (fun _ _ _ _ => I) hm I) as Hk.
      by rewrite Hp in Hk.
  - by apply memoryCounters_keep.
Qed.

End Keeps.

(** *** The provisioner and the executor *)

(** Once [init] has set [provisioner_] and [executor_], no step of the
    system resets them to null: [removeNetwork] and [dispatchNextRun], which
    dereference them for a registered network, find them set. *)
Lemma step_keeps_pointers s s' :
  step ext s s' →
  provisionerSet (host s) = true ∧ executorSet (host s) = true →
  provisionerSet (host s') = true ∧ executorSet (host s') = true.
Proof.
  intros Hstep Hset.
  destruct Hstep as
    [s nm0 ctx cb prio now | s before th after hm' next events Hth Hadv
    | s before rq after err Hth | s nm0 | s hm' Hsec]; simpl.
  - done.
  - destruct th as [rq|rq|rq| | | |rq|rq err|rq err|global rq err|rq err|rq err];
      simpl in Hadv; unfold countOutcome in Hadv;
      repeat case_bool_decide; repeat case_match; simplify_eq; simpl in *;
      done.
  - done.
  - by apply (removeNetwork_keeps
      (fun h => provisionerSet h = true ∧ executorSet h = true)
      (fun _ _ H => H) (fun _ _ H => H) (fun _ _ H => H) (fun _ _ H => H)
      (fun _ _ H => H) (fun _ _ _ _ H => H)
      (fun _ H => conj eq_refl (proj2 H)) (fun _ H => conj (proj1 H) eq_refl)).
  - by apply (hostSection_keeps
      (fun h => provisionerSet h = true ∧ executorSet h = true)
      (fun _ _ H => H) (fun _ _ H => H) (fun _ _ H => H) (fun _ _ H => H)
      (fun _ _ H => H) (fun _ _ _ _ H => H)
      (fun _ H => conj eq_refl (proj2 H)) (fun _ H => conj (proj1 H) eq_refl)
      _ _ Hsec).
Qed.

(** *** The slots of the executor *)

Lemma count_split (f : Thread → bool) before mid after :
  length (List.filter f (before ++ mid ++ after)) =
  (length (List.filter f before) + length (List.filter f mid) +
   length (List.filter f after))%nat.
Proof. rewrite !List.filter_app, !length_app. lia. Qed.

(** From a start without calls in progress and with a count of zero, in
    every run of the system [activeRequestCount_] is the number of calls
    between their increment of it and their decrement, and the calls that
    occupy a slot (running [dispatchNextRun], or a request in the executor
    or in its completion) are never more than [maxActiveRequests]. *)
Theorem active_requests_bounded (s0 s : System) :
  threads s0 = [] → activeRequestCount_ (host s0) = 0 →
  rtc (step ext) s0 s →
  config_ (host s) = config_ (host s0) ∧
  activeRequestCount_ (host s) =
    Z.of_nat (slotsHeld s) + Z.of_nat (slotsGivenBack s) ∧
  Z.of_nat (slotsHeld s) ≤ Z.max 0 (maxActiveRequests (config_ (host s0))).
Proof.
  intros Hthreads Hzero Hrun. revert s Hrun. apply rtc_ind_r.
  { unfold slotsHeld, slotsGivenBack. rewrite Hthreads. simpl.
    split; [done|]. split; [done|]. lia. }
  intros s s' Hrun Hstep IH.
  destruct IH as (Hc & Ha & Hmax). unfold slotsHeld, slotsGivenBack in *.
  destruct Hstep as
    [s nm0 ctx cb prio now | s before th after hm' next events Hth Hadv
    | s before rq after err Hth | s nm0 | s hm' Hsec]; simpl.
  - rewrite !List.filter_app, !length_app. simpl.
    split; [done|]. split; lia.
  - rewrite Hth in Ha, Hmax.
    change (th :: after) with ([th] ++ after) in Ha, Hmax.
    rewrite (count_split holdsSlot), (count_split givesBack) in Ha.
    rewrite (count_split holdsSlot) in Hmax.
    rewrite (count_split holdsSlot), (count_split givesBack).
    destruct th as [rq|rq|rq| | | |rq|rq err|rq err|global rq err|rq err|rq err];
      simpl in Hadv; unfold countOutcome in Hadv;
      repeat case_bool_decide; repeat case_match; simplify_eq; simpl in *;
      try rewrite Hc in *;
      (split; [done|]; split; lia).
  - rewrite Hth in Ha, Hmax.
    change (InExecutor rq :: after) with ([InExecutor rq] ++ after) in Ha, Hmax.
    change (AtCompletion rq err :: after)
      with ([AtCompletion rq err] ++ after).
    rewrite (count_split holdsSlot), (count_split givesBack) in Ha.
    rewrite (count_split holdsSlot) in Hmax.
    rewrite (count_split holdsSlot), (count_split givesBack). simpl in *.
    split; [done|]. split; lia.
  - pose proof (removeNetwork_keeps
      (fun h => config_ h = config_ (host s0) ∧
                activeRequestCount_ h = activeRequestCount_ (host s))
      (fun _ _ H => H) (fun _ _ H => H) (fun _ _ H => H) (fun _ _ H => H)
      (fun _ _ H => H) (fun _ _ _ _ H => H) (fun _ H => H) (fun _ H => H)
      nm0 (host s) (conj Hc eq_refl))
      as [-> ->].
    done.
  - pose proof (hostSection_keeps
      (fun h => config_ h = config_ (host s0) ∧
                activeRequestCount_ h = activeRequestCount_ (host s))
      (fun _ _ H => H) (fun _ _ H => H) (fun _ _ H => H) (fun _ _ H => H)
      (fun _ _ H => H) (fun _ _ _ _ H => H) (fun _ H => H) (fun _ H => H)
      _ _ Hsec (conj Hc eq_refl))
      as [-> ->].
    done.
Qed.


(** *** Requests that wait or run *)

Lemma held_entry_registered (s : System) rq :
  consistent s → heldEntry rq ∈ entries s →
  (requestID rq < totalRequestCount_ (host s))%N ∧
  ∃ network, networks_ (host s) !! networkName rq = Some network ∧
             0 < refcount network.
Proof.
  intros Hc Hin.
  destruct (ledger_entries _ _ _ _ Hc _ Hin) as [Hlt _]. split; [done|].
  assert (0 < holdersIn (networkName rq) (entries s))%nat as Hheld.
  { unfold holdersIn.
    assert (heldEntry rq ∈
              filter (fun e => eHeld e = true ∧ eNet e = networkName rq)
                     (entries s)) as Hf
      by (by apply list_elem_of_filter).
    destruct (filter _ (entries s)); [by apply elem_of_nil in Hf|].
    simpl. lia. }
  pose proof (ledger_counts _ _ _ _ Hc (networkName rq)) as Hcount.
  destruct (networks_ (host s) !! networkName rq) as [network|] eqn:Hnet;
    [|lia].
  exists network. split; [done|]. lia.
Qed.

(** In every run of the system, the requests in the queue have distinct
    identifiers; and a request that waits in the queue or is in the
    executor has an identifier below [totalRequestCount_], and its network
    is registered with a positive reference count, so that [removeNetwork]
    of that network returns [RUNTIME_NET_BUSY] and changes nothing. *)
Theorem pending_requests_keep_network (s : System) :
  reachable ext s →
  NoDup (requestID <$> inferQueue_ (host s)) ∧
  ∀ rq, rq ∈ inferQueue_ (host s) ∨ InExecutor rq ∈ threads s →
    (requestID rq < totalRequestCount_ (host s))%N ∧
    ∃ network,
      networks_ (host s) !! networkName rq = Some network ∧
      0 < refcount network ∧
      ∃ msg, removeNetwork ext (networkName rq) (host s)
               = (MAKE_ERR RUNTIME_NET_BUSY msg, host s).
Proof.
  intros Hreach. apply reachable_consistent in Hreach as Hc. split.
  - pose proof (ledger_unique _ _ _ _ Hc) as Hnd. unfold entries in Hnd.
    rewrite fmap_app in Hnd. apply NoDup_app in Hnd as (_ & _ & Hnd).
    by rewrite <- list_fmap_compose in Hnd.
  - intros rq Hrq.
    assert (heldEntry rq ∈ entries s) as Hin.
    { unfold entries. apply elem_of_app. destruct Hrq as [Hq|Ht].
      - right. by apply list_elem_of_fmap_2.
      - left. apply list_elem_of_omap. by exists (InExecutor rq). }
    destruct (held_entry_registered s rq Hc Hin)
      as (Hlt & network & Hnet & Href).
    split; [done|]. exists network. split; [done|]. split; [done|].
    apply (removeNetwork_busy ext _ _ _ Hnet). right. lia.
Qed.

(** [dispatchNextRun] and the completion of a request always find the
    network in the registry.  In every run of the system, a dispatch adds
    no entry to the registry and, when the queue is not empty, hands the
    executor the root of the DAG registered for the request it takes; and
    the network of a request that completes is still registered, so that
    its reference is given back. *)
Theorem dispatch_finds_network (s : System) :
  reachable ext s →
  (∀ hm' next events,
     advance (host s) AtDispatch = Some (hm', next, events) →
     networks_ hm' = networks_ (host s) ∧
     (inferQueue_ (host s) = [] ∧ next = [] ∨
      ∃ request network,
        request ∈ inferQueue_ (host s) ∧ next = [InExecutor request] ∧
        networks_ (host s) !! networkName request = Some network ∧
        last (executor_ hm')
          = Some (run (root (dag network)) (requestID request)))) ∧
  (∀ rq err, AtCompletion rq err ∈ threads s →
     ∃ network hm',
       networks_ (host s) !! networkName rq = Some network ∧
       0 < refcount network ∧
       advance (host s) (AtCompletion rq err) =
         Some (hm', [AtCallback rq err],
               [RefDec (requestID rq) (networkName rq)]) ∧
       networks_ hm' =
         <[networkName rq := addRef (-1) network]> (networks_ (host s))).
Proof.
  intros Hreach. apply reachable_consistent in Hreach as Hc. split.
  - intros hm' next events Hadv. simpl in Hadv.
    destruct (takeTop (inferQueue_ (host s))) as [[request rest]|] eqn:Htop.
    + pose proof (takeTop_Permutation _ _ _ Htop) as Hperm.
      assert (request ∈ inferQueue_ (host s)) as Hin
        by (rewrite Hperm; by left).
      destruct (held_entry_registered s request Hc)
        as (_ & network & Hnet & _).
      { unfold entries. apply elem_of_app. right.
        by apply list_elem_of_fmap_2. }
      injection Hadv as <- <- <-. simpl. rewrite !Hnet. simpl.
      split; [done|]. right.
      exists request, network. split; [done|]. split; [done|].
      split; [done|]. apply last_snoc.
    + injection Hadv as <- <- <-. simpl. split; [done|]. left.
      split; [|done]. by destruct (inferQueue_ (host s)) as [|? ?];
        [|destruct (takeTop_nonempty (i :: l)) as [? ?]; [done|congruence]].
  - intros rq err Hin.
    destruct (held_entry_registered s rq Hc) as (_ & network & Hnet & Href).
    { unfold entries. apply elem_of_app. left. apply list_elem_of_omap.
      by exists (AtCompletion rq err). }
    exists network. eexists. split; [done|]. split; [done|].
    simpl. rewrite Hnet. split; [reflexivity|]. done.
Qed.

(** *** The request counters *)

Lemma append_inj (p a b : string) : p +:+ a = p +:+ b → a = b.
Proof. induction p as [|c p IH]; simpl; [done|]. intros [= H]. by apply IH. Qed.

Lemma setCounter_named key value reg name :
  key ∈ [kDeviceMemoryUsed; kDeviceMemoryAvailable; kDeviceMemoryMax] →
  setCounter key value reg (Named name) = reg (Named name).
Proof.
  intros Hkey. unfold setCounter. rewrite bool_decide_false; [done|].
  intros <-. set_solver.
Qed.

Lemma advance_counts hm th hm' next events s :
  advance hm th = Some (hm', next, events) →
  statsExporterRegistry_ hm' (Named ("glow.requests_processed." +:+ s))
  - statsExporterRegistry_ hm' (Named ("glow.requests_succeeded." +:+ s))
  - statsExporterRegistry_ hm' (Named ("glow.requests_failed." +:+ s))
  - Z.of_nat (length (List.filter (countingFor s) next))
  = statsExporterRegistry_ hm (Named ("glow.requests_processed." +:+ s))
    - statsExporterRegistry_ hm (Named ("glow.requests_succeeded." +:+ s))
    - statsExporterRegistry_ hm (Named ("glow.requests_failed." +:+ s))
    - Z.of_nat (length (List.filter (countingFor s) [th])).
Proof.
  intros Hadv.
  assert (∀ a b, "glow.requests_processed." +:+ a
                 ≠ "glow.requests_succeeded." +:+ b) as Hps by (by intros a b [=]).
  assert (∀ a b, "glow.requests_processed." +:+ a
                 ≠ "glow.requests_failed." +:+ b) as Hpf by (by intros a b [=]).
  assert (∀ a b, "glow.requests_succeeded." +:+ a
                 ≠ "glow.requests_failed." +:+ b) as Hsf by (by intros a b [=]).
  destruct th as [rq|rq|rq| | | |rq|rq err|rq err|global rq err|rq err|rq err];
    simpl in Hadv; unfold countOutcome, countProcessed in Hadv;
    repeat case_match; simplify_eq; simpl; try done;
    unfold incrementCounter;
    repeat case_bool_decide; simplify_eq; simpl;
    repeat match goal with
    | Hk : _ +:+ _ = _ +:+ _ |- _ =>
        first [ by destruct (Hps _ _ Hk) | by destruct (Hpf _ _ Hk)
              | by destruct (Hsf _ _ Hk)
              | by destruct (Hps _ _ (eq_sym Hk))
              | by destruct (Hpf _ _ (eq_sym Hk))
              | by destruct (Hsf _ _ (eq_sym Hk))
              | apply append_inj in Hk; subst ]
    end;
    try done; try lia.

Qed.

Lemma advance_outside_stats hm th hm' next events :
  advance hm th = Some (hm', next, events) →
  inStats th = false →
  statsExporterRegistry_ hm' = statsExporterRegistry_ hm.
Proof.
  intros Hadv Hth.
  destruct th as [rq|rq|rq| | | |rq|rq err|rq err|global rq err|rq err|rq err];
    simpl in Hadv, Hth; try done;
    repeat case_match; by simplify_eq.
Qed.

Lemma advance_inside_stats hm th hm' next events :
  advance hm th = Some (hm', next, events) →
  inStats th = true →
  ∃ th', next = [th'] ∧ events = [].
Proof.
  intros Hadv Hth.
  destruct th as [rq|rq|rq| | | |rq|rq err|rq err|global rq err|rq err|rq err];
    simpl in Hadv, Hth; try done; simplify_eq; eauto.
Qed.

(** The request counters are written by completions only, one counter at a
    time.  In every run of the system that starts with the counters adding
    up, for every name the number of requests processed is the number that
    succeeded plus the number that failed plus the number of completions
    that have counted a request under that name as processed and not yet
    as succeeded or failed; so the counters add up whenever no completion
    is at that point.  A step changes a request counter only when it is a
    step of a completion inside [updateExecutionStats], which a call
    enters from the completion of a request that was in the executor and
    from nowhere else: a request that was turned away by [runNetwork] is
    not counted, and neither [removeNetwork] nor [addNetwork] nor
    [clearHost] writes these counters.  The four writes of a completion
    that no other call interleaves with amount to
    [updateExecutionStats]. *)
Theorem request_counters_add_up :
  (∀ s0 s,
     rtc (step ext) s0 s → countersAccounted s0 → countersAccounted s) ∧
  (∀ s,
     countersAccounted s → (∀ nm, halfCounted nm s = 0%nat) →
     requestsAccounted (statsExporterRegistry_ (host s))) ∧
  (∀ s s',
     step ext s s' →
     (∀ key, statsExporterRegistry_ (host s') (Named key)
             = statsExporterRegistry_ (host s) (Named key)) ∨
     (∃ before th th' after,
        inStats th = true ∧
        threads s = before ++ th :: after ∧
        threads s' = before ++ th' :: after ∧
        trace s' = trace s)) ∧
  (∀ hm th hm' next events th',
     advance hm th = Some (hm', next, events) →
     th' ∈ next → inStats th' = true →
     inStats th = true ∨ ∃ rq err, th = AtCompletion rq err) ∧
  (∀ hm rq err,
     ∃ hm1 hm2 hm3,
       advance hm (AtCallback rq err)
         = Some (hm1, [AtOutcomeCount false rq err], []) ∧
       advance hm1 (AtOutcomeCount false rq err)
         = Some (hm2, [AtGlobalCount rq err], []) ∧
       advance hm2 (AtGlobalCount rq err)
         = Some (hm3, [AtOutcomeCount true rq err], []) ∧
       advance hm3 (AtOutcomeCount true rq err)
         = Some (updateExecutionStats (networkName rq) err hm,
                 [AtInvoke rq err], [])).
Proof.
  split; [|split; [|split; [|split]]].
  - intros s0 s Hrun H0. revert s Hrun. apply rtc_ind_r; [done|].
    intros s s' _ Hstep IH nm. specialize (IH nm).
    unfold halfCounted in *.
    destruct Hstep as
      [s nm0 ctx cb prio now | s before th after hm' next events Hth Hadv
      | s before rq after err Hth | s nm0 | s hm' Hsec]; simpl.
    + rewrite List.filter_app, length_app. simpl. lia.
    + pose proof (advance_counts _ _ _ _ _ nm Hadv) as Hcount.
      rewrite Hth in IH. change (th :: after) with ([th] ++ after) in IH.
      rewrite (count_split (countingFor nm)) in IH.
      rewrite (count_split (countingFor nm)). lia.
    + rewrite Hth in IH.
      change (InExecutor rq :: after) with ([InExecutor rq] ++ after) in IH.
      change (AtCompletion rq err :: after)
        with ([AtCompletion rq err] ++ after).
      rewrite (count_split (countingFor nm)) in IH.
      rewrite (count_split (countingFor nm)). simpl in *. lia.
    + assert (∀ key,
        statsExporterRegistry_ (removeNetwork ext nm0 (host s)).2 (Named key)
        = statsExporterRegistry_ (host s) (Named key)) as Hsame.
      { apply (removeNetwork_keeps
          (fun h => ∀ key, statsExporterRegistry_ h (Named key)
                           = statsExporterRegistry_ (host s) (Named key)));
          try done.
        intros key value hm Hkey H k. simpl. by rewrite setCounter_named. }
      by rewrite !Hsame.
    + assert (∀ key,
        statsExporterRegistry_ hm' (Named key)
        = statsExporterRegistry_ (host s) (Named key)) as Hsame.
      { apply (hostSection_keeps
          (fun h => ∀ key, statsExporterRegistry_ h (Named key)
                           = statsExporterRegistry_ (host s) (Named key))
          (fun _ _ H => H) (fun _ _ H => H) (fun _ _ H => H) (fun _ _ H => H)
          (fun _ _ H => H)) with (host s); try done.
        intros key value hm Hkey H k. simpl. by rewrite setCounter_named. }
      by rewrite !Hsame.
  - intros s Hacc Hnone nm. specialize (Hacc nm). rewrite Hnone in Hacc.
    simpl in Hacc. lia.
  - intros s s' Hstep.
    destruct Hstep as
      [s nm0 ctx cb prio now | s before th after hm' next events Hth Hadv
      | s before rq after err Hth | s nm0 | s hm' Hsec]; simpl; auto.
    + destruct (inStats th) eqn:Hin.
      * right.
        destruct (advance_inside_stats _ _ _ _ _ Hadv Hin) as (th' & -> & ->).
        exists before, th, th', after. by rewrite app_nil_r.
      * left. intros key. by rewrite (advance_outside_stats _ _ _ _ _ Hadv Hin).
    + left. apply (removeNetwork_keeps
        (fun h => ∀ key, statsExporterRegistry_ h (Named key)
                         = statsExporterRegistry_ (host s) (Named key)));
        try done.
      intros key value hm Hkey H k. simpl. by rewrite setCounter_named.
    + left. apply (hostSection_keeps
        (fun h => ∀ key, statsExporterRegistry_ h (Named key)
                         = statsExporterRegistry_ (host s) (Named key))
        (fun _ _ H => H) (fun _ _ H => H) (fun _ _ H => H) (fun _ _ H => H)
        (fun _ _ H => H)) with (host s); try done.
      intros key value hm Hkey H k. simpl. by rewrite setCounter_named.
  - intros hm th hm' next events th' Hadv Hin Hstats.
    destruct th as [rq|rq|rq| | | |rq|rq err|rq err|global rq err|rq err|rq err];
      simpl in Hadv; eauto;
      repeat case_match; simplify_eq;
      repeat (apply elem_of_cons in Hin as [->|Hin]; [done|]);
      by apply elem_of_nil in Hin.
  - intros hm rq err. eexists _, _, _.
    split; [reflexivity|]. split; [reflexivity|]. split; [reflexivity|].
    simpl. unfold countOutcome, countProcessed, updateExecutionStats.
    by destruct (isErr err).
Qed.


(** *** One call at a time *)

(** A call of [runNetwork] that no other call interleaves with returns the
    value [totalRequestCount_] had and increments that count.  It reports
    a network that is not registered with [RUNTIME_NET_NOT_FOUND] and a
    full queue with [RUNTIME_REQUEST_REFUSED], in both cases through the
    callback and before it returns, leaving registry and queue as they
    were.  Otherwise it takes a reference, queues the request and, when a
    slot is free, dispatches the request at the top of the queue, leaving
    the callback for the completion.  In every case a queue within
    [maxQueueSize] stays within it. *)
Theorem runNetwork_alone_outcome networkName context callback priority now hm :
  ∃ hm' waiting events,
    runNetwork_alone networkName context callback priority now hm =
      Some (totalRequestCount_ hm, (hm', waiting, events)) ∧
    totalRequestCount_ hm' = N.succ (totalRequestCount_ hm) ∧
    (Z.of_nat (length (inferQueue_ hm)) ≤ maxQueueSize (config_ hm) →
     Z.of_nat (length (inferQueue_ hm')) ≤ maxQueueSize (config_ hm)) ∧
    (networks_ hm !! networkName = None →
     hm' = with_total N.succ hm ∧ waiting = [] ∧
     ∃ msg, events = [Callback InRunNetwork callback (totalRequestCount_ hm)
                        (MAKE_ERR RUNTIME_NET_NOT_FOUND msg)]) ∧
    (is_Some (networks_ hm !! networkName) →
     maxQueueSize (config_ hm) ≤ Z.of_nat (length (inferQueue_ hm)) →
     networks_ hm' = networks_ hm ∧ inferQueue_ hm' = inferQueue_ hm ∧
     waiting = [] ∧
     ∃ msg, events = [RefInc (totalRequestCount_ hm) networkName;
                      RefDec (totalRequestCount_ hm) networkName;
                      Callback InRunNetwork callback (totalRequestCount_ hm)
                        (MAKE_ERR RUNTIME_REQUEST_REFUSED msg)]) ∧
    (is_Some (networks_ hm !! networkName) →
     Z.of_nat (length (inferQueue_ hm)) < maxQueueSize (config_ hm) →
     events = [RefInc (totalRequestCount_ hm) networkName] ∧
     ∃ queued,
       queued = {| Runtime.networkName := networkName;
                   Runtime.context := context;
                   Runtime.callback := callback;
                   Runtime.priority := priority;
                   requestID := totalRequestCount_ hm; startTime := now |} ∧
       ((waiting = [] ∧ inferQueue_ hm' = inferQueue_ hm ++ [queued] ∧
         maxActiveRequests (config_ hm) ≤ activeRequestCount_ hm ∧
         activeRequestCount_ hm' = activeRequestCount_ hm) ∨
        (∃ request,
           waiting = [InExecutor request] ∧
           inferQueue_ hm ++ [queued] ≡ₚ request :: inferQueue_ hm' ∧
           (∀ r, r ∈ inferQueue_ hm' → notBefore r request) ∧
           activeRequestCount_ hm < maxActiveRequests (config_ hm) ∧
           activeRequestCount_ hm' = activeRequestCount_ hm + 1))).
Proof.
  assert (∀ fuel h th, (∀ rq, th ≠ InExecutor rq) →
    runThread (S fuel) h th =
    match advance h th with
    | Some (hm', [], events) => Some (hm', [], events)
    | Some (hm', [next], events) =>
        match runThread fuel hm' next with
        | Some (hm'', waiting, events') =>
            Some (hm'', waiting, events ++ events')
        | None => None
        end
    | _ => None
    end) as Hstep.
  { intros fuel h th Hth. destruct th; try done. by destruct (Hth rq). }
  unfold runNetwork_alone.
  set (queued := {| Runtime.networkName := networkName;
                    Runtime.context := context;
                    Runtime.callback := callback;
                    Runtime.priority := priority;
                    requestID := totalRequestCount_ hm; startTime := now |}).
  set (hm1 := with_total N.succ hm).
  rewrite Hstep by done.
  destruct (networks_ hm !! networkName) as [network|] eqn:Hnet.
  2: { assert (advance hm1 (AtLookup queued) =
         Some (hm1, [],
               [Callback InRunNetwork callback (totalRequestCount_ hm)
                  (MAKE_ERR RUNTIME_NET_NOT_FOUND
                     ("Function " +:+ networkName +:+ " not found"))])) as ->.
       { unfold advance.
         change (networks_ hm1 !! Runtime.networkName queued)
           with (networks_ hm !! networkName).
         by rewrite Hnet. }
       eexists hm1, [], _. split; [reflexivity|].
       split; [done|]. split; [done|]. split; [eauto|].
       split; by intros [? ?]. }
  set (hm2 := with_networks <[networkName := addRef 1 network]> hm1).
  assert (advance hm1 (AtLookup queued) =
    Some (hm2, [AtQueueCheck queued],
          [RefInc (totalRequestCount_ hm) networkName])) as ->.
  { unfold advance.
    change (networks_ hm1 !! Runtime.networkName queued)
      with (networks_ hm !! networkName).
    by rewrite Hnet. }
  rewrite Hstep by done.
  destruct (decide (maxQueueSize (config_ hm)
                    ≤ Z.of_nat (length (inferQueue_ hm)))) as [Hfull|Hroom].
  { set (hm3 := with_networks (alter (addRef (-1)) networkName) hm2).
    assert (∃ msg, advance hm2 (AtQueueCheck queued) =
      Some (hm3, [],
            [RefDec (totalRequestCount_ hm) networkName;
             Callback InRunNetwork callback (totalRequestCount_ hm)
               (MAKE_ERR RUNTIME_REQUEST_REFUSED msg)])) as [msg ->].
    { unfold advance.
      change (maxQueueSize (config_ hm2)) with (maxQueueSize (config_ hm)).
      change (inferQueue_ hm2) with (inferQueue_ hm).
      rewrite bool_decide_true by done. eauto. }
    eexists hm3, [], _. split; [reflexivity|].
    split; [done|]. split; [done|]. split; [done|]. split; [|lia].
    intros _ _. split; [|split; [done|]; split; [done|]; by exists msg].
    change (networks_ hm3)
      with (alter (addRef (-1)) networkName
              (<[networkName := addRef 1 network]> (networks_ hm))).
    rewrite alter_insert_eq. apply insert_id. rewrite Hnet. f_equal.
    destruct network as [d m r]. unfold addRef. simpl. f_equal. lia. }
  assert (advance hm2 (AtQueueCheck queued) = Some (hm2, [AtPush queued], []))
    as ->.
  { unfold advance.
    change (maxQueueSize (config_ hm2)) with (maxQueueSize (config_ hm)).
    change (inferQueue_ hm2) with (inferQueue_ hm).
    by rewrite bool_decide_false by done. }
  rewrite Hstep by done.
  set (hm3 := with_queue (push queued) hm2).
  assert (advance hm2 (AtPush queued) = Some (hm3, [AtActiveInc], []))
    as -> by reflexivity.
  rewrite Hstep by done.
  set (hm4 := with_active (fun n => n + 1) hm3).
  destruct (decide (activeRequestCount_ hm < maxActiveRequests (config_ hm)))
    as [Hslot|Hnone].
  - assert (advance hm3 AtActiveInc = Some (hm4, [AtDispatch], [])) as ->.
    { unfold advance.
      change (activeRequestCount_ hm3) with (activeRequestCount_ hm).
      change (maxActiveRequests (config_ (with_active (fun n => n + 1) hm3)))
        with (maxActiveRequests (config_ hm)).
      by rewrite bool_decide_true by done. }
    rewrite Hstep by done.
    destruct (takeTop_nonempty (inferQueue_ hm ++ [queued]))
      as [[request rest] Htop].
    { by destruct (inferQueue_ hm). }
    pose proof (takeTop_Permutation _ _ _ Htop) as Hperm.
    pose proof (takeTop_highest _ _ _ Htop) as Hhigh.
    assert (∃ hm5, advance hm4 AtDispatch
                   = Some (hm5, [InExecutor request], []) ∧
              inferQueue_ hm5 = rest ∧
              totalRequestCount_ hm5 = N.succ (totalRequestCount_ hm) ∧
              activeRequestCount_ hm5 = activeRequestCount_ hm + 1)
      as (hm5 & -> & Hq5 & Ht5 & Ha5).
    { unfold advance.
      change (inferQueue_ hm4) with (inferQueue_ hm ++ [queued]).
      rewrite Htop. eexists. split; [reflexivity|]. done. }
    assert (runThread 1 hm5 (InExecutor request)
            = Some (hm5, [InExecutor request], [])) as -> by reflexivity.
    eexists hm5, _, _. split; [reflexivity|].
    split; [done|]. split.
    { intros _. rewrite Hq5. apply Permutation_length in Hperm.
      rewrite length_app in Hperm. simpl in Hperm. lia. }
    split; [done|]. split; [lia|]. intros _ _. split; [done|].
    exists queued. split; [done|]. right. exists request. rewrite Hq5. done.
  - set (hm5 := with_active (fun n => n - 1) hm4).
    assert (advance hm3 AtActiveInc = Some (hm4, [AtActiveDec], [])) as ->.
    { unfold advance.
      change (activeRequestCount_ hm3) with (activeRequestCount_ hm).
      change (maxActiveRequests (config_ (with_active (fun n => n + 1) hm3)))
        with (maxActiveRequests (config_ hm)).
      by rewrite bool_decide_false by done. }
    rewrite Hstep by done.
    assert (advance hm4 AtActiveDec = Some (hm5, [], [])) as -> by reflexivity.
    eexists hm5, [], _. split; [reflexivity|].
    split; [done|]. split.
    { intros _.
      change (inferQueue_ hm5) with (inferQueue_ hm ++ [queued]).
      rewrite length_app. simpl. lia. }
    split; [done|]. split; [lia|]. intros _ _. split; [done|].
    exists queued. split; [done|]. left.
    split; [done|]. split; [done|]. split; [lia|].
    change (activeRequestCount_ hm5)
      with (activeRequestCount_ hm + 1 - 1). lia.
Qed.


Lemma incrementCounter_at k reg key :
  incrementCounter k reg key = reg key + (if decide (key = k) then 1 else 0).
Proof.
  unfold incrementCounter. case_bool_decide; case_decide; try done; lia.
Qed.

Lemma same_prefix p a b :
  (if decide (Named (p +:+ a) = Named (p +:+ b)) then 1 else 0) =
  (if decide (a = b) then 1 else 0).
Proof.
  destruct (decide (a = b)) as [->|Hne].
  - by rewrite decide_True.
  - rewrite decide_False; [done|]. intros [= H]. by apply append_inj in H.
Qed.

Lemma other_prefix p q a b :
  (∀ a b, p +:+ a ≠ q +:+ b) →
  (if decide (Named (p +:+ a) = Named (q +:+ b)) then 1 else 0) = 0.
Proof. intros Hpq. case_decide as H; [|done]. injection H as H. by destruct (Hpq a b). Qed.

(** [updateExecutionStats] counts a completed request under the name of its
    network and under ["global"]: the counter of processed requests and,
    according to the outcome, the counter of succeeded or of failed
    requests go up by one under each name, the other one stays.  A network
    that is itself named ["global"] is counted twice under that name.  The
    memory counters are not touched. *)
Theorem updateExecutionStats_counts networkName error hm :
  (∀ s, s = networkName ∨ s = "global" →
     statsExporterRegistry_ (updateExecutionStats networkName error hm)
       (Named ("glow.requests_processed." +:+ s))
     = statsExporterRegistry_ hm (Named ("glow.requests_processed." +:+ s))
       + (if decide (networkName = "global") then 2 else 1) ∧
     statsExporterRegistry_ (updateExecutionStats networkName error hm)
       (Named ("glow.requests_succeeded." +:+ s))
     = statsExporterRegistry_ hm (Named ("glow.requests_succeeded." +:+ s))
       + (if isErr error then 0
          else if decide (networkName = "global") then 2 else 1) ∧
     statsExporterRegistry_ (updateExecutionStats networkName error hm)
       (Named ("glow.requests_failed." +:+ s))
     = statsExporterRegistry_ hm (Named ("glow.requests_failed." +:+ s))
       + (if isErr error
          then if decide (networkName = "global") then 2 else 1
          else 0)) ∧
  (∀ key, key ∈ [kDeviceMemoryUsed; kDeviceMemoryAvailable; kDeviceMemoryMax] →
     statsExporterRegistry_ (updateExecutionStats networkName error hm) key
     = statsExporterRegistry_ hm key).
Proof.
  assert (∀ a b, "glow.requests_processed." +:+ a
                 ≠ "glow.requests_succeeded." +:+ b) as Hps by (by intros a b [=]).
  assert (∀ a b, "glow.requests_processed." +:+ a
                 ≠ "glow.requests_failed." +:+ b) as Hpf by (by intros a b [=]).
  assert (∀ a b, "glow.requests_succeeded." +:+ a
                 ≠ "glow.requests_failed." +:+ b) as Hsf by (by intros a b [=]).
  assert (∀ a b, "glow.requests_succeeded." +:+ a
                 ≠ "glow.requests_processed." +:+ b) as Hsp by (by intros a b [=]).
  assert (∀ a b, "glow.requests_failed." +:+ a
                 ≠ "glow.requests_processed." +:+ b) as Hfp by (by intros a b [=]).
  assert (∀ a b, "glow.requests_failed." +:+ a
                 ≠ "glow.requests_succeeded." +:+ b) as Hfs by (by intros a b [=]).
  assert (∀ s, s = networkName ∨ s = "global" →
            (if decide (s = networkName) then 1 else 0) +
            (if decide (s = "global") then 1 else 0) =
            (if decide (networkName = "global") then 2 else 1)) as Hcount.
  { intros s [->| ->]; repeat case_decide; try done; congruence. }
  split.
  - intros s Hs. specialize (Hcount s Hs). unfold updateExecutionStats.
    cbn [statsExporterRegistry_ with_stats].
    pose proof (fun a b => other_prefix _ _ a b Hps) as Eps.
    pose proof (fun a b => other_prefix _ _ a b Hpf) as Epf.
    pose proof (fun a b => other_prefix _ _ a b Hsf) as Esf.
    pose proof (fun a b => other_prefix _ _ a b Hsp) as Esp.
    pose proof (fun a b => other_prefix _ _ a b Hfp) as Efp.
    pose proof (fun a b => other_prefix _ _ a b Hfs) as Efs.
    destruct (isErr error); rewrite !incrementCounter_at;
      rewrite ?same_prefix, ?Eps, ?Epf, ?Esf, ?Esp, ?Efp, ?Efs; lia.
  - intros key Hkey. unfold updateExecutionStats.
    cbn [statsExporterRegistry_ with_stats].
    assert (∀ name, (if decide (key = Named name) then 1 else 0) = 0) as Hk.
    { intros name. destruct (decide (key = Named name)) as [->|]; [|done].
      exfalso. repeat (apply elem_of_cons in Hkey as [Hkey|Hkey]; [done|]).
      by apply elem_of_nil in Hkey. }
    destruct (isErr error); rewrite !incrementCounter_at, !Hk; lia.
Qed.

End SystemInvariants.
(* ===================================================================== *)
(** ** The further properties on the samples *)
(* ===================================================================== *)

Lemma afterSchedule_rtc schedule s :
  is_Some (runSchedule sampleExt schedule s) →
  rtc (step sampleExt) s (afterSchedule schedule s).
Proof.
  intros [s' Hs]. unfold afterSchedule. rewrite Hs. simpl. clear -Hs.
  revert s Hs. induction schedule as [|a schedule IH]; intros s; simpl.
  - by intros [= <-].
  - destruct (act sampleExt a s) as [s1|] eqn:Hact; [|done].
    intros Hrun. eapply rtc_l; [by apply (act_step sampleExt a)|]. by apply IH.
Qed.

(** A 2x3 slice of a 4x5 tensor at offsets (1, 2). *)
Lemma insert_extract_dual_witness :
  Instrs.InsertTensorInst_verify sampleTensor sampleSlice sampleOffsets =
  Instrs.ExtractTensorInst_verify sampleSlice sampleTensor sampleOffsets.
Proof.
  refine (proj1 (insert_extract_dual sampleTensor sampleSlice sampleOffsets
                   _ _)); vm_compute; reflexivity.
Defined.

(** A 2x3 tensor transposed into a 3x2 tensor. *)
Lemma transpose_rearranges_witness :
  ∃ b, Instrs.TransposeInst_verify sampleTranspose [1; 0]%nat = Some b ∧
       (b = true →
          dims (Instrs.getType sampleTransposed.1)
            ≡ₚ dims (Instrs.getType sampleSource.1) ∧
          foldr N.mul 1%N (dims (Instrs.getType sampleTransposed.1)) =
            foldr N.mul 1%N (dims (Instrs.getType sampleSource.1))) ∧
       ([1; 0]%nat = seq 0 (length (dims (Instrs.getType sampleSource.1))) →
          (b = true ↔ dims (Instrs.getType sampleTransposed.1)
                      = dims (Instrs.getType sampleSource.1))).
Proof.
  apply (transpose_rearranges sampleTranspose [1; 0]%nat
           sampleTransposed sampleSource).
  - reflexivity.
  - reflexivity.
  - simpl. apply perm_swap.
Defined.

(** The addition is supported on either shape. *)
Lemma isOpSupported_ignores_shapes_witness :
  CPUBackend.isOpSupported sampleSlots sampleQuantized sampleAdd =
  CPUBackend.isOpSupported sampleSlots sampleQuantized sampleAddWide.
Proof.
  apply (isOpSupported_ignores_shapes sampleSlots sampleQuantized
           sampleAdd sampleAddWide).
  - intros t t' H. unfold sampleQuantized. by rewrite H.
  - reflexivity.
  - reflexivity.
  - reflexivity.
Defined.

(** B is registered already. *)
Lemma addNetwork_rejects_duplicates_witness :
  ∃ fname,
    fname ∈ getFunctions {| getFunctions := ["B"] |} ∧
    runBody (addNetwork sampleExt {| getFunctions := ["B"] |} sampleContext)
            sampleHostB =
      Some (MAKE_ERR RUNTIME_ERROR
              ("Failed to add network: already have a function called " +:+
               fname),
            exportMemoryCounters sampleHostB).
Proof.
  apply (addNetwork_rejects_duplicates sampleExt {| getFunctions := ["B"] |}
           sampleContext sampleHostB).
  left. exists "B". split; [by left|]. left. vm_compute. eauto.
Defined.

(** The addition of B to the host manager with one device. *)
Lemma addNetwork_publishes_witness :
  processingNetworks_ sampleHostB = processingNetworks_ sampleHost ∧
  ∃ nodeList,
    last (provisioner_ sampleHostB) = Some (provision nodeList) ∧
    (∀ node, node ∈ nodeList →
       ∃ rootNode entry,
         root node = Some rootNode ∧
         networkAdded (name rootNode) sampleHostB = true ∧
         getNetworkDAG (name rootNode) sampleHostB = Value entry ∧
         entry ∈ nodeList ∧ name <$> root entry = Some (name rootNode)) ∧
    (∀ nm data, networks_ sampleHostB !! nm = Some data →
       refcount data
         = refcount (default emptyNetworkData (networks_ sampleHost !! nm)) ∧
       (networks_ sampleHost !! nm = Some data ∨ dag data ∈ nodeList)).
Proof.
  apply (addNetwork_publishes sampleExt {| getFunctions := ["B"] |}
           sampleContext sampleHost sampleHostB).
  vm_compute. reflexivity.
Defined.

(** Profiling is refused while B is registered. *)
Lemma addNetwork_failure_registers_nothing_witness :
  networks_ sampleFailure.2 = networks_ sampleHostB ∧
  inferQueue_ sampleFailure.2 = inferQueue_ sampleHostB ∧
  totalRequestCount_ sampleFailure.2 = totalRequestCount_ sampleHostB ∧
  config_ sampleFailure.2 = config_ sampleHostB.
Proof.
  apply (addNetwork_failure_registers_nothing sampleExt
           {| getFunctions := ["A"] |} profilingContext sampleHostB
           sampleFailure.1 sampleFailure.2).
  - vm_compute. reflexivity.
  - vm_compute. discriminate.
Defined.

(** Three entries, the first and the last under one key. *)
Lemma getBackendParams_round_trip_witness :
  getBackendParams (paramLines sampleEntries)
    = Some (list_to_map (reverse sampleEntries)).
Proof.
  refine (proj1 (getBackendParams_round_trip sampleEntries _)).
  repeat constructor.
Defined.

(** One request for B in the executor. *)
Lemma active_requests_bounded_witness :
  config_ (host (afterSchedule untilExecutor (idle sampleHostB)))
    = config_ (host (idle sampleHostB)) ∧
  activeRequestCount_ (host (afterSchedule untilExecutor (idle sampleHostB))) =
    Z.of_nat (slotsHeld (afterSchedule untilExecutor (idle sampleHostB))) +
    Z.of_nat (slotsGivenBack (afterSchedule untilExecutor (idle sampleHostB))) ∧
  Z.of_nat (slotsHeld (afterSchedule untilExecutor (idle sampleHostB)))
    ≤ Z.max 0 (maxActiveRequests (config_ (host (idle sampleHostB)))).
Proof.
  apply (active_requests_bounded sampleExt (idle sampleHostB)
           (afterSchedule untilExecutor (idle sampleHostB))).
  - reflexivity.
  - vm_compute. reflexivity.
  - apply afterSchedule_rtc. vm_compute. eauto.
Defined.

(** Two requests for B in the queue. *)
Lemma pending_requests_keep_network_witness :
  NoDup (requestID <$>
         inferQueue_ (host (afterSchedule racingCalls (idle sampleHostB)))) ∧
  ∀ rq,
    rq ∈ inferQueue_ (host (afterSchedule racingCalls (idle sampleHostB))) ∨
    InExecutor rq ∈ threads (afterSchedule racingCalls (idle sampleHostB)) →
    (requestID rq
     < totalRequestCount_
         (host (afterSchedule racingCalls (idle sampleHostB))))%N ∧
    ∃ network,
      networks_ (host (afterSchedule racingCalls (idle sampleHostB)))
        !! networkName rq = Some network ∧
      0 < refcount network ∧
      ∃ msg,
        removeNetwork sampleExt (networkName rq)
          (host (afterSchedule racingCalls (idle sampleHostB)))
        = (MAKE_ERR RUNTIME_NET_BUSY msg,
           host (afterSchedule racingCalls (idle sampleHostB))).
Proof.
  apply (pending_requests_keep_network sampleExt
           (afterSchedule racingCalls (idle sampleHostB))).
  apply afterSchedule_reachable. vm_compute. eauto.
Defined.

(** The same two requests, about to be dispatched. *)
Lemma dispatch_finds_network_witness :
  (∀ hm' next events,
     advance (host (afterSchedule racingCalls (idle sampleHostB))) AtDispatch
       = Some (hm', next, events) →
     networks_ hm'
       = networks_ (host (afterSchedule racingCalls (idle sampleHostB))) ∧
     (inferQueue_ (host (afterSchedule racingCalls (idle sampleHostB))) = [] ∧
      next = [] ∨
      ∃ request network,
        request
          ∈ inferQueue_ (host (afterSchedule racingCalls (idle sampleHostB))) ∧
        next = [InExecutor request] ∧
        networks_ (host (afterSchedule racingCalls (idle sampleHostB)))
          !! networkName request = Some network ∧
        last (executor_ hm')
          = Some (run (root (dag network)) (requestID request)))) ∧
  (∀ rq err,
     AtCompletion rq err
       ∈ threads (afterSchedule racingCalls (idle sampleHostB)) →
     ∃ network hm',
       networks_ (host (afterSchedule racingCalls (idle sampleHostB)))
         !! networkName rq = Some network ∧
       0 < refcount network ∧
       advance (host (afterSchedule racingCalls (idle sampleHostB)))
         (AtCompletion rq err) =
         Some (hm', [AtCallback rq err],
               [RefDec (requestID rq) (networkName rq)]) ∧
       networks_ hm' =
         <[networkName rq := addRef (-1) network]>
           (networks_ (host (afterSchedule racingCalls (idle sampleHostB))))).
Proof.
  apply (dispatch_finds_network sampleExt
           (afterSchedule racingCalls (idle sampleHostB))).
  apply afterSchedule_reachable. vm_compute. eauto.
Defined.

(** Network B, registered and without requests, is removed. *)
Lemma removeNetwork_then_absent_witness :
  networkAdded "B" (removeNetwork sampleExt "B" sampleHostB).2 = false ∧
  getNetworkDAG "B" (removeNetwork sampleExt "B" sampleHostB).2
    = Failure RUNTIME_ERROR "Network not found.".
Proof.
  apply (removeNetwork_then_absent sampleExt "B" sampleHostB).
  vm_compute. reflexivity.
Defined.



(** Three configurations, the second one with a name: the devices get the
    ids 0, 1 and 2 and are visited in that order.  When [init()] of the
    second device fails, the first two are registered, the third is not,
    and there is no executor. *)
Lemma init_devices_witness :
  (∃ hm',
     runBody (init sampleExt threeConfigs) (newHostManager sampleConfig)
       = Some (success, hm') ∧
     devices_ hm' !! 0%N =
       Some (sampleDevice {| cfgBackendName := "CPU";
                             cfgName := Some "config0" |}) ∧
     devices_ hm' !! 1%N =
       Some (sampleDevice {| cfgBackendName := "CPU";
                             cfgName := Some "second" |}) ∧
     devices_ hm' !! 2%N =
       Some (sampleDevice {| cfgBackendName := "CPU";
                             cfgName := Some "config2" |}) ∧
     cfgName ∘ getDeviceConfig <$> deviceList hm'
       = [Some "config0"; Some "second"; Some "config2"] ∧
     provisioner_ hm' = [] ∧ executor_ hm' = [] ∧
     provisionerSet hm' = true ∧ executorSet hm' = true ∧
     balanced (statsExporterRegistry_ hm')) ∧
  (∃ hm',
     runBody (init secondFailsExt threeConfigs) (newHostManager sampleConfig)
       = Some (MAKE_ERR (OTHER_CODE 4) "no device", hm') ∧
     devices_ hm' !! 0%N =
       Some (sampleDevice {| cfgBackendName := "CPU";
                             cfgName := Some "config0" |}) ∧
     (getDeviceConfig <$> devices_ hm' !! 1%N) =
       Some {| cfgBackendName := "CPU"; cfgName := Some "second" |} ∧
     devices_ hm' !! 2%N = None ∧
     provisionerSet hm' = false ∧ executorSet hm' = false).
Proof.
  split.
  - destruct (init_devices sampleExt threeConfigs (newHostManager sampleConfig))
      as (e & hm' & Hrun & Hok & _).
    destruct Hok as (-> & Hdev & _ & Hprov & Hexec & Hpset & Heset & Hbal).
    { intros i config _. reflexivity. }
    assert (Hhost : runBody (init sampleExt threeConfigs)
                      (newHostManager sampleConfig)
                    = Some (success, sampleHostThree))
      by (vm_compute; reflexivity).
    exists hm'. split; [done|].
    split; [exact (Hdev 0%nat _ eq_refl)|].
    split; [exact (Hdev 1%nat _ eq_refl)|].
    split; [exact (Hdev 2%nat _ eq_refl)|].
    split; [|done].
    rewrite Hrun in Hhost. injection Hhost as ->. vm_compute. reflexivity.
  - destruct (init_devices secondFailsExt threeConfigs
                (newHostManager sampleConfig))
      as (e & hm' & Hrun & _ & Hfails).
    destruct (Hfails 1%nat _ eq_refl)
      as (-> & Hdev & Hrest & _ & _ & Hpset & Heset & _).
    { vm_compute. discriminate. }
    { intros j c Hj Hc. destruct j as [|j]; [|lia].
      injection Hc as <-. reflexivity. }
    exists hm'. split; [exact Hrun|].
    split; [exact (Hdev 0%nat _ (Nat.le_0_l _) eq_refl)|].
    split.
    { pose proof (Hdev 1%nat _ (Nat.le_refl _) eq_refl) as Hsecond.
      change (N.of_nat 1) with 1%N in Hsecond. rewrite Hsecond.
      reflexivity. }
    split; [rewrite (Hrest 2%N); [reflexivity|vm_compute; reflexivity]|].
    rewrite Hpset, Heset. done.
Defined.

(** A first request for B on the host manager that has B and a free slot:
    it is queued and dispatched at once. *)
Lemma runNetwork_alone_outcome_witness :
  ∃ hm' request,
    runNetwork_alone "B" 0%N 0%N 0 0 sampleHostB
      = Some (0%N, (hm', [InExecutor request], [RefInc 0%N "B"])) ∧
    totalRequestCount_ hm' = 1%N ∧ activeRequestCount_ hm' = 1.
Proof.
  destruct (runNetwork_alone_outcome "B" 0%N 0%N 0 0 sampleHostB)
    as (hm' & waiting & events & Hrun & Htotal & _ & _ & _ & Hqueued).
  assert (Hzero : totalRequestCount_ sampleHostB = 0%N)
    by (vm_compute; reflexivity).
  assert (Hactive : activeRequestCount_ sampleHostB = 0)
    by (vm_compute; reflexivity).
  rewrite Hzero in *. rewrite Hactive in *.
  destruct Hqueued as (-> & queued & _ & [Hfull|Hfree]).
  { vm_compute. eauto. }
  { vm_compute. reflexivity. }
  - destruct Hfull as (_ & _ & Hle & _). vm_compute in Hle. by destruct Hle.
  - destruct Hfree as (request & -> & _ & _ & _ & Hslot).
    exists hm', request. rewrite Hrun, Htotal, Hslot. done.
Defined.

(** One request for B.  Before the call the counters add up.  Between the
    two counter writes of its completion the network has one request
    processed and none succeeded or failed; the completion is counted as
    half done.  After the callback the counters add up again. *)
Lemma request_counters_add_up_witness :
  countersAccounted (idle sampleHostB) ∧
  countersAccounted (afterSchedule untilCounted (idle sampleHostB)) ∧
  halfCounted "B" (afterSchedule untilCounted (idle sampleHostB)) = 1%nat ∧
  statsExporterRegistry_ (host (afterSchedule untilCounted (idle sampleHostB)))
    (Named ("glow.requests_processed." +:+ "B")) = 1 ∧
  statsExporterRegistry_ (host (afterSchedule untilCounted (idle sampleHostB)))
    (Named ("glow.requests_succeeded." +:+ "B")) = 0 ∧
  statsExporterRegistry_ (host (afterSchedule untilCounted (idle sampleHostB)))
    (Named ("glow.requests_failed." +:+ "B")) = 0 ∧
  requestsAccounted
    (statsExporterRegistry_ (host (afterSchedule oneRun (idle sampleHostB)))).
Proof.
  assert (Hstart : countersAccounted (idle sampleHostB))
    by (intros s; vm_compute; reflexivity).
  destruct (request_counters_add_up sampleExt) as (Hkept & Hquiet & _).
  split; [exact Hstart|].
  split.
  { refine (Hkept _ _ _ Hstart). apply afterSchedule_rtc. vm_compute. eauto. }
  split; [vm_compute; reflexivity|].
  split; [vm_compute; reflexivity|].
  split; [vm_compute; reflexivity|].
  split; [vm_compute; reflexivity|].
  apply Hquiet.
  - refine (Hkept _ _ _ Hstart). apply afterSchedule_rtc. vm_compute. eauto.
  - intros nm. vm_compute. reflexivity.
Defined.
